(** * Logged configuration containers (logged_config.py)

    A shallow embedding of the three logged container classes
    [LoggedConfiguration], [LoggedList] and [LoggedSet], of the wrapping
    function [wrap_logged_config_value] and of [_unwrap].

    Logged containers are Python objects with identity: they live in a
    store (a list of objects, an address is an index) and values refer to
    them by address.  Plain data handed to the constructors is only ever
    read, so it is modelled by value.  Every method is a computation in a
    state-and-exception monad over the store and a chronological trace of
    log records and in-place mutations. *)

From stdpp Require Import base list strings.
From Stdlib Require Import ZArith Lia.

Local Open Scope nat_scope.
Set Warnings "-register-all,-notation-incompatible-prefix".

(** ** Values *)

(** Values that are not containers.  A logger object is identified by its
    channel name: [logging.getLogger] returns one object per name. *)
Inductive atom :=
| ANone
| ABool (b : bool)
| AInt (z : Z)
| AStr (s : string)
| ALogger (channel : string).

Definition addr := nat.

(** Plain lists, tuples, sets and dicts, and references to logged
    containers.  A set is held as the sequence of its distinct elements,
    a new element last.  That order stands in for the order of iteration,
    which CPython takes from the hash table and which the source never
    fixes: what is stated of a set below is its membership and that its
    elements are distinct, and two sets are compared by [py_eq], as sets.
    Dict keys are strings (the keys the source formats into child names
    and reaches through attribute access), in insertion order. *)
Inductive value :=
| VAtom (x : atom)
| VList (l : list value)
| VTuple (l : list value)
| VSet (l : list value)
| VDict (d : list (string * value))
| VRef (a : addr).

(** An instance of [LoggedConfiguration], [LoggedList] or [LoggedSet]:
    its fields, and for the two subclasses of [list] and [set] the
    elements. *)
Inductive obj :=
| OConfiguration (_name : string) (_data : list (string * value)) (_logger : string)
| OList (_name : string) (items : list value) (_logger : string)
| OSet (_name : string) (items : list value) (_logger : string).

Definition obj_name (o : obj) : string :=
  match o with
  | OConfiguration n _ _ | OList n _ _ | OSet n _ _ => n
  end.

Definition obj_logger (o : obj) : string :=
  match o with
  | OConfiguration _ _ c | OList _ _ c | OSet _ _ c => c
  end.

(** ** Log records and the trace *)

(** One constructor per message template of the source; the arguments are
    the values handed to [Logger.info] after the container name. *)
Inductive log_call :=
| LogSetting (key : string) (v : value)
| LogRemovingKey (key : string)
| LogAppending (v : value)
| LogRemoving (v : value)
| LogInserting (v index : value)
| LogPoppingIndex (index : value)
| LogClearing
| LogExtending (iterable : value)
| LogAdding (v : value)
| LogDifferenceUpdate (v : value)
| LogDiscarding (v : value)
| LogPopping (v : value)
| LogSymmetricDifferenceUpdate (v : value)
| LogUpdating (v : value).

Record log_record := LogRecord {
  channel : string;      (* the logger the record is sent through *)
  config : string;       (* the [_name] formatted into the message *)
  call : log_call
}.

(** A call to [Logger.info] is recorded as [Logged]; an in-place change of
    the contents or of a field of the object at [a] as [Mutated a]. *)
Inductive event :=
| Logged (r : log_record)
| Mutated (a : addr).

Record state := State {
  heap : list obj;
  trace : list event
}.

Definition is_logged (e : event) : bool :=
  match e with Logged _ => true | Mutated _ => false end.

Definition log_of (s : state) : list event := filter (fun e => is_logged e = true) (trace s).

(** ** The monad *)

(** Python exceptions raised by the modelled operations.  [OutOfFuel] is
    not a Python exception: it marks a recursion cut off by the fuel of
    the embedding.  [OutOfModel] marks a field assignment whose value has
    a type the embedding has no representation for. *)
Inductive exn :=
| KeyError
| AttributeError
| IndexError
| ValueError
| TypeError (msg : string)
| OverflowError
| OutOfFuel
| OutOfModel.

Inductive outcome (A : Type) :=
| Ok (a : A)
| Raise (e : exn).
Arguments Ok {A} a.
Arguments Raise {A} e.

Definition M (A : Type) : Type := state -> state * outcome A.

Definition ret {A} (a : A) : M A := fun s => (s, Ok a).
Definition raise {A} (e : exn) : M A := fun s => (s, Raise e).
Definition bind {A B} (m : M A) (k : A -> M B) : M B :=
  fun s => match m s with
           | (s', Ok a) => k a s'
           | (s', Raise e) => (s', Raise e)
           end.

Declare Scope py_scope.
Delimit Scope py_scope with py.
Notation "x <- m ;; k" := (bind m (fun x => k))
  (at level 100, m at next level, right associativity) : py_scope.
Notation "' p <- m ;; k" := (bind m (fun x => match x with p => k end))
  (at level 100, p pattern, m at next level, right associativity) : py_scope.
Notation "m ;;; k" := (bind m (fun _ => k))
  (at level 100, right associativity) : py_scope.
Local Open Scope py_scope.

Definition lift {A} (o : outcome A) : M A := fun s => (s, o).

(** Consume an iterable element by element, threading an accumulator; the
    loop stops at the first exception and keeps the effects made so far. *)
Fixpoint for_each {A B} (f : B -> A -> M B) (acc : B) (l : list A) : M B :=
  match l with
  | [] => ret acc
  | x :: l' => acc' <- f acc x ;; for_each f acc' l'
  end.

(** ** Primitive effects *)

Definition info (ch nm : string) (c : log_call) : M unit :=
  fun s => (State (heap s) (trace s ++ [Logged (LogRecord ch nm c)]), Ok tt).

(** Object creation: a fresh address, one past the last. *)
Definition alloc (o : obj) : M value :=
  fun s => (State (heap s ++ [o]) (trace s), Ok (VRef (length (heap s)))).

Definition store (a : addr) (o : obj) : M unit :=
  fun s => (State (<[a:=o]> (heap s)) (trace s ++ [Mutated a]), Ok tt).

(** [logging.getLogger(name)]: the empty name designates the root logger,
    whose channel is called "root". *)
Definition getLogger (name : string) : string :=
  if String.eqb name "" then "root" else name.

(** ** Hashing and equality of set elements *)

(** Lists, sets and dicts are unhashable, and so are the three logged
    classes: [LoggedList] and [LoggedSet] subclass [list] and [set], and
    a [collections.Mapping] defines [__eq__] without [__hash__]. *)
Fixpoint hashable (v : value) : bool :=
  match v with
  | VAtom _ => true
  | VTuple l => forallb hashable l
  | VList _ | VSet _ | VDict _ | VRef _ => false
  end.

Definition bool_to_Z (b : bool) : Z := if b then 1%Z else 0%Z.

(** Python's [==] on non-containers: [True == 1] and [False == 0]. *)
Definition atom_eqb (x y : atom) : bool :=
  match x, y with
  | ANone, ANone => true
  | ABool b, ABool c => Bool.eqb b c
  | ABool b, AInt z | AInt z, ABool b => Z.eqb (bool_to_Z b) z
  | AInt z, AInt w => Z.eqb z w
  | AStr s, AStr t => String.eqb s t
  | ALogger s, ALogger t => String.eqb s t
  | _, _ => false
  end.

(** [==] between hashable values (atoms and tuples of them). *)
Fixpoint key_eqb (v w : value) : bool :=
  match v, w with
  | VAtom x, VAtom y => atom_eqb x y
  | VTuple l, VTuple k =>
      (fix go (l k : list value) : bool :=
         match l, k with
         | [], [] => true
         | x :: l', y :: k' => key_eqb x y && go l' k'
         | _, _ => false
         end) l k
  | _, _ => false
  end.

Definition set_mem (v : value) (items : list value) : bool :=
  existsb (key_eqb v) items.

(** [set.add] on the element sequence: hash first, then insert if new.
    Where the new element goes is a choice of the embedding (see [value]):
    only membership in the result is Python's. *)
Definition set_add (items : list value) (v : value) : outcome (list value) :=
  if hashable v then Ok (if set_mem v items then items else items ++ [v])
  else Raise (TypeError "unhashable type").

(** [d[key] = v] on an insertion-ordered dict. *)
Fixpoint dict_set (d : list (string * value)) (key : string) (v : value)
  : list (string * value) :=
  match d with
  | [] => [(key, v)]
  | (k, w) :: d' => if String.eqb k key then (k, v) :: d' else (k, w) :: dict_set d' key v
  end.

Fixpoint dict_get (d : list (string * value)) (key : string) : option value :=
  match d with
  | [] => None
  | (k, w) :: d' => if String.eqb k key then Some w else dict_get d' key
  end.

Fixpoint dict_del (d : list (string * value)) (key : string) : list (string * value) :=
  match d with
  | [] => []
  | (k, w) :: d' => if String.eqb k key then d' else (k, w) :: dict_del d' key
  end.

(** ** Constructors and the wrapping function *)

(** [isinstance] tests of [wrap_logged_config_value], returning what the
    constructor will iterate over.  A [LoggedList] is an instance of
    [list] and a [LoggedSet] of [set]; a [LoggedConfiguration] is not an
    instance of [dict]. *)
Definition as_list_or_tuple (h : list obj) (v : value) : option (list value) :=
  match v with
  | VList l | VTuple l => Some l
  | VRef a => match h !! a with Some (OList _ l _) => Some l | _ => None end
  | _ => None
  end.

Definition as_set (h : list obj) (v : value) : option (list value) :=
  match v with
  | VSet l => Some l
  | VRef a => match h !! a with Some (OSet _ l _) => Some l | _ => None end
  | _ => None
  end.

Definition as_dict (v : value) : option (list (string * value)) :=
  match v with
  | VDict d => Some d
  | _ => None
  end.

Section Constructors.
(** The constructors call the wrapping function on every element; it is
    tied to [wrap_logged_config_value] below. *)
Variable wrap : string -> value -> M value.

(** [LoggedConfiguration.__init__]: the dict comprehension over
    [data.items()]. *)
Definition LoggedConfiguration_new (name : string) (data : list (string * value)) : M value :=
  d <- for_each (fun acc kv =>
                   w <- wrap (name +:+ "." +:+ kv.1) kv.2 ;;
                   ret (dict_set acc kv.1 w)) [] data ;;
  alloc (OConfiguration name d (getLogger name)).

(** [LoggedList.__init__]: [list.__init__] consumes the generator. *)
Definition LoggedList_new (name : string) (data : list value) : M value :=
  l <- for_each (fun acc x =>
                   w <- wrap (name +:+ "[...]") x ;;
                   ret (acc ++ [w])) [] data ;;
  alloc (OList name l (getLogger name)).

(** [LoggedSet.__init__]: [set.__init__] hashes each wrapped element as
    the generator yields it. *)
Definition LoggedSet_new (name : string) (data : list value) : M value :=
  l <- for_each (fun acc x =>
                   w <- wrap (name +:+ "[...]") x ;;
                   lift (set_add acc w)) [] data ;;
  alloc (OSet name l (getLogger name)).
End Constructors.

Fixpoint wrap_logged_config_value (fuel : nat) (config_name : string) (v : value) : M value :=
  match fuel with
  | 0 => raise OutOfFuel
  | S fuel' =>
      fun s =>
        match as_list_or_tuple (heap s) v with
        | Some l => LoggedList_new (wrap_logged_config_value fuel') config_name l s
        | None =>
            match as_set (heap s) v with
            | Some l => LoggedSet_new (wrap_logged_config_value fuel') config_name l s
            | None =>
                match as_dict v with
                | Some d => LoggedConfiguration_new (wrap_logged_config_value fuel') config_name d s
                | None => (s, Ok v)
                end
            end
        end
  end.


(** ** Python equality between arbitrary values *)

(** What [==] looks at: a [LoggedList] compares as a list, a [LoggedSet]
    as a set and a [LoggedConfiguration] (a [Mapping]) like a dict; other
    objects compare by identity. *)
Inductive shape :=
| SAtom (x : atom)
| SList (l : list value)
| STuple (l : list value)
| SSet (l : list value)
| SDict (d : list (string * value))
| SOpaque.

Definition shape_of (h : list obj) (v : value) : shape :=
  match v with
  | VAtom x => SAtom x
  | VList l => SList l
  | VTuple l => STuple l
  | VSet l => SSet l
  | VDict d => SDict d
  | VRef a =>
      match h !! a with
      | Some (OConfiguration _ d _) => SDict d
      | Some (OList _ l _) => SList l
      | Some (OSet _ l _) => SSet l
      | None => SOpaque
      end
  end.

Definition same_object (v w : value) : bool :=
  match v, w with
  | VRef a, VRef b => Nat.eqb a b
  | _, _ => false
  end.

Section Equality.
Variable eq : value -> value -> option bool.

(** Element-wise comparison, stopping at the first difference. *)
Fixpoint all_eq (l k : list value) : option bool :=
  match l, k with
  | [], [] => Some true
  | x :: l', y :: k' =>
      match eq x y with
      | Some true => all_eq l' k'
      | r => r
      end
  | _, _ => Some false
  end.

(** Every key of [d] is in [e] with an equal value. *)
Fixpoint dict_le (d e : list (string * value)) : option bool :=
  match d with
  | [] => Some true
  | (k, x) :: d' =>
      match dict_get e k with
      | None => Some false
      | Some y =>
          match eq x y with
          | Some true => dict_le d' e
          | r => r
          end
      end
  end.
End Equality.

(** [PyObject_RichCompareBool(v, w, Py_EQ)]: identical objects are equal
    without calling [__eq__].  [None] when the fuel runs out. *)
Fixpoint py_eq (fuel : nat) (h : list obj) (v w : value) : option bool :=
  match fuel with
  | 0 => None
  | S fuel' =>
      if same_object v w then Some true else
      match shape_of h v, shape_of h w with
      | SAtom x, SAtom y => Some (atom_eqb x y)
      | SList l, SList k | STuple l, STuple k =>
          if Nat.eqb (length l) (length k) then all_eq (py_eq fuel' h) l k else Some false
      | SSet l, SSet k =>
          Some (Nat.eqb (length l) (length k) && forallb (fun x => set_mem x k) l)
      | SDict d, SDict e =>
          if Nat.eqb (length d) (length e) then dict_le (py_eq fuel' h) d e else Some false
      | _, _ => Some false
      end
  end.

(** ** The unwrap function *)

Definition obind {A B} (o : outcome A) (k : A -> outcome B) : outcome B :=
  match o with
  | Ok a => k a
  | Raise e => Raise e
  end.

Fixpoint ofold {A B} (f : B -> A -> outcome B) (acc : B) (l : list A) : outcome B :=
  match l with
  | [] => Ok acc
  | x :: l' => obind (f acc x) (fun acc' => ofold f acc' l')
  end.

(** [_unwrap] only reads the store.  The dict, list and set
    comprehensions build their result element by element; the set
    comprehension hashes what it inserts.  A reference to no object of
    the store is outside the embedding. *)
Fixpoint _unwrap (fuel : nat) (h : list obj) (replace_sets_with_lists : bool) (v : value)
  : outcome value :=
  match fuel with
  | 0 => Raise OutOfFuel
  | S fuel' =>
      let rec := _unwrap fuel' h replace_sets_with_lists in
      let as_list l := obind (ofold (fun acc x => obind (rec x) (fun u => Ok (acc ++ [u]))) [] l)
                             (fun r => Ok (VList r)) in
      match v with
      | VRef a =>
          match h !! a with
          | Some (OConfiguration _ d _) =>
              obind (ofold (fun acc (kv : string * value) =>
                              obind (rec kv.2) (fun u => Ok (dict_set acc kv.1 u))) [] d)
                    (fun r => Ok (VDict r))
          | Some (OList _ l _) => as_list l
          | Some (OSet _ l _) =>
              if replace_sets_with_lists then as_list l
              else obind (ofold (fun acc x => obind (rec x) (fun u => set_add acc u)) [] l)
                         (fun r => Ok (VSet r))
          | None => Raise OutOfModel
          end
      | _ => Ok v
      end
  end.

(** ** Receivers *)

(** A method runs on an instance of its class; the embedding has no
    behaviour for another receiver. *)
Definition self_config (self : addr) : M (string * list (string * value) * string) :=
  fun s => match heap s !! self with
           | Some (OConfiguration n d c) => (s, Ok (n, d, c))
           | _ => (s, Raise OutOfModel)
           end.

Definition self_list (self : addr) : M (string * list value * string) :=
  fun s => match heap s !! self with
           | Some (OList n l c) => (s, Ok (n, l, c))
           | _ => (s, Raise OutOfModel)
           end.

Definition self_set (self : addr) : M (string * list value * string) :=
  fun s => match heap s !! self with
           | Some (OSet n l c) => (s, Ok (n, l, c))
           | _ => (s, Raise OutOfModel)
           end.

Definition get_heap : M (list obj) := fun s => (s, Ok (heap s)).

(** ** Iteration and indices *)

(** A [str] is a sequence of code points, a [string] here the bytes of
    its UTF-8 encoding.  A byte [10xxxxxx] continues the code point of
    the byte before it. *)
Definition is_continuation (c : Ascii.ascii) : bool :=
  match c with
  | Ascii.Ascii _ _ _ _ _ _ b6 b7 => b7 && negb b6
  end.

Definition starts_with_continuation (s : string) : bool :=
  match s with
  | EmptyString => false
  | String c _ => is_continuation c
  end.

Fixpoint code_points (s : string) : list string :=
  match s with
  | EmptyString => []
  | String c s' =>
      match code_points s' with
      | p :: ps =>
          if starts_with_continuation s' then String c p :: ps
          else String c EmptyString :: p :: ps
      | [] => [String c EmptyString]
      end
  end.

(** The characters of a string, each a string of length one. *)
Definition chars (s : string) : list value :=
  map (fun p => VAtom (AStr p)) (code_points s).

(** [iter(v)]: the elements a loop over [v] sees.  A dict and a
    [LoggedConfiguration] yield their keys, a string its characters. *)
Definition py_iter (h : list obj) (v : value) : outcome (list value) :=
  match v with
  | VList l | VTuple l | VSet l => Ok l
  | VDict d => Ok (map (fun kv : string * value => VAtom (AStr kv.1)) d)
  | VAtom (AStr s) => Ok (chars s)
  | VAtom _ => Raise (TypeError "object is not iterable")
  | VRef a =>
      match h !! a with
      | Some (OConfiguration _ d _) => Ok (map (fun kv : string * value => VAtom (AStr kv.1)) d)
      | Some (OList _ l _) | Some (OSet _ l _) => Ok l
      | None => Raise OutOfModel
      end
  end.

(** The range of a C [Py_ssize_t], on a 64-bit build. *)
Definition ssize_min : Z := -9223372036854775808.
Definition ssize_max : Z := 9223372036854775807.

(** An index argument of [list.insert] and [list.pop]: an [int], or a
    [bool], which is one, converted to a [Py_ssize_t]; an [int] outside
    its range raises [OverflowError]. *)
Definition as_index (v : value) : outcome Z :=
  match v with
  | VAtom (AInt z) =>
      if ((z <? ssize_min) || (ssize_max <? z))%Z then Raise OverflowError else Ok z
  | VAtom (ABool b) => Ok (bool_to_Z b)
  | _ => Raise (TypeError "object cannot be interpreted as an integer")
  end.

(** [list.insert]: negative indices count from the end, and the position
    is clamped to the list. *)
Definition list_insert_at (l : list value) (i : Z) (v : value) : list value :=
  let n := Z.of_nat (length l) in
  let i := if (i <? 0)%Z then Z.max 0 (i + n) else Z.min i n in
  take (Z.to_nat i) l ++ v :: drop (Z.to_nat i) l.

(** [list.pop]: the removed element and the rest. *)
Definition list_pop_at (l : list value) (i : Z) : outcome (value * list value) :=
  let n := Z.of_nat (length l) in
  let i := if (i <? 0)%Z then (i + n)%Z else i in
  if (i <? 0)%Z || (n <=? i)%Z then Raise IndexError
  else match l !! Z.to_nat i with
       | Some x => Ok (x, delete (Z.to_nat i) l)
       | None => Raise IndexError
       end.

(** [list.remove]: the first element equal to [v] goes. *)
Fixpoint list_remove (eq : value -> value -> option bool) (l : list value) (v : value)
  : outcome (list value) :=
  match l with
  | [] => Raise ValueError
  | x :: l' =>
      match eq x v with
      | None => Raise OutOfFuel
      | Some true => Ok l'
      | Some false => obind (list_remove eq l' v) (fun r => Ok (x :: r))
      end
  end.

(** Removal of the element equal to a hashable key. *)
Fixpoint set_del (items : list value) (v : value) : list value :=
  match items with
  | [] => []
  | x :: items' => if key_eqb v x then items' else x :: set_del items' v
  end.

(** The key [set.remove], [set.discard] and [in] look up.  An unhashable
    set argument is looked up as the frozenset of its elements; frozensets
    are not modelled, so no element equals it ([None]). *)
Definition set_lookup_key (h : list obj) (v : value) : outcome (option value) :=
  if hashable v then Ok (Some v)
  else match as_set h v with
       | Some _ => Ok None
       | None => Raise (TypeError "unhashable type")
       end.

(** ** copy.deepcopy *)

Fixpoint assoc_get {A} (l : list (addr * A)) (a : addr) : option A :=
  match l with
  | [] => None
  | (b, x) :: l' => if Nat.eqb a b then Some x else assoc_get l' a
  end.

(** The memo dictionary of [copy.deepcopy], keyed by object identity:
    [copies] for logged containers, [dict_copies] for the [_data] dict of
    the [LoggedConfiguration] at an address.  [_deepcopy_dict] registers
    its result before filling it, so a lookup can see it half-built. *)
Record memo := Memo {
  copies : list (addr * value);
  dict_copies : list (addr * list (string * value))
}.

Definition empty_memo : memo := Memo [] [].

Definition memo_copy (m : memo) (a : addr) (y : value) : memo :=
  Memo ((a, y) :: copies m) (dict_copies m).

Definition memo_dict (m : memo) (a : addr) (y : list (string * value)) : memo :=
  Memo (copies m) ((a, y) :: dict_copies m).

Definition dict_copy (m : memo) (a : addr) : list (string * value) :=
  default [] (assoc_get (dict_copies m) a).

Section DeepCopy.
Variable wrap : string -> value -> M value.
Variable deepcopy : value -> memo -> M (value * memo).

Fixpoint deepcopy_all (l : list value) (m : memo) : M (list value * memo) :=
  match l with
  | [] => ret ([], m)
  | x :: l' =>
      '(y, m1) <- deepcopy x m ;;
      '(r, m2) <- deepcopy_all l' m1 ;;
      ret (y :: r, m2)
  end.

Fixpoint deepcopy_items (d : list (string * value)) (m : memo)
  : M (list (string * value) * memo) :=
  match d with
  | [] => ret ([], m)
  | (k, x) :: d' =>
      '(y, m1) <- deepcopy x m ;;
      '(r, m2) <- deepcopy_items d' m1 ;;
      ret ((k, y) :: r, m2)
  end.

(** [_deepcopy_dict] on the [_data] of the object at [a]. *)
Definition deepcopy_data (a : addr) (d : list (string * value)) (m : memo)
  : M (list (string * value) * memo) :=
  match assoc_get (dict_copies m) a with
  | Some y => ret (y, m)
  | None =>
      m' <- for_each (fun m (kv : string * value) =>
                        '(y, m1) <- deepcopy kv.2 m ;;
                        ret (memo_dict m1 a (dict_set (dict_copy m1 a) kv.1 y)))
                     (memo_dict m a []) d ;;
      ret (dict_copy m' a, m')
  end.

(** [LoggedConfiguration.__deepcopy__] *)
Definition LoggedConfiguration_deepcopy (self : addr) (m : memo) : M (value * memo) :=
  '(n, d, _) <- self_config self ;;
  '(d', m') <- deepcopy_data self d m ;;
  y <- LoggedConfiguration_new wrap (n +:+ "(copy)") d' ;;
  ret (y, m').

(** [LoggedList.__deepcopy__]: the constructor pulls the deep copies one
    at a time out of the generator and wraps each as it comes. *)
Definition LoggedList_deepcopy (self : addr) (m : memo) : M (value * memo) :=
  '(n, l, _) <- self_list self ;;
  '(r, m') <- for_each (fun '(acc, m) x =>
                          '(y, m1) <- deepcopy x m ;;
                          w <- wrap ((n +:+ "(copy)") +:+ "[...]") y ;;
                          ret (acc ++ [w], m1)) ([], m) l ;;
  y <- alloc (OList (n +:+ "(copy)") r (getLogger (n +:+ "(copy)"))) ;;
  ret (y, m').

(** [LoggedSet.__deepcopy__] *)
Definition LoggedSet_deepcopy (self : addr) (m : memo) : M (value * memo) :=
  '(n, l, _) <- self_set self ;;
  '(r, m') <- for_each (fun '(acc, m) x =>
                          '(y, m1) <- deepcopy x m ;;
                          w <- wrap ((n +:+ "(copy)") +:+ "[...]") y ;;
                          acc' <- lift (set_add acc w) ;;
                          ret (acc', m1)) ([], m) l ;;
  y <- alloc (OSet (n +:+ "(copy)") r (getLogger (n +:+ "(copy)"))) ;;
  ret (y, m').
End DeepCopy.

(** [copy.deepcopy(x, memo)].  Atoms are their own copy; plain containers
    are rebuilt from the copies of their elements; an object met before is
    answered from the memo; a logged container is copied by the
    [__deepcopy__] of its class and then memoised. *)
Fixpoint deepcopy (fuel : nat) (x : value) (m : memo) : M (value * memo) :=
  match fuel with
  | 0 => raise OutOfFuel
  | S fuel' =>
      let wrap := wrap_logged_config_value fuel' in
      let rec := deepcopy fuel' in
      match x with
      | VAtom _ => ret (x, m)
      | VList l => '(r, m') <- deepcopy_all rec l m ;; ret (VList r, m')
      | VTuple l => '(r, m') <- deepcopy_all rec l m ;; ret (VTuple r, m')
      | VSet l => '(r, m') <- deepcopy_all rec l m ;; ret (VSet r, m')
      | VDict d => '(r, m') <- deepcopy_items rec d m ;; ret (VDict r, m')
      | VRef a =>
          match assoc_get (copies m) a with
          | Some y => ret (y, m)
          | None =>
              fun s =>
                match heap s !! a with
                | Some o =>
                    ('(y, m') <- match o with
                                 | OConfiguration _ _ _ => LoggedConfiguration_deepcopy wrap rec a m
                                 | OList _ _ _ => LoggedList_deepcopy wrap rec a m
                                 | OSet _ _ _ => LoggedSet_deepcopy wrap rec a m
                                 end ;;
                     ret (y, memo_copy m' a y)) s
                | None => (s, Raise OutOfModel)
                end
          end
      end
  end.

(** [copy.deepcopy(x)] with a fresh memo. *)
Definition copy_deepcopy (fuel : nat) (x : value) : M value :=
  '(y, _) <- deepcopy fuel x empty_memo ;; ret y.

(** ** LoggedConfiguration *)

Module LoggedConfiguration.

Definition __init__ (fuel : nat) (name : string) (data : list (string * value)) : M value :=
  LoggedConfiguration_new (wrap_logged_config_value fuel) name data.

Definition __getitem__ (self : addr) (key : string) : M value :=
  '(_, d, _) <- self_config self ;;
  match dict_get d key with
  | Some v => ret v
  | None => raise KeyError
  end.

Definition __setitem__ (fuel : nat) (self : addr) (key : string) (v : value) : M unit :=
  '(n, _, c) <- self_config self ;;
  info c n (LogSetting key v) ;;;
  w <- wrap_logged_config_value fuel (n +:+ "." +:+ key) v ;;
  '(n', d, c') <- self_config self ;;
  store self (OConfiguration n' (dict_set d key w) c').

Definition __delitem__ (self : addr) (key : string) : M unit :=
  '(n, d, c) <- self_config self ;;
  info c n (LogRemovingKey key) ;;;
  match dict_get d key with
  | Some _ => store self (OConfiguration n (dict_del d key) c)
  | None => raise KeyError
  end.

(** [item in self._data]: the lookup hashes [item] first. *)
Definition __contains__ (self : addr) (item : value) : M bool :=
  '(_, d, _) <- self_config self ;;
  match item with
  | VAtom (AStr key) => ret (bool_decide (is_Some (dict_get d key)))
  | _ => if hashable item then ret false else raise (TypeError "unhashable type")
  end.

Definition __getattr__ (self : addr) (attr : string) : M value :=
  '(_, d, _) <- self_config self ;;
  match dict_get d attr with
  | Some v => ret v
  | None => raise AttributeError
  end.

Definition __len__ (self : addr) : M nat :=
  '(_, d, _) <- self_config self ;;
  ret (length d).

Definition __iter__ (self : addr) : M (list string) :=
  '(_, d, _) <- self_config self ;;
  ret (map fst d).

Definition __copy__ (fuel : nat) (self : addr) : M value :=
  '(n, d, _) <- self_config self ;;
  __init__ fuel (n +:+ "(copy)") d.

Definition __deepcopy__ (fuel : nat) (self : addr) (m : memo) : M (value * memo) :=
  LoggedConfiguration_deepcopy (wrap_logged_config_value fuel) (deepcopy fuel) self m.

(** [copy.copy(self)] calls [__copy__]; [copy.deepcopy(self)] starts a
    fresh memo. *)
Definition copy (fuel : nat) (self : addr) (deep : bool) : M value :=
  if deep then copy_deepcopy fuel (VRef self) else __copy__ fuel self.

Definition to_dict (fuel : nat) (self : addr) : M value :=
  fun s => (s, _unwrap fuel (heap s) false (VRef self)).

Definition reserved (attr : string) : bool :=
  existsb (String.eqb attr) ["_name"; "_data"; "_logger"].

(** [super().__setattr__(attr, value)]: [object.__setattr__] binds the
    instance field.  The fields are typed in the embedding: a string, a
    plain dict and a logger. *)
Definition object_setattr (self : addr) (attr : string) (v : value) : M unit :=
  '(n, d, c) <- self_config self ;;
  match v with
  | VAtom (AStr n') =>
      if String.eqb attr "_name" then store self (OConfiguration n' d c) else raise OutOfModel
  | VDict d' =>
      if String.eqb attr "_data" then store self (OConfiguration n d' c) else raise OutOfModel
  | VAtom (ALogger c') =>
      if String.eqb attr "_logger" then store self (OConfiguration n d c') else raise OutOfModel
  | _ => raise OutOfModel
  end.

Definition __setattr__ (fuel : nat) (self : addr) (attr : string) (v : value) : M unit :=
  if reserved attr then object_setattr self attr v
  else __setitem__ fuel self attr v.

(** The attributes the class body defines. *)
Definition class_attributes : list string :=
  ["__init__"; "__getitem__"; "__setitem__"; "__delitem__"; "__contains__";
   "__getattr__"; "__setattr__"; "__len__"; "__iter__"; "copy"; "__copy__";
   "__deepcopy__"; "to_dict"; "__repr__"].

(** What the expression [self.attr] evaluates to. *)
Inductive attribute :=
| Field (v : value)            (* an instance field or a stored value *)
| ClassAttribute (name : string). (* a method or other attribute of the class *)

Section AttributeAccess.
(** The names found on [collections.Mapping], its bases and [object]
    ([keys], [items], [get], [__class__], ...); they are not part of
    the source. *)
Variable inherited : string -> bool.

(** [self.attr]: Python looks in the instance and in the class first
    and calls [__getattr__] only when both miss. *)
Definition getattr (self : addr) (attr : string) : M attribute :=
  '(n, d, c) <- self_config self ;;
  if String.eqb attr "_name" then ret (Field (VAtom (AStr n)))
  else if String.eqb attr "_data" then ret (Field (VDict d))
  else if String.eqb attr "_logger" then ret (Field (VAtom (ALogger c)))
  else if existsb (String.eqb attr) class_attributes || inherited attr
       then ret (ClassAttribute attr)
  else v <- __getattr__ self attr ;; ret (Field v).
End AttributeAccess.

End LoggedConfiguration.

(** ** LoggedList *)

Module LoggedList.

Definition __init__ (fuel : nat) (name : string) (data : list value) : M value :=
  LoggedList_new (wrap_logged_config_value fuel) name data.

Definition append (fuel : nat) (self : addr) (v : value) : M unit :=
  '(n, _, c) <- self_list self ;;
  info c n (LogAppending v) ;;;
  w <- wrap_logged_config_value fuel (n +:+ "[...]") v ;;
  '(n', l, c') <- self_list self ;;
  store self (OList n' (l ++ [w]) c').

Definition remove (fuel : nat) (self : addr) (v : value) : M unit :=
  '(n, l, c) <- self_list self ;;
  info c n (LogRemoving v) ;;;
  h <- get_heap ;;
  l' <- lift (list_remove (py_eq fuel h) l v) ;;
  store self (OList n l' c).

Definition insert (fuel : nat) (self : addr) (index v : value) : M unit :=
  '(n, _, c) <- self_list self ;;
  info c n (LogInserting v index) ;;;
  w <- wrap_logged_config_value fuel (n +:+ "[...]") v ;;
  i <- lift (as_index index) ;;
  '(n', l, c') <- self_list self ;;
  store self (OList n' (list_insert_at l i w) c').

Definition pop (self : addr) (index : value) : M value :=
  '(n, l, c) <- self_list self ;;
  info c n (LogPoppingIndex index) ;;;
  i <- lift (as_index index) ;;
  '(x, l') <- lift (list_pop_at l i) ;;
  store self (OList n l' c) ;;;
  ret x.

Definition clear (self : addr) : M unit :=
  '(n, _, c) <- self_list self ;;
  info c n LogClearing ;;;
  store self (OList n [] c).

(** The generator expression takes [iter(iterable)] when it is created;
    [list.extend] then appends what the generator yields, one element at
    a time.  A non-empty list extended with itself grows under its own
    iterator and the loop never ends. *)
Definition extend (fuel : nat) (self : addr) (iterable : value) : M unit :=
  '(n, l, c) <- self_list self ;;
  info c n (LogExtending iterable) ;;;
  h <- get_heap ;;
  xs <- lift (py_iter h iterable) ;;
  if same_object iterable (VRef self) && negb (bool_decide (l = [])) then raise OutOfFuel
  else
    for_each (fun _ x =>
                w <- wrap_logged_config_value fuel (n +:+ "[...]") x ;;
                '(n', l', c') <- self_list self ;;
                store self (OList n' (l' ++ [w]) c')) tt xs.

Definition __copy__ (fuel : nat) (self : addr) : M value :=
  '(n, l, _) <- self_list self ;;
  __init__ fuel (n +:+ "(copy)") l.

Definition __deepcopy__ (fuel : nat) (self : addr) (m : memo) : M (value * memo) :=
  LoggedList_deepcopy (wrap_logged_config_value fuel) (deepcopy fuel) self m.

End LoggedList.

(** ** LoggedSet *)

Module LoggedSet.

Definition __init__ (fuel : nat) (name : string) (data : list value) : M value :=
  LoggedSet_new (wrap_logged_config_value fuel) name data.

(** One in-place [set.add] / [set.discard] on the object. *)
Definition add_key (self : addr) (v : value) : M unit :=
  '(n, l, c) <- self_set self ;;
  l' <- lift (set_add l v) ;;
  store self (OSet n l' c).

Definition discard_key (self : addr) (v : value) : M unit :=
  '(n, l, c) <- self_set self ;;
  if hashable v then store self (OSet n (set_del l v) c)
  else raise (TypeError "unhashable type").

Definition toggle_key (self : addr) (v : value) : M unit :=
  '(n, l, c) <- self_set self ;;
  if set_mem v l then discard_key self v else add_key self v.

Definition add (self : addr) (v : value) : M unit :=
  '(n, _, c) <- self_set self ;;
  info c n (LogAdding v) ;;;
  add_key self v.

Definition clear (self : addr) : M unit :=
  '(n, _, c) <- self_set self ;;
  info c n LogClearing ;;;
  store self (OSet n [] c).

(** [set.difference_update]: with itself the set is cleared; otherwise
    every element of the argument is discarded in turn. *)
Definition difference_update (self : addr) (v : value) : M unit :=
  '(n, _, c) <- self_set self ;;
  info c n (LogDifferenceUpdate v) ;;;
  if same_object v (VRef self) then store self (OSet n [] c)
  else
    h <- get_heap ;;
    xs <- lift (py_iter h v) ;;
    for_each (fun _ x => discard_key self x) tt xs.

Definition discard (self : addr) (v : value) : M unit :=
  '(n, l, c) <- self_set self ;;
  info c n (LogDiscarding v) ;;;
  h <- get_heap ;;
  k <- lift (set_lookup_key h v) ;;
  match k with
  | Some k => store self (OSet n (set_del l k) c)
  | None => ret tt
  end.

(** [super().pop(value)]: [set.pop] takes no argument. *)
Definition pop (self : addr) (v : value) : M value :=
  '(n, _, c) <- self_set self ;;
  info c n (LogPopping v) ;;;
  raise (TypeError "pop() takes no arguments (1 given)").

Definition remove (self : addr) (v : value) : M unit :=
  '(n, l, c) <- self_set self ;;
  info c n (LogRemoving v) ;;;
  h <- get_heap ;;
  k <- lift (set_lookup_key h v) ;;
  match k with
  | Some k => if set_mem k l then store self (OSet n (set_del l k) c) else raise KeyError
  | None => raise KeyError
  end.

(** [set.symmetric_difference_update]: with itself the set is cleared;
    the keys of a dict and the elements of a set are toggled directly;
    any other iterable is first turned into a set. *)
Definition symmetric_difference_update (self : addr) (v : value) : M unit :=
  '(n, _, c) <- self_set self ;;
  info c n (LogSymmetricDifferenceUpdate v) ;;;
  if same_object v (VRef self) then store self (OSet n [] c)
  else
    h <- get_heap ;;
    xs <- lift (py_iter h v) ;;
    ys <- match as_dict v, as_set h v with
          | None, None => lift (ofold set_add [] xs)
          | _, _ => ret xs
          end ;;
    for_each (fun _ x => toggle_key self x) tt ys.

(** [set.update]: every element of the argument is added in turn. *)
Definition update (self : addr) (v : value) : M unit :=
  '(n, _, c) <- self_set self ;;
  info c n (LogUpdating v) ;;;
  h <- get_heap ;;
  xs <- lift (py_iter h v) ;;
  for_each (fun _ x => add_key self x) tt xs.

Definition __copy__ (fuel : nat) (self : addr) : M value :=
  '(n, l, _) <- self_set self ;;
  __init__ fuel (n +:+ "(copy)") l.

Definition __deepcopy__ (fuel : nat) (self : addr) (m : memo) : M (value * memo) :=
  LoggedSet_deepcopy (wrap_logged_config_value fuel) (deepcopy fuel) self m.

(** A call of [self.pop] with any number of arguments: binding the arguments to the signature
    [pop(self, value)] comes before the body. *)
Definition call_pop (self : addr) (args : list value) : M value :=
  match args with
  | [] => raise (TypeError "pop() missing 1 required positional argument: 'value'")
  | [v] => pop self v
  | _ => raise (TypeError "pop() takes 2 positional arguments but more were given")
  end.

End LoggedSet.

(** [copy.copy(x)]: a logged container is copied by the [__copy__] of its
    class; atoms are their own copy and a plain container is rebuilt with
    the same elements. *)
Definition copy_copy (fuel : nat) (x : value) : M value :=
  match x with
  | VRef a =>
      fun s =>
        match heap s !! a with
        | Some (OConfiguration _ _ _) => LoggedConfiguration.__copy__ fuel a s
        | Some (OList _ _ _) => LoggedList.__copy__ fuel a s
        | Some (OSet _ _ _) => LoggedSet.__copy__ fuel a s
        | None => (s, Raise OutOfModel)
        end
  | _ => ret x
  end.


(** ** The mutating calls of the three classes *)

(** The logging methods, with the arguments of their signatures. *)
Inductive mutating_call :=
| SetItem (key : string) (v : value)        (* LoggedConfiguration.__setitem__ *)
| DelItem (key : string)                    (* LoggedConfiguration.__delitem__ *)
| ListAppend (v : value)
| ListInsert (index v : value)
| ListRemove (v : value)
| ListPop (index : value)
| ListClear
| ListExtend (iterable : value)
| SetAdd (v : value)
| SetUpdate (v : value)
| SetDiscard (v : value)
| SetRemove (v : value)
| SetPop (v : value)
| SetClear
| SetDifferenceUpdate (v : value)
| SetSymmetricDifferenceUpdate (v : value).

Inductive class := CConfiguration | CList | CSet.

Definition class_of (o : obj) : class :=
  match o with
  | OConfiguration _ _ _ => CConfiguration
  | OList _ _ _ => CList
  | OSet _ _ _ => CSet
  end.

(** The class that defines the method. *)
Definition receiver (c : mutating_call) : class :=
  match c with
  | SetItem _ _ | DelItem _ => CConfiguration
  | ListAppend _ | ListInsert _ _ | ListRemove _ | ListPop _ | ListClear | ListExtend _ => CList
  | _ => CSet
  end.

Definition ignore {A} (m : M A) : M unit := m ;;; ret tt.

Definition call_method (fuel : nat) (self : addr) (c : mutating_call) : M unit :=
  match c with
  | SetItem key v => LoggedConfiguration.__setitem__ fuel self key v
  | DelItem key => LoggedConfiguration.__delitem__ self key
  | ListAppend v => LoggedList.append fuel self v
  | ListInsert index v => LoggedList.insert fuel self index v
  | ListRemove v => LoggedList.remove fuel self v
  | ListPop index => ignore (LoggedList.pop self index)
  | ListClear => LoggedList.clear self
  | ListExtend iterable => LoggedList.extend fuel self iterable
  | SetAdd v => LoggedSet.add self v
  | SetUpdate v => LoggedSet.update self v
  | SetDiscard v => LoggedSet.discard self v
  | SetRemove v => LoggedSet.remove self v
  | SetPop v => ignore (LoggedSet.pop self v)
  | SetClear => LoggedSet.clear self
  | SetDifferenceUpdate v => LoggedSet.difference_update self v
  | SetSymmetricDifferenceUpdate v => LoggedSet.symmetric_difference_update self v
  end.

(** The record a call sends: through the receiver's logger, naming the
    receiver, with the template of the method. *)
Definition record_of (o : obj) (c : mutating_call) : log_record :=
  LogRecord (obj_logger o) (obj_name o)
    match c with
    | SetItem key v => LogSetting key v
    | DelItem key => LogRemovingKey key
    | ListAppend v => LogAppending v
    | ListInsert index v => LogInserting v index
    | ListRemove v => LogRemoving v
    | ListPop index => LogPoppingIndex index
    | ListClear => LogClearing
    | ListExtend iterable => LogExtending iterable
    | SetAdd v => LogAdding v
    | SetUpdate v => LogUpdating v
    | SetDiscard v => LogDiscarding v
    | SetRemove v => LogRemoving v
    | SetPop v => LogPopping v
    | SetClear => LogClearing
    | SetDifferenceUpdate v => LogDifferenceUpdate v
    | SetSymmetricDifferenceUpdate v => LogSymmetricDifferenceUpdate v
    end.

(** ** Specification vocabulary *)

(** [quiet s s']: from [s] to [s'] the trace only grew, by mutations. *)
Definition quiet (s s' : state) : Prop :=
  exists rest, trace s' = trace s ++ rest /\ Forall (fun e => is_logged e = false) rest.

(** [grows s s']: objects were created, none changed, nothing traced. *)
Definition grows (s s' : state) : Prop :=
  heap s `prefix_of` heap s' /\ trace s' = trace s.

Definition steps (R : state -> state -> Prop) {A} (m : M A) : Prop :=
  forall s, R s (m s).1.

(** A computation that sends no log record. *)
Definition silent {A} (m : M A) : Prop := steps quiet m.

(** A computation that only creates objects. *)
Definition allocates {A} (m : M A) : Prop := steps grows m.


(** What a container holds: the values of a mapping, the elements of a
    sequence or set. *)
Definition elements (o : obj) : list value :=
  match o with
  | OConfiguration _ d _ => map snd d
  | OList _ l _ | OSet _ l _ => l
  end.

(** The recursive-wrapping invariant: nothing stored is a plain list,
    tuple, set or dict; what is stored is an atom or a logged container
    of the store. *)
Definition stored_wrapped (h : list obj) (v : value) : bool :=
  match v with
  | VAtom _ => true
  | VRef a => bool_decide (a < length h)
  | _ => false
  end.

Definition wrapping_invariant (h : list obj) : bool :=
  forallb (fun o => forallb (stored_wrapped h) (elements o)) h.

(** [extends s s']: every object of [s] is in [s'], unchanged. *)
Definition extends (s s' : state) : Prop := heap s `prefix_of` heap s'.

(** A computation whose failures leave every object as it was. *)
Definition fails_clean {A} (m : M A) : Prop :=
  forall s e, (m s).2 = Raise e -> extends s (m s).1.

(** The methods that take an iterable and process it element by element,
    in place. *)
Definition bulk (c : mutating_call) : bool :=
  match c with
  | ListExtend _ | SetUpdate _ | SetDifferenceUpdate _ => true
  | _ => false
  end.

(** A set handed to [symmetric_difference_update] is a Python set: its
    elements are hashable. *)
Definition set_argument_valid (h : list obj) (c : mutating_call) : Prop :=
  match c with
  | SetSymmetricDifferenceUpdate v =>
      forall l, as_set h v = Some l -> forallb hashable l = true
  | _ => True
  end.

(** ** Plain data *)

Definition is_atom (v : value) : bool :=
  match v with VAtom _ => true | _ => false end.

(** No element of [l] equals an earlier one or one of [acc]. *)
Fixpoint distinct_from (acc l : list value) : bool :=
  match l with
  | [] => true
  | x :: l' => negb (set_mem x acc) && distinct_from (acc ++ [x]) l'
  end.

Fixpoint distinct_keys (ks : list string) : bool :=
  match ks with
  | [] => true
  | k :: ks' => negb (existsb (String.eqb k) ks') && distinct_keys ks'
  end.

(** The values Python can build from atoms, lists, tuples, sets and
    dicts: no logged container inside, the elements of a set hashable and
    different from each other, the keys of a dict different from each
    other. *)
Fixpoint python_value (v : value) : bool :=
  match v with
  | VAtom _ => true
  | VList l | VTuple l => forallb python_value l
  | VSet l => forallb python_value l && forallb hashable l && distinct_from [] l
  | VDict d =>
      forallb (fun kv : string * value => python_value kv.2) d && distinct_keys (map fst d)
  | VRef _ => false
  end.

(** Every set, at any depth, holds atoms only. *)
Fixpoint sets_atomic (v : value) : bool :=
  match v with
  | VAtom _ | VRef _ => true
  | VList l | VTuple l => forallb sets_atomic l
  | VSet l => forallb is_atom l
  | VDict d => forallb (fun kv : string * value => sets_atomic kv.2) d
  end.

Fixpoint tuple_free (v : value) : bool :=
  match v with
  | VAtom _ | VRef _ => true
  | VTuple _ => false
  | VList l | VSet l => forallb tuple_free l
  | VDict d => forallb (fun kv : string * value => tuple_free kv.2) d
  end.

(** The value with every tuple outside a set replaced by the list of its
    elements. *)
Fixpoint detuple (v : value) : value :=
  match v with
  | VAtom _ | VRef _ | VSet _ => v
  | VList l | VTuple l => VList (map detuple l)
  | VDict d => VDict (map (fun kv : string * value => (kv.1, detuple kv.2)) d)
  end.

(** Nesting depth; the wrapping function needs more fuel than this. *)
Fixpoint depth (v : value) : nat :=
  match v with
  | VAtom _ | VRef _ => 0
  | VList l | VTuple l | VSet l => S (list_max (map depth l))
  | VDict d => S (list_max (map (fun kv : string * value => depth kv.2) d))
  end.

(** What inserting the elements of [xs] one by one makes of the set
    [acc], and the pairs of [d] of the dict [acc]. *)
Definition set_extend (acc xs : list value) : list value :=
  foldl (fun acc x => if set_mem x acc then acc else acc ++ [x]) acc xs.

Definition dict_extend (acc d : list (string * value)) : list (string * value) :=
  foldl (fun acc (kv : string * value) => dict_set acc kv.1 kv.2) acc d.

(** [w], in the store [h], flattens to the plain value [p]. *)
Definition flattens (h : list obj) (w p : value) : Prop :=
  exists fuel, _unwrap fuel h false w = Ok p.

(** The same with every fuel beyond the depth of [p]. *)
Definition flattens_within_depth (h : list obj) (w p : value) : Prop :=
  forall fuel, depth p < fuel -> _unwrap fuel h false w = Ok p.

(** With fuel [g], in any store that extends [h0], wrapping [w] returns a
    value that flattens to [p] in the sense [F], and only creates
    objects. *)
Definition wrap_ok (F : list obj -> value -> value -> Prop)
    (g : nat) (h0 : list obj) (w p : value) : Prop :=
  forall n s, h0 `prefix_of` heap s ->
    exists s' w',
      wrap_logged_config_value g n w s = (s', Ok w') /\
      grows s s' /\
      F (heap s') w' p /\
      (is_atom p = true -> w' = p).

(** [to_dict(LoggedConfiguration(name, data))] *)
Definition round_trip (fuel : nat) (name : string) (data : list (string * value)) : M value :=
  x <- LoggedConfiguration.__init__ fuel name data ;;
  match x with
  | VRef a => LoggedConfiguration.to_dict fuel a
  | _ => raise OutOfModel
  end.

(** A computation that fails in every state. *)
Definition always_raises {A} (m : M A) : Prop :=
  forall s, exists s' e, m s = (s', Raise e).

(** A computation whose only failure is [e0]. *)
Definition raises_only (e0 : exn) {A} (m : M A) : Prop :=
  forall s s' e, m s = (s', Raise e) -> e = e0.

Definition unhashable : exn := TypeError "unhashable type".

(** ** Wrapped stores *)

(** [wrapped_above n0 f h w]: everything reachable from [w] in the store
    [h] obeys the recursive-wrapping invariant (what is stored is an atom
    or a logged container, a set holds distinct atoms, the keys of a
    mapping are distinct), is nested less than [f] deep, and sits at an
    address of at least [n0]. *)
Fixpoint wrapped_above (n0 : addr) (f : nat) (h : list obj) (w : value) : bool :=
  match f with
  | 0 => false
  | S f' =>
      match w with
      | VAtom _ => true
      | VRef a =>
          (n0 <=? a) &&
          match h !! a with
          | Some (OConfiguration _ d _) =>
              distinct_keys (map fst d) &&
              forallb (fun kv : string * value => wrapped_above n0 f' h kv.2) d
          | Some (OList _ l _) => forallb (wrapped_above n0 f' h) l
          | Some (OSet _ l _) =>
              forallb (fun x => is_atom x && wrapped_above n0 f' h x) l && distinct_from [] l
          | None => false
          end
      | _ => false
      end
  end.

(** Whatever level of [wrapped_above] holds of [w] in [h] holds of [w']
    in [h']. *)
Definition keeps_wrapped (n0 : addr) (h h' : list obj) (w w' : value) : Prop :=
  forall j, wrapped_above n0 j h w = true -> wrapped_above n0 j h' w' = true.

(** [y], in [h], is as wrapped as [x] is in the original store [h0], and
    made of objects at [n0] or above. *)
Definition copy_wrapped (n0 : addr) (h0 h : list obj) (x y : value) : Prop :=
  forall j, wrapped_above 0 j h0 x = true -> wrapped_above n0 j h y = true.

(** What the memo of a deep copy holds: copies of the objects met, and
    for a mapping being copied the copies of the values done so far. *)
Definition memo_ok (n0 : addr) (h0 h : list obj) (m : memo) : Prop :=
  (forall a y, assoc_get (copies m) a = Some y -> copy_wrapped n0 h0 h (VRef a) y) /\
  (forall a dy, assoc_get (dict_copies m) a = Some dy ->
     distinct_keys (map fst dy) = true /\
     forall j n d c,
       h0 !! a = Some (OConfiguration n d c) ->
       forallb (fun kv : string * value => wrapped_above 0 j h0 kv.2) d = true ->
       forallb (fun kv : string * value => wrapped_above n0 j h kv.2) dy = true).

Definition dict_kept (m m' : memo) : Prop :=
  forall a dy, assoc_get (dict_copies m) a = Some dy -> assoc_get (dict_copies m') a = Some dy.

(** What [deepcopy] with fuel [g] does on a wrapped value. *)
Definition deepcopy_spec (g : nat) : Prop :=
  forall n0 h0 x m s k,
    n0 <= length (heap s) -> h0 `prefix_of` heap s -> k <= g ->
    wrapped_above 0 k h0 x = true -> memo_ok n0 h0 (heap s) m ->
    exists s' y m',
      deepcopy g x m s = (s', Ok (y, m')) /\ grows s s' /\
      memo_ok n0 h0 (heap s') m' /\ copy_wrapped n0 h0 (heap s') x y /\
      dict_kept m m' /\ (is_atom x = true -> y = x).

(** [o'] has the class of [o] and its name followed by "(copy)", and
    logs through the logger of that name. *)
Definition is_copy_of (o o' : obj) : Prop :=
  class_of o' = class_of o /\
  obj_name o' = obj_name o +:+ "(copy)" /\
  obj_logger o' = getLogger (obj_name o +:+ "(copy)").

(** [touches a s s']: from [s] to [s'] no object other than the one at
    [a] changed; objects may have been created. *)
Definition touches (a : addr) (s s' : state) : Prop :=
  length (heap s) <= length (heap s') /\
  forall b, b <> a -> b < length (heap s) -> heap s' !! b = heap s !! b.

(** ** Wrapping in a store *)

(** [v] is not a reference to an object the store does not hold. *)
Definition in_store (h : list obj) (v : value) : bool :=
  match v with
  | VRef a => bool_decide (a < length h)
  | _ => true
  end.

(** [w], in the store [h], is what the [isinstance] tests of the wrapping
    function make of [v], looked at in the store [h0]: a logged container
    of the class of [v], created after [h0] and called [name], or [v]
    itself. *)
Definition wrapped_as (h0 h : list obj) (name : string) (v w : value) : Prop :=
  match as_list_or_tuple h0 v, as_set h0 v, as_dict v with
  | Some _, _, _ =>
      exists a l, w = VRef a /\ length h0 <= a /\ h !! a = Some (OList name l (getLogger name))
  | None, Some _, _ =>
      exists a l, w = VRef a /\ length h0 <= a /\ h !! a = Some (OSet name l (getLogger name))
  | None, None, Some _ =>
      exists a d, w = VRef a /\ length h0 <= a /\
                  h !! a = Some (OConfiguration name d (getLogger name))
  | None, None, None => w = v
  end.

(** ** The wrapping invariant, call by call *)

(** Every reference inside [v], at any depth, is to an address below
    [n]. *)
Fixpoint refs_below (n : nat) (v : value) : bool :=
  match v with
  | VAtom _ => true
  | VList l | VTuple l | VSet l => forallb (refs_below n) l
  | VDict d => forallb (fun kv : string * value => refs_below n kv.2) d
  | VRef a => bool_decide (a < n)
  end.

(** The values a call is given. *)
Definition call_arguments (c : mutating_call) : list value :=
  match c with
  | SetItem _ v | ListAppend v | ListRemove v | ListPop v | ListExtend v
  | SetAdd v | SetUpdate v | SetDiscard v | SetRemove v | SetPop v
  | SetDifferenceUpdate v | SetSymmetricDifferenceUpdate v => [v]
  | ListInsert index v => [index; v]
  | DelItem _ | ListClear | SetClear => []
  end.

(** The methods that pass what they insert through the wrapping
    function, or insert nothing: all but [LoggedSet.add], [update] and
    [symmetric_difference_update]. *)
Definition wraps_argument (c : mutating_call) : bool :=
  match c with
  | SetAdd _ | SetUpdate _ | SetSymmetricDifferenceUpdate _ => false
  | _ => true
  end.

(** [wrapping_invariant] as a proposition. *)
Definition wrapped_store (h : list obj) : Prop :=
  Forall (fun o => Forall (fun x => stored_wrapped h x = true) (elements o)) h.

(** A wrapped store of at least [n] objects. *)
Definition store_ok (n : nat) (h : list obj) : Prop :=
  wrapped_store h /\ n <= length h.

(** [hoare P m Q E]: run in a store that satisfies [P], [m] leaves a
    store that satisfies [Q] with its result when it returns and [E] when
    it raises. *)
Definition hoare {A} (P : list obj -> Prop) (m : M A)
    (Q : A -> list obj -> Prop) (E : list obj -> Prop) : Prop :=
  forall s, P (heap s) ->
    match m s with
    | (s', Ok a) => Q a (heap s')
    | (s', Raise _) => E (heap s')
    end.

(** ** Flattening with sets as lists *)



(** A computation whose result and whose effect on the store do not
    depend on what was logged before. *)
Definition trace_blind {A} (m : M A) : Prop :=
  forall s s', heap s = heap s' -> heap (m s).1 = heap (m s').1 /\ (m s).2 = (m s').2.

(** * Properties *)

(** ** Induction on values *)

Section ValueInduction.
Variable P : value -> Prop.
Hypothesis Hatom : forall x, P (VAtom x).
Hypothesis Hlist : forall l, Forall P l -> P (VList l).
Hypothesis Htuple : forall l, Forall P l -> P (VTuple l).
Hypothesis Hset : forall l, Forall P l -> P (VSet l).
Hypothesis Hdict : forall d, Forall (fun kv : string * value => P kv.2) d -> P (VDict d).
Hypothesis Href : forall a, P (VRef a).

Lemma value_induction : forall v, P v.
Proof using All.
  fix IH 1. intros [x|l|l|l|d|a].
  - apply Hatom.
  - apply Hlist. induction l as [|x l IHl]; constructor; [apply IH | exact IHl].
  - apply Htuple. induction l as [|x l IHl]; constructor; [apply IH | exact IHl].
  - apply Hset. induction l as [|x l IHl]; constructor; [apply IH | exact IHl].
  - apply Hdict. induction d as [|[k x] d IHd]; constructor; [apply IH | exact IHd].
  - apply Href.
Qed.
End ValueInduction.

(** ** Running computations *)

Lemma bind_ok {A B} (m : M A) (k : A -> M B) s s' a :
  m s = (s', Ok a) -> bind m k s = k a s'.
Proof. intros H. unfold bind. now rewrite H. Qed.

Lemma bind_raise {A B} (m : M A) (k : A -> M B) s s' e :
  m s = (s', Raise e) -> bind m k s = (s', Raise e).
Proof. intros H. unfold bind. now rewrite H. Qed.

Lemma self_config_ok s self n d c :
  heap s !! self = Some (OConfiguration n d c) -> self_config self s = (s, Ok (n, d, c)).
Proof. intros H. unfold self_config. now rewrite H. Qed.

Lemma self_list_ok s self n l c :
  heap s !! self = Some (OList n l c) -> self_list self s = (s, Ok (n, l, c)).
Proof. intros H. unfold self_list. now rewrite H. Qed.

Lemma self_set_ok s self n l c :
  heap s !! self = Some (OSet n l c) -> self_set self s = (s, Ok (n, l, c)).
Proof. intros H. unfold self_set. now rewrite H. Qed.

(** ** LoggedSet.pop *)

(** C5. [LoggedSet.pop] is declared with a parameter [value] and hands it
    to [set.pop], which takes none: a call with no argument is rejected
    before the body runs, and every call that reaches the body raises
    [TypeError] after logging.  No call returns an element and none
    changes the store, whether the set is empty or not. *)
Theorem LoggedSet_pop_never_pops (self : addr) (args : list value) (s : state) :
  heap (LoggedSet.call_pop self args s).1 = heap s /\
  (forall x, (LoggedSet.call_pop self args s).2 <> Ok x) /\
  (LoggedSet.call_pop self args s).2 <> Raise KeyError.
Proof.
  unfold LoggedSet.call_pop.
  destruct args as [|v [|w args]]; cbn; try (repeat split; congruence).
  unfold LoggedSet.pop, bind, self_set.
  destruct (heap s !! self) as [[n d c|n l c|n l c]|]; cbn; repeat split; congruence.
Qed.

(** On the set [{1}], [pop()] raises [TypeError] and leaves [1] in. *)
Example LoggedSet_pop_example :
  let s := State [OSet "s" [VAtom (AInt 1)] "s"] [] in
  LoggedSet.call_pop 0 [] s
  = (s, Raise (TypeError "pop() missing 1 required positional argument: 'value'")).
Proof. reflexivity. Qed.

(** ** What a computation adds to the trace and to the store *)

#[local] Instance quiet_preorder : PreOrder quiet.
Proof.
  split.
  - intros s. exists []. split; [now rewrite app_nil_r | constructor].
  - intros s1 s2 s3 (r1 & E1 & F1) (r2 & E2 & F2). exists (r1 ++ r2). split.
    + now rewrite E2, E1, app_assoc.
    + now apply Forall_app.
Qed.

#[local] Instance grows_preorder : PreOrder grows.
Proof.
  split.
  - intros s. now split.
  - intros s1 s2 s3 [P1 E1] [P2 E2]. split; [now transitivity (heap s2) | congruence].
Qed.

Lemma grows_quiet s s' : grows s s' -> quiet s s'.
Proof. intros [_ E]. exists []. split; [now rewrite app_nil_r | constructor]. Qed.

Section Steps.
Context (R : state -> state -> Prop) `{!PreOrder R}.

Lemma steps_ret {A} (a : A) : steps R (ret a).
Proof. intros s. reflexivity. Qed.

Lemma steps_raise {A} e : steps R (@raise A e).
Proof. intros s. reflexivity. Qed.

Lemma steps_lift {A} (o : outcome A) : steps R (lift o).
Proof. intros s. reflexivity. Qed.

Lemma steps_get_heap : steps R get_heap.
Proof. intros s. reflexivity. Qed.

Lemma steps_self_config self : steps R (self_config self).
Proof. intros s. unfold self_config. destruct (heap s !! self) as [[]|]; reflexivity. Qed.

Lemma steps_self_list self : steps R (self_list self).
Proof. intros s. unfold self_list. destruct (heap s !! self) as [[]|]; reflexivity. Qed.

Lemma steps_self_set self : steps R (self_set self).
Proof. intros s. unfold self_set. destruct (heap s !! self) as [[]|]; reflexivity. Qed.

Lemma steps_bind {A B} (m : M A) (k : A -> M B) :
  steps R m -> (forall a, steps R (k a)) -> steps R (bind m k).
Proof.
  intros Hm Hk s. unfold bind. specialize (Hm s).
  destruct (m s) as [s1 [a|e]]; cbn in *; [|assumption].
  etransitivity; [eassumption | apply Hk].
Qed.

Lemma steps_for_each {A B} (f : B -> A -> M B) l :
  (forall acc x, steps R (f acc x)) -> forall acc, steps R (for_each f acc l).
Proof.
  intros Hf. induction l as [|x l IH]; intros acc; cbn.
  - apply steps_ret.
  - apply steps_bind; [apply Hf | intros; apply IH].
Qed.
End Steps.

Lemma allocates_alloc o : steps grows (alloc o).
Proof. intros s. split; [now apply prefix_app_r | reflexivity]. Qed.

Lemma silent_alloc o : steps quiet (alloc o).
Proof. intros s. apply grows_quiet, allocates_alloc. Qed.

Lemma silent_store a o : steps quiet (store a o).
Proof. intros s. exists [Mutated a]. split; [reflexivity | now repeat constructor]. Qed.

Create HintDb steps.
#[local] Hint Resolve steps_ret steps_raise steps_lift steps_get_heap steps_self_config
  steps_self_list steps_self_set allocates_alloc silent_alloc silent_store : steps.

Ltac step :=
  first [ apply steps_bind; [typeclasses eauto| |intros]
        | apply steps_for_each; [typeclasses eauto|intros]
        | solve [auto with steps typeclass_instances]
        | match goal with
          | |- steps _ (match ?x with _ => _ end) => destruct x
          | |- steps _ (if ?b then _ else _) => destruct b
          end ].

Ltac stepping := unfold silent, allocates; repeat step.

Section Wrap.
Context (R : state -> state -> Prop) `{!PreOrder R}.
Hypothesis R_alloc : forall o, steps R (alloc o).

Lemma steps_wrap fuel : forall n v, steps R (wrap_logged_config_value fuel n v).
Proof using R_alloc PreOrder0.
  induction fuel as [|fuel IH]; intros n v; cbn; [apply steps_raise; assumption|].
  intros s.
  destruct (as_list_or_tuple (heap s) v); [|destruct (as_set (heap s) v); [|destruct (as_dict v)]].
  - revert s. change (steps R (LoggedList_new (wrap_logged_config_value fuel) n l)).
    unfold LoggedList_new. stepping.
  - revert s. change (steps R (LoggedSet_new (wrap_logged_config_value fuel) n l)).
    unfold LoggedSet_new. stepping.
  - revert s. change (steps R (LoggedConfiguration_new (wrap_logged_config_value fuel) n l)).
    unfold LoggedConfiguration_new. stepping.
  - reflexivity.
Qed.
End Wrap.

Lemma allocates_wrap fuel n v : steps grows (wrap_logged_config_value fuel n v).
Proof. apply steps_wrap; [typeclasses eauto | apply allocates_alloc]. Qed.

Lemma silent_wrap fuel n v : steps quiet (wrap_logged_config_value fuel n v).
Proof. intros s. apply grows_quiet, allocates_wrap. Qed.
#[local] Hint Resolve allocates_wrap silent_wrap : steps.

(** After the log record, nothing else is logged. *)
Lemma info_then_silent {A} (m : M A) ch nm c s :
  silent m ->
  exists rest, trace ((info ch nm c ;;; m) s).1 = trace s ++ Logged (LogRecord ch nm c) :: rest
               /\ Forall (fun e => is_logged e = false) rest.
Proof.
  intros Hm. unfold bind, info.
  destruct (Hm (State (heap s) (trace s ++ [Logged (LogRecord ch nm c)]))) as (rest & E & F).
  exists rest. split; [|assumption].
  cbn in E. rewrite E. now rewrite <- app_assoc.
Qed.



Lemma ignore_state {A} (m : M A) s : (ignore m s).1 = (m s).1.
Proof. unfold ignore, bind. now destruct (m s) as [s' [a|e]]. Qed.

(** What a logging method adds to the trace starts with its record and
    holds no other record. *)
Lemma call_method_trace (fuel : nat) (self : addr) (c : mutating_call) (s : state) (o : obj) :
  heap s !! self = Some o ->
  class_of o = receiver c ->
  exists rest,
    trace (call_method fuel self c s).1 = trace s ++ Logged (record_of o c) :: rest /\
    Forall (fun e => is_logged e = false) rest.
Proof.
  intros Ho Hc.
  destruct c; destruct o as [n d l|n l ch|n l ch]; try discriminate Hc; cbn -[info];
    rewrite ?ignore_state;
    match goal with
    | |- context [LoggedConfiguration.__setitem__] => unfold LoggedConfiguration.__setitem__
    | |- context [LoggedConfiguration.__delitem__] => unfold LoggedConfiguration.__delitem__
    | |- context [LoggedList.append] => unfold LoggedList.append
    | |- context [LoggedList.insert] => unfold LoggedList.insert
    | |- context [LoggedList.remove] => unfold LoggedList.remove
    | |- context [LoggedList.pop] => unfold LoggedList.pop
    | |- context [LoggedList.clear] => unfold LoggedList.clear
    | |- context [LoggedList.extend] => unfold LoggedList.extend
    | |- context [LoggedSet.add] => unfold LoggedSet.add
    | |- context [LoggedSet.update] => unfold LoggedSet.update
    | |- context [LoggedSet.discard] => unfold LoggedSet.discard
    | |- context [LoggedSet.remove] => unfold LoggedSet.remove
    | |- context [LoggedSet.pop] => unfold LoggedSet.pop
    | |- context [LoggedSet.clear] => unfold LoggedSet.clear
    | |- context [LoggedSet.difference_update] => unfold LoggedSet.difference_update
    | |- context [LoggedSet.symmetric_difference_update] =>
        unfold LoggedSet.symmetric_difference_update
    end.
  all: try (erewrite bind_ok by (apply self_config_ok; eassumption)).
  all: try (erewrite bind_ok by (apply self_list_ok; eassumption)).
  all: try (erewrite bind_ok by (apply self_set_ok; eassumption)).
  all: apply info_then_silent; stepping.
Qed.




(** ** LoggedSet.add *)

(** C2. [LoggedSet.add] hands its argument to [set.add] as it is, where
    [LoggedList.append] wraps: after adding the tuple [(1, 2)] the set
    holds the plain tuple and the wrapping invariant is broken, while the
    list holds a fresh [LoggedList]. *)
Theorem LoggedSet_add_does_not_wrap :
  let t := VTuple [VAtom (AInt 1); VAtom (AInt 2)] in
  let s := State [OSet "s" [] "s"; OList "l" [] "l"] [] in
  wrapping_invariant (heap s) = true /\
  (LoggedSet.add 0 t s).2 = Ok tt /\
  heap (LoggedSet.add 0 t s).1 = [OSet "s" [t] "s"; OList "l" [] "l"] /\
  wrapping_invariant (heap (LoggedSet.add 0 t s).1) = false /\
  heap (LoggedList.append 2 1 t s).1
  = [OSet "s" [] "s"; OList "l" [VRef 2] "l";
     OList "l[...]" [VAtom (AInt 1); VAtom (AInt 2)] "l[...]"] /\
  wrapping_invariant (heap (LoggedList.append 2 1 t s).1) = true.
Proof. repeat split. Qed.

(** [update] and [symmetric_difference_update] do not wrap either. *)
Example LoggedSet_update_does_not_wrap :
  let t := VTuple [VAtom (AInt 1); VAtom (AInt 2)] in
  let s := State [OSet "s" [] "s"] [] in
  heap (LoggedSet.update 0 (VList [t]) s).1 = [OSet "s" [t] "s"] /\
  heap (LoggedSet.symmetric_difference_update 0 (VList [t]) s).1 = [OSet "s" [t] "s"].
Proof. repeat split. Qed.

(** ** Attribute access *)

Lemma grows_lookup s s' a o : grows s s' -> heap s !! a = Some o -> heap s' !! a = Some o.
Proof. intros [P _] H. eapply prefix_lookup_Some; eassumption. Qed.

(** C10, as stated, fails: assigning to [_data] replaces the keyed store. *)
Lemma setattr_data_replaces_store :
  ~ (forall fuel self attr v s n d c,
        heap s !! self = Some (OConfiguration n d c) ->
        LoggedConfiguration.reserved attr = true ->
        exists n' c',
          heap (LoggedConfiguration.__setattr__ fuel self attr v s).1 !! self
          = Some (OConfiguration n' d c')).
Proof.
  intros H.
  destruct (H 1 0 "_data" (VDict []) (State [OConfiguration "n" [("a", VAtom (AInt 1))] "n"] [])
              "n" [("a", VAtom (AInt 1))] "n" eq_refl eq_refl) as (n' & c' & E).
  cbn in E. discriminate E.
Qed.

(** C10. Assigning to [_name], [_data] or [_logger] binds the instance
    field and sends no record; [_name] and [_logger] leave the keyed store
    as it is, and [_data] replaces it by the assigned dict, unwrapped.
    Assigning to any other attribute is the item assignment: one record,
    then the wrapped value is stored under that key. *)
Theorem setattr_reserved_or_item
    (fuel : nat) (self : addr) (attr : string) (v : value) (s : state) n d c :
  heap s !! self = Some (OConfiguration n d c) ->
  let r := LoggedConfiguration.__setattr__ fuel self attr v s in
  (LoggedConfiguration.reserved attr = true -> quiet s r.1) /\
  (forall n', attr = "_name" -> v = VAtom (AStr n') ->
     r.2 = Ok tt /\ heap r.1 = <[self := OConfiguration n' d c]> (heap s)) /\
  (forall c', attr = "_logger" -> v = VAtom (ALogger c') ->
     r.2 = Ok tt /\ heap r.1 = <[self := OConfiguration n d c']> (heap s)) /\
  (forall d', attr = "_data" -> v = VDict d' ->
     r.2 = Ok tt /\ heap r.1 = <[self := OConfiguration n d' c]> (heap s)) /\
  (attr = "_name" \/ attr = "_logger" ->
     exists n' c', heap r.1 !! self = Some (OConfiguration n' d c')) /\
  (LoggedConfiguration.reserved attr = false ->
     r = LoggedConfiguration.__setitem__ fuel self attr v s /\
     (exists rest,
         trace r.1 = trace s ++ Logged (LogRecord c n (LogSetting attr v)) :: rest /\
         Forall (fun e => is_logged e = false) rest) /\
     (forall s1 w,
         wrap_logged_config_value fuel (n +:+ "." +:+ attr) v (info c n (LogSetting attr v) s).1
         = (s1, Ok w) ->
         r.2 = Ok tt /\
         heap r.1 = <[self := OConfiguration n (dict_set d attr w) c]> (heap s1))).
Proof.
  intros Ho r. subst r. unfold LoggedConfiguration.__setattr__.
  assert (Hlen : self < length (heap s)) by (eapply lookup_lt_Some; eassumption).
  assert (Hobj : forall x, LoggedConfiguration.object_setattr self attr x s
                 = match x with
                   | VAtom (AStr n') =>
                       if String.eqb attr "_name" then store self (OConfiguration n' d c) s
                       else (s, Raise OutOfModel)
                   | VDict d' =>
                       if String.eqb attr "_data" then store self (OConfiguration n d' c) s
                       else (s, Raise OutOfModel)
                   | VAtom (ALogger c') =>
                       if String.eqb attr "_logger" then store self (OConfiguration n d c') s
                       else (s, Raise OutOfModel)
                   | _ => (s, Raise OutOfModel)
                   end).
  { intros x. unfold LoggedConfiguration.object_setattr.
    erewrite bind_ok by (apply self_config_ok; eassumption).
    destruct x as [[| | |n'|c']| | | |d'|]; cbn; try reflexivity;
      match goal with |- context [if ?b then _ else _] => destruct b end; reflexivity. }
  repeat apply conj.
  - intros Hr. rewrite Hr, Hobj.
    destruct v as [[| | |n'|c']| | | |d'|]; try reflexivity;
      match goal with |- context [if ?b then _ else _] => destruct b end;
      first [reflexivity | apply silent_store].
  - intros n' -> ->. cbn. rewrite Hobj. now cbn.
  - intros c' -> ->. cbn. rewrite Hobj. now cbn.
  - intros d' -> ->. cbn. rewrite Hobj. now cbn.
  - intros [-> | ->]; cbn; rewrite Hobj;
      destruct v as [[| | |n'|c']| | | |d'|]; cbn; eauto;
      rewrite list_lookup_insert_eq by assumption; eauto.
  - intros Hr. rewrite Hr.
    assert (Hwrap : forall s1 w,
               wrap_logged_config_value fuel (n +:+ "." +:+ attr) v
                 (info c n (LogSetting attr v) s).1 = (s1, Ok w) ->
               LoggedConfiguration.__setitem__ fuel self attr v s
               = store self (OConfiguration n (dict_set d attr w) c) s1).
    { intros s1 w Hw. unfold LoggedConfiguration.__setitem__.
      rewrite (bind_ok _ _ s s (n, d, c)) by (apply self_config_ok; assumption).
      cbv beta iota.
      rewrite (bind_ok _ _ s (info c n (LogSetting attr v) s).1 tt) by reflexivity.
      rewrite (bind_ok _ _ _ s1 w) by exact Hw.
      rewrite (bind_ok _ _ s1 s1 (n, d, c)); [reflexivity|]. apply self_config_ok.
      pose proof (allocates_wrap fuel (n +:+ "." +:+ attr) v
                    (info c n (LogSetting attr v) s).1) as G.
      rewrite Hw in G. destruct G as [G _].
      eapply prefix_lookup_Some; [exact Ho | exact G]. }
    repeat apply conj.
    + reflexivity.
    + apply (call_method_trace fuel self (SetItem attr v) s (OConfiguration n d c));
        [assumption | reflexivity].
    + intros s1 w Hw. rewrite (Hwrap _ _ Hw). now cbn.
Qed.

(** C6, as stated, fails: a key with the name of an instance field is
    shadowed by the field.  With the store [{"_name": 1}] of the
    configuration ["n"], [self._name] is ["n"] and [self["_name"]] is 1. *)
Lemma getattr_field_shadows_key :
  ~ (forall inherited self key s n d c v,
        heap s !! self = Some (OConfiguration n d c) ->
        dict_get d key = Some v ->
        exists x, (LoggedConfiguration.getattr inherited self key s).2 = Ok (LoggedConfiguration.Field x) /\
                  (LoggedConfiguration.__getitem__ self key s).2 = Ok x).
Proof.
  intros H.
  destruct (H (fun _ => false) 0 "_name"
              (State [OConfiguration "n" [("_name", VAtom (AInt 1))] "n"] [])
              "n" [("_name", VAtom (AInt 1))] "n" (VAtom (AInt 1)) eq_refl eq_refl)
    as (x & E1 & E2).
  cbn in E1, E2. congruence.
Qed.

(** C6. For a key that names neither an instance field nor an attribute
    of the class, attribute access and item access agree when the key is
    present, and when it is absent the first raises [AttributeError] and
    the second [KeyError].  The method [__getattr__] itself agrees with
    [__getitem__] on every present key. *)
Theorem getattr_getitem
    (inherited : string -> bool) (self : addr) (key : string) (s : state) n d c :
  heap s !! self = Some (OConfiguration n d c) ->
  LoggedConfiguration.reserved key = false ->
  existsb (String.eqb key) LoggedConfiguration.class_attributes = false ->
  inherited key = false ->
  (forall v, dict_get d key = Some v ->
     LoggedConfiguration.getattr inherited self key s = (s, Ok (LoggedConfiguration.Field v)) /\
     LoggedConfiguration.__getattr__ self key s = (s, Ok v) /\
     LoggedConfiguration.__getitem__ self key s = (s, Ok v)) /\
  (dict_get d key = None ->
     LoggedConfiguration.getattr inherited self key s = (s, Raise AttributeError) /\
     LoggedConfiguration.__getattr__ self key s = (s, Raise AttributeError) /\
     LoggedConfiguration.__getitem__ self key s = (s, Raise KeyError)) /\
  AttributeError <> KeyError.
Proof.
  intros Ho Hr Hc Hi.
  unfold LoggedConfiguration.reserved in Hr. cbn in Hr.
  apply orb_false_iff in Hr as [H1 Hr]. apply orb_false_iff in Hr as [H2 Hr].
  apply orb_false_iff in Hr as [H3 _].
  unfold LoggedConfiguration.getattr, LoggedConfiguration.__getattr__,
    LoggedConfiguration.__getitem__.
  rewrite !(bind_ok _ _ s s (n, d, c)) by (apply self_config_ok; assumption).
  cbv beta iota. rewrite H1, H2, H3, Hc, Hi. cbn [orb].
  repeat apply conj; [intros v Hv | intros Hv | discriminate];
    unfold bind; rewrite (self_config_ok _ _ _ _ _ Ho); cbv beta iota; rewrite Hv;
    repeat apply conj; reflexivity.
Qed.

(** ** Failing calls *)

#[local] Instance extends_preorder : PreOrder extends.
Proof.
  split.
  - intros s. unfold extends. reflexivity.
  - intros s1 s2 s3. unfold extends. intros. now transitivity (heap s2).
Qed.

Lemma extends_alloc o : steps extends (alloc o).
Proof. intros s. now apply prefix_app_r. Qed.

Lemma extends_info ch nm c : steps extends (info ch nm c).
Proof. intros s. unfold extends. reflexivity. Qed.

Lemma extends_wrap fuel n v : steps extends (wrap_logged_config_value fuel n v).
Proof. apply steps_wrap; [typeclasses eauto | apply extends_alloc]. Qed.
#[local] Hint Resolve extends_alloc extends_info extends_wrap : steps.

Lemma clean_steps {A} (m : M A) : steps extends m -> fails_clean m.
Proof. intros H s e _. apply H. Qed.

Lemma clean_store a o : fails_clean (store a o).
Proof. intros s e H. discriminate H. Qed.

Lemma clean_bind {A B} (m : M A) (k : A -> M B) :
  steps extends m -> (forall a, fails_clean (k a)) -> fails_clean (bind m k).
Proof.
  intros Hm Hk s e. unfold bind. specialize (Hm s).
  destruct (m s) as [s1 [a|e1]] eqn:E; cbn in *; intros H.
  - etransitivity; [exact Hm | eapply Hk; eassumption].
  - exact Hm.
Qed.

Ltac clean :=
  repeat first
    [ apply clean_store
    | apply clean_bind; [solve [stepping] | intros]
    | apply clean_steps; solve [stepping]
    | match goal with
      | |- fails_clean (match ?x with _ => _ end) => destruct x
      | |- fails_clean (if ?b then _ else _) => destruct b
      end ].

(** C9, as stated, fails: [update] with the list [[1, [2]]] adds 1 and
    then raises on the unhashable [[2]]. *)
Lemma update_fails_half_way :
  ~ (forall fuel self c s o e,
        heap s !! self = Some o ->
        class_of o = receiver c ->
        (call_method fuel self c s).2 = Raise e ->
        extends s (call_method fuel self c s).1).
Proof.
  intros H.
  specialize (H 1 0 (SetUpdate (VList [VAtom (AInt 1); VList [VAtom (AInt 2)]]))
                (State [OSet "s" [] "s"] []) (OSet "s" [] "s") (TypeError "unhashable type")
                eq_refl eq_refl eq_refl).
  destruct H as [k E]. cbn in E. discriminate E.
Qed.

Lemma key_eqb_hashable : forall v x, key_eqb v x = true -> hashable v = true.
Proof.
  induction v as [a|l IH|l IH|l IH|d IH|a] using value_induction;
    intros x H; try reflexivity; try (destruct x; discriminate H).
  destruct x as [|?|k|?|?|?]; try discriminate H. cbn in H |- *.
  revert k H. induction IH as [|y l Hy _ IHl]; intros k H; [reflexivity|].
  destruct k as [|z k]; [discriminate H|].
  apply andb_prop in H as [H1 H2]. cbn. rewrite (Hy _ H1). cbn. eapply IHl. exact H2.
Qed.

Lemma set_mem_hashable v l : set_mem v l = true -> hashable v = true.
Proof.
  unfold set_mem. intros H. apply existsb_exists in H as (x & _ & H).
  eapply key_eqb_hashable; eassumption.
Qed.

Lemma set_add_hashable acc x r :
  set_add acc x = Ok r -> forallb hashable acc = true -> forallb hashable r = true.
Proof.
  unfold set_add. destruct (hashable x) eqn:Hx; [|discriminate].
  intros [= <-] Hacc. destruct (set_mem x acc); [assumption|].
  rewrite forallb_app, Hacc. cbn. now rewrite Hx.
Qed.

Lemma ofold_set_add_hashable xs : forall acc r,
  ofold set_add acc xs = Ok r -> forallb hashable acc = true -> forallb hashable r = true.
Proof.
  induction xs as [|x xs IH]; intros acc r H Hacc; cbn in H.
  - now injection H as <-.
  - destruct (set_add acc x) as [acc'|e] eqn:E; [|discriminate H]. cbn in H.
    eapply IH; [exact H|]. eapply set_add_hashable; eassumption.
Qed.

(** Toggling hashable keys never fails. *)
Lemma toggle_all_ok self ys : forall s n l c,
  forallb hashable ys = true ->
  heap s !! self = Some (OSet n l c) ->
  (for_each (fun (_ : unit) x => LoggedSet.toggle_key self x) tt ys s).2 = Ok tt.
Proof.
  induction ys as [|y ys IH]; intros s n l c Hys Ho; [reflexivity|].
  cbn in Hys. apply andb_prop in Hys as [Hy Hys].
  assert (Hlen : self < length (heap s)) by (eapply lookup_lt_Some; eassumption).
  cbn [for_each]. unfold LoggedSet.toggle_key at 1.
  assert (E : exists l', (('(n, l, _) <- self_set self ;;
                if set_mem y l then LoggedSet.discard_key self y else LoggedSet.add_key self y) s)
               = (State (<[self := OSet n l' c]> (heap s)) (trace s ++ [Mutated self]), Ok tt)).
  { rewrite (bind_ok _ _ s s (n, l, c)) by (now apply self_set_ok). cbv beta iota.
    destruct (set_mem y l).
    - unfold LoggedSet.discard_key.
      rewrite (bind_ok _ _ s s (n, l, c)) by (now apply self_set_ok). cbv beta iota.
      rewrite Hy. eexists. reflexivity.
    - unfold LoggedSet.add_key.
      rewrite (bind_ok _ _ s s (n, l, c)) by (now apply self_set_ok). cbv beta iota.
      unfold set_add. rewrite Hy. eexists. reflexivity. }
  destruct E as [l' E]. erewrite bind_ok by exact E.
  eapply IH; [exact Hys|]. cbn. now apply list_lookup_insert_eq.
Qed.

Lemma py_iter_as_set h v l xs : as_set h v = Some l -> py_iter h v = Ok xs -> xs = l.
Proof.
  destruct v as [x|?|?|?|?|a]; cbn; try discriminate; try congruence.
  destruct (h !! a) as [[]|]; congruence.
Qed.

Lemma py_iter_as_dict h v d xs :
  as_dict v = Some d -> py_iter h v = Ok xs -> forallb hashable xs = true.
Proof.
  destruct v as [x|?|?|?|d'|a]; cbn; try discriminate. intros _ [= <-].
  induction d' as [|kv d' IH]; [reflexivity | exact IH].
Qed.

Lemma clean_ignore {A} (m : M A) : fails_clean m -> fails_clean (ignore m).
Proof.
  intros H s e. unfold ignore, bind. specialize (H s).
  destruct (m s) as [s1 [a|e1]]; cbn in *; [discriminate|]. intros [= <-]. now apply (H e1).
Qed.

Lemma clean_store_ret {A} a o (x : A) : fails_clean (store a o ;;; ret x).
Proof. intros s e H. discriminate H. Qed.

(** C9. A logging method other than the three that work through an
    iterable in place ([extend], [update], [difference_update]) changes no
    object when it fails: the store after the failure is the store before
    it, possibly followed by objects created while wrapping the argument. *)
Theorem failed_call_leaves_contents
    (fuel : nat) (self : addr) (c : mutating_call) (s : state) (o : obj) (e : exn) :
  heap s !! self = Some o ->
  class_of o = receiver c ->
  bulk c = false ->
  set_argument_valid (heap s) c ->
  (call_method fuel self c s).2 = Raise e ->
  extends s (call_method fuel self c s).1.
Proof.
  intros Ho Hc Hb Hv.
  destruct c; try discriminate Hb;
    [ revert s Ho Hv e; cbn [call_method];
      match goal with
      | |- forall s, _ -> _ -> forall e, (?m s).2 = _ -> _ =>
          enough (fails_clean m) as Hclean by (intros s _ _ e; apply Hclean)
      end;
      try apply clean_ignore;
      unfold LoggedConfiguration.__setitem__, LoggedConfiguration.__delitem__,
        LoggedList.append, LoggedList.insert, LoggedList.remove, LoggedList.pop,
        LoggedList.clear, LoggedSet.add, LoggedSet.add_key, LoggedSet.discard,
        LoggedSet.remove, LoggedSet.pop, LoggedSet.clear; clean;
      try apply clean_store_ret .. | ].
  destruct o as [n d ch|n l ch|n l ch]; try discriminate Hc. clear Hc Hb.
  cbn [call_method]. unfold LoggedSet.symmetric_difference_update.
  rewrite (bind_ok _ _ s s (n, l, ch)) by (now apply self_set_ok). cbv beta iota.
  rewrite (bind_ok _ _ s (info ch n (LogSymmetricDifferenceUpdate v) s).1 tt) by reflexivity.
  set (s1 := (info ch n (LogSymmetricDifferenceUpdate v) s).1).
  assert (Ho1 : heap s1 !! self = Some (OSet n l ch)) by exact Ho.
  assert (Hs1 : extends s s1) by (unfold extends; reflexivity).
  destruct (same_object v (VRef self)); [discriminate|].
  rewrite (bind_ok _ _ s1 s1 (heap s1)) by reflexivity.
  destruct (py_iter (heap s1) v) as [xs|e1] eqn:Hit;
    [rewrite (bind_ok _ _ s1 s1 xs) by reflexivity | intros _; exact Hs1].
  assert (Hloop : forall ys, forallb hashable ys = true ->
            (for_each (fun (_ : unit) x => LoggedSet.toggle_key self x) tt ys s1).2 = Raise e ->
            False).
  { intros ys Hys He. erewrite toggle_all_ok in He by eassumption. discriminate He. }
  destruct (as_dict v) as [d|] eqn:Hd.
  { rewrite (bind_ok _ _ s1 s1 xs) by reflexivity. intros He. exfalso.
    eapply Hloop; [|exact He]. eapply py_iter_as_dict; eassumption. }
  destruct (as_set (heap s1) v) as [l0|] eqn:Hs.
  { rewrite (bind_ok _ _ s1 s1 xs) by reflexivity. intros He. exfalso.
    eapply Hloop; [|exact He].
    rewrite (py_iter_as_set _ _ _ _ Hs Hit). apply Hv. exact Hs. }
  destruct (ofold set_add [] xs) as [ys|e1] eqn:Hys.
  - rewrite (bind_ok _ _ s1 s1 ys) by reflexivity. intros He. exfalso.
    eapply Hloop; [|exact He]. eapply ofold_set_add_hashable; [exact Hys | reflexivity].
  - rewrite (bind_raise _ _ s1 s1 e1) by reflexivity. intros _. exact Hs1.
Qed.

(** ** Wrapping and flattening *)

Lemma ofold_impl {A B} (f g : B -> A -> outcome B) l :
  (forall acc x r, f acc x = Ok r -> g acc x = Ok r) ->
  forall acc r, ofold f acc l = Ok r -> ofold g acc l = Ok r.
Proof.
  intros Hfg. induction l as [|x l IH]; intros acc r H; cbn in *; [assumption|].
  destruct (f acc x) as [acc'|e] eqn:E; [|discriminate H].
  rewrite (Hfg _ _ _ E). cbn in *. now apply IH.
Qed.

Lemma obind_impl {A B} (o o' : outcome A) (k : A -> outcome B) r :
  (forall a, o = Ok a -> o' = Ok a) -> obind o k = Ok r -> obind o' k = Ok r.
Proof. intros H. destruct o as [a|e]; [|discriminate]. now rewrite (H a eq_refl). Qed.

(** A flattening that succeeded succeeds with more fuel and in a larger
    store, with the same result. *)
Lemma unwrap_stable f : forall f' h h' b v p,
  f <= f' -> h `prefix_of` h' ->
  _unwrap f h b v = Ok p -> _unwrap f' h' b v = Ok p.
Proof.
  induction f as [|f IH]; intros f' h h' b v p Hf Hh H; [discriminate H|].
  destruct f' as [|f']; [lia|]. apply le_S_n in Hf.
  cbn in H |- *. destruct v as [x|l|l|l|d|a]; try assumption.
  destruct (h !! a) as [o|] eqn:Ho; [|discriminate H].
  assert (Ho' : h' !! a = Some o) by (eapply prefix_lookup_Some; eassumption).
  rewrite Ho'.
  assert (Hrec : forall x u, _unwrap f h b x = Ok u -> _unwrap f' h' b x = Ok u)
    by (intros; eapply IH; eassumption).
  destruct o as [n d c|n l c|n l c].
  - eapply obind_impl; [|exact H]. intros r. apply ofold_impl.
    intros acc x r'. apply obind_impl. apply Hrec.
  - eapply obind_impl; [|exact H]. intros r. apply ofold_impl.
    intros acc x r'. apply obind_impl. apply Hrec.
  - destruct b.
    + eapply obind_impl; [|exact H]. intros r. apply ofold_impl.
      intros acc x r'. apply obind_impl. apply Hrec.
    + eapply obind_impl; [|exact H]. intros r. apply ofold_impl.
      intros acc x r'. apply obind_impl. apply Hrec.
Qed.

Lemma flattens_prefix h h' w p : h `prefix_of` h' -> flattens h w p -> flattens h' w p.
Proof. intros Hh [f H]. exists f. eapply unwrap_stable; [reflexivity | exact Hh | exact H]. Qed.

Lemma flattens_plain h w : (forall a, w <> VRef a) -> flattens h w w.
Proof. intros H. exists 1. destruct w; try reflexivity. now destruct (H a). Qed.

(** *** Sets of atoms *)

Lemma set_add_atom acc x :
  is_atom x = true -> set_add acc x = Ok (if set_mem x acc then acc else acc ++ [x]).
Proof. destruct x; try discriminate. reflexivity. Qed.

Lemma distinct_from_snoc l : forall acc x,
  distinct_from acc (l ++ [x]) = distinct_from acc l && negb (set_mem x (acc ++ l)).
Proof.
  induction l as [|y l IH]; intros acc x; cbn.
  - now rewrite app_nil_r, andb_true_r.
  - rewrite IH, <- app_assoc. cbn. now rewrite andb_assoc.
Qed.

Lemma distinct_from_cons acc x xs :
  distinct_from acc (x :: xs) = negb (set_mem x acc) && distinct_from (acc ++ [x]) xs.
Proof. reflexivity. Qed.

Lemma set_extend_cons acc x xs :
  set_extend acc (x :: xs) = set_extend (if set_mem x acc then acc else acc ++ [x]) xs.
Proof. reflexivity. Qed.

Lemma set_extend_distinct xs : forall acc,
  distinct_from acc xs = true -> set_extend acc xs = acc ++ xs.
Proof.
  induction xs as [|x xs IH]; intros acc H.
  - cbn. now rewrite app_nil_r.
  - rewrite distinct_from_cons in H. apply andb_prop in H as [H1 H2].
    apply negb_true_iff in H1.
    rewrite set_extend_cons. rewrite H1. rewrite IH by assumption. now rewrite <- app_assoc.
Qed.

Lemma set_extend_is_distinct xs : forall acc,
  distinct_from [] acc = true -> distinct_from [] (set_extend acc xs) = true.
Proof.
  induction xs as [|x xs IH]; intros acc H; [assumption|].
  rewrite set_extend_cons. apply IH. destruct (set_mem x acc) eqn:E; [assumption|].
  rewrite distinct_from_snoc, H. cbn [app andb]. now rewrite E.
Qed.

Lemma set_extend_atoms xs : forall acc,
  forallb is_atom acc = true -> forallb is_atom xs = true ->
  forallb is_atom (set_extend acc xs) = true.
Proof.
  induction xs as [|x xs IH]; intros acc Ha Hx; [assumption|].
  cbn in Hx. apply andb_prop in Hx as [Hx Hxs]. rewrite set_extend_cons. apply IH; [|assumption].
  destruct (set_mem x acc); [assumption|]. rewrite forallb_app, Ha. cbn. now rewrite Hx.
Qed.

Lemma unwrap_atom f h b x : is_atom x = true -> _unwrap (S f) h b x = Ok x.
Proof. destruct x; try discriminate. reflexivity. Qed.

Lemma unwrap_atom_inv f h b x u : _unwrap f h b x = Ok u -> is_atom u = true -> x = u.
Proof.
  destruct f as [|f]; [discriminate|]. cbn.
  destruct x as [y|l|l|l|d|a]; try (now intros [= <-]).
  destruct (h !! a) as [[n d c|n l c|n l c]|]; try discriminate.
  - destruct (ofold _ _ _); cbn; [intros [= <-]|]; discriminate.
  - destruct (ofold _ _ _); cbn; [intros [= <-]|]; discriminate.
  - destruct b; destruct (ofold _ _ _); cbn; try discriminate; intros [= <-]; discriminate.
Qed.

(** Flattening a set of atoms inserts them one by one. *)
Lemma unwrap_set_fold f h b xs : forall acc,
  forallb is_atom xs = true ->
  ofold (fun acc x => obind (_unwrap (S f) h b x) (fun u => set_add acc u)) acc xs
  = Ok (set_extend acc xs).
Proof.
  induction xs as [|x xs IH]; intros acc H; cbn [ofold]; [reflexivity|].
  cbn in H. apply andb_prop in H as [Hx Hxs].
  rewrite unwrap_atom by assumption. cbn [obind]. rewrite set_add_atom by assumption.
  cbn [obind]. now rewrite IH.
Qed.

(** If the elements of a stored set flatten to atoms, they are atoms. *)
Lemma unwrap_set_fold_inv f h b xs : forall acc ps,
  ofold (fun acc x => obind (_unwrap f h b x) (fun u => set_add acc u)) acc xs = Ok ps ->
  forallb is_atom ps = true ->
  forallb is_atom xs = true /\ ps = set_extend acc xs /\ forallb is_atom acc = true.
Proof.
  induction xs as [|x xs IH]; intros acc ps H Hps; cbn in H.
  - injection H as <-. auto.
  - destruct (_unwrap f h b x) as [u|e] eqn:Eu; [|discriminate H]. cbn in H.
    destruct (set_add acc u) as [acc'|e] eqn:Ea; [|discriminate H]. cbn in H.
    destruct (IH _ _ H Hps) as (Hxs & -> & Hacc').
    unfold set_add in Ea. destruct (hashable u) eqn:Hu; [|discriminate Ea].
    injection Ea as <-.
    assert (Hua : is_atom u = true /\ forallb is_atom acc = true).
    { destruct (set_mem u acc) eqn:Em.
      - split; [|assumption]. unfold set_mem in Em.
        apply existsb_exists in Em as (y & Hy & Ey).
        rewrite forallb_forall in Hacc'. specialize (Hacc' y Hy).
        destruct u; try discriminate Ey; try reflexivity.
        destruct y; discriminate.
      - rewrite forallb_app in Hacc'. apply andb_prop in Hacc' as [H1 H2].
        cbn in H2. now rewrite andb_true_r in H2. }
    destruct Hua as [Hua Hacc].
    rewrite (unwrap_atom_inv _ _ _ _ _ Eu Hua) in *.
    cbn. rewrite Hua, Hxs. auto.
Qed.

Lemma wrap_atom g n x s : is_atom x = true -> wrap_logged_config_value (S g) n x s = (s, Ok x).
Proof. destruct x; try discriminate. reflexivity. Qed.

(** Building a set from atoms creates nothing on the way. *)
Lemma wrap_set_loop g n xs : forall acc s,
  forallb is_atom xs = true ->
  for_each (fun acc x => w <- wrap_logged_config_value (S g) n x ;; lift (set_add acc w)) acc xs s
  = (s, Ok (set_extend acc xs)).
Proof.
  induction xs as [|x xs IH]; intros acc s H; cbn [for_each]; [reflexivity|].
  cbn in H. apply andb_prop in H as [Hx Hxs].
  erewrite bind_ok; [apply IH; assumption|].
  erewrite bind_ok by (now apply wrap_atom).
  unfold lift. now rewrite set_add_atom.
Qed.

(** *** Dicts with distinct keys *)

Lemma dict_set_fresh acc k v :
  existsb (String.eqb k) (map fst acc) = false -> dict_set acc k v = acc ++ [(k, v)].
Proof.
  induction acc as [|[k' w] acc IH]; intros H; [reflexivity|].
  cbn in H. apply orb_false_iff in H as [H1 H2]. cbn.
  rewrite String.eqb_sym, H1. now rewrite IH.
Qed.

Lemma dict_extend_distinct d : forall acc,
  distinct_keys (map fst d) = true ->
  (forall k, In k (map fst d) -> existsb (String.eqb k) (map fst acc) = false) ->
  dict_extend acc d = acc ++ d.
Proof.
  induction d as [|[k v] d IH]; intros acc Hd Hacc.
  - cbn. now rewrite app_nil_r.
  - cbn in Hd. apply andb_prop in Hd as [H1 H2]. apply negb_true_iff in H1.
    unfold dict_extend in *. cbn [foldl fst snd].
    rewrite dict_set_fresh by (apply Hacc; now left).
    rewrite IH; [now rewrite <- app_assoc | assumption |].
    intros k' Hk'. rewrite map_app, existsb_app. cbn.
    rewrite Hacc by (now right). cbn. rewrite orb_false_r.
    destruct (String.eqb k' k) eqn:E; [|reflexivity].
    apply String.eqb_eq in E. subst k'.
    assert (existsb (String.eqb k) (map fst d) = true) as C; [|congruence].
    apply existsb_exists. exists k. split; [assumption | apply String.eqb_refl].
Qed.

Lemma dict_extend_nil d : distinct_keys (map fst d) = true -> dict_extend [] d = d.
Proof. intros H. now rewrite dict_extend_distinct. Qed.

(** Flattening a mapping flattens its values under the same keys. *)
Lemma unwrap_dict_fold (rec : value -> outcome value) dw dp :
  Forall2 (fun kw kp : string * value => kw.1 = kp.1 /\ rec kw.2 = Ok kp.2) dw dp ->
  forall acc,
    ofold (fun acc (kv : string * value) => obind (rec kv.2) (fun u => Ok (dict_set acc kv.1 u)))
          acc dw
    = Ok (dict_extend acc dp).
Proof.
  induction 1 as [|[k w] [k' p] dw dp [Hk Hr] _ IH]; intros acc; [reflexivity|].
  cbn in Hk, Hr. subst k'. cbn [ofold snd fst]. rewrite Hr. cbn [obind]. now rewrite IH.
Qed.

Lemma unwrap_list_fold (rec : value -> outcome value) ws ps :
  Forall2 (fun w p => rec w = Ok p) ws ps ->
  forall acc,
    ofold (fun acc x => obind (rec x) (fun u => Ok (acc ++ [u]))) acc ws = Ok (acc ++ ps).
Proof.
  induction 1 as [|w p ws ps Hr _ IH]; intros acc; cbn [ofold].
  - now rewrite app_nil_r.
  - rewrite Hr. cbn [obind]. rewrite IH. now rewrite <- app_assoc.
Qed.

(** One fuel serves a whole list of flattenings. *)
Lemma flattens_common_fuel h ws ps :
  Forall2 (flattens h) ws ps ->
  exists f, Forall2 (fun w p => _unwrap f h false w = Ok p) ws ps.
Proof.
  induction 1 as [|w p ws ps [f1 H1] _ [f2 IH]].
  - exists 0. constructor.
  - exists (f1 `max` f2). constructor.
    + eapply unwrap_stable; [|reflexivity|exact H1]. lia.
    + eapply Forall2_impl; [exact IH|]. cbn. intros x y Hxy.
      eapply unwrap_stable; [|reflexivity|exact Hxy]. lia.
Qed.

Lemma flattens_common_fuel_dict h (dw dp : list (string * value)) :
  Forall2 (fun kw kp : string * value => kw.1 = kp.1 /\ flattens h kw.2 kp.2) dw dp ->
  exists f, Forall2 (fun kw kp : string * value =>
                       kw.1 = kp.1 /\ _unwrap f h false kw.2 = Ok kp.2) dw dp.
Proof.
  induction 1 as [|kw kp dw dp [E [f1 H1]] _ [f2 IH]].
  - exists 0. constructor.
  - exists (f1 `max` f2). constructor.
    + split; [exact E|]. eapply unwrap_stable; [|reflexivity|exact H1]. lia.
    + eapply Forall2_impl; [exact IH|]. cbn. intros x y [Exy Hxy]. split; [exact Exy|].
      eapply unwrap_stable; [|reflexivity|exact Hxy]. lia.
Qed.

(** *** The constructors on elements that wrap well *)

Lemma grows_prefix s s' : grows s s' -> heap s `prefix_of` heap s'.
Proof. now intros [H _]. Qed.

Lemma lookup_snoc_last {A} (l : list A) x : (l ++ [x]) !! length l = Some x.
Proof. rewrite lookup_app_r by lia. now rewrite Nat.sub_diag. Qed.

Lemma Forall2_keys (R : value -> value -> Prop) (dw dp : list (string * value)) :
  Forall2 (fun kw kp : string * value => kw.1 = kp.1 /\ R kw.2 kp.2) dw dp ->
  map fst dw = map fst dp.
Proof. induction 1 as [|? ? ? ? [E _] _ IH]; [reflexivity|]. cbn. now rewrite E, IH. Qed.

Lemma depth_le_max (l : list value) x : In x l -> depth x <= list_max (map depth l).
Proof.
  induction l as [|y l IH]; intros H; [destruct H|].
  change (list_max (map depth (y :: l))) with (Nat.max (depth y) (list_max (map depth l))).
  destruct H as [->|H]; [lia | specialize (IH H); lia].
Qed.

Lemma depth_le_max_dict (d : list (string * value)) kv :
  In kv d -> depth kv.2 <= list_max (map (fun kv : string * value => depth kv.2) d).
Proof.
  induction d as [|y d IH]; intros H; [destruct H|].
  change (list_max (map (fun kv : string * value => depth kv.2) (y :: d)))
    with (Nat.max (depth y.2) (list_max (map (fun kv : string * value => depth kv.2) d))).
  destruct H as [->|H]; [lia | specialize (IH H); lia].
Qed.

Lemma Forall2_map_r_In {A B} (R : A -> B -> Prop) (f : A -> B) (l : list A) :
  (forall x, In x l -> R x (f x)) -> Forall2 R l (map f l).
Proof.
  induction l as [|x l IH]; intros H; cbn; constructor.
  - apply H. now left.
  - apply IH. intros y Hy. apply H. now right.
Qed.

Section Flattening.
(** The lemmas hold for any reading [F] of "flattens to" that is kept
    by creating objects and follows the structure of the store. *)
Variable F : list obj -> value -> value -> Prop.
Hypothesis F_prefix : forall h h' w p, h `prefix_of` h' -> F h w p -> F h' w p.
Hypothesis F_atom : forall h x, F h (VAtom x) (VAtom x).
Hypothesis F_list : forall h a n ws c ps,
    h !! a = Some (OList n ws c) -> Forall2 (F h) ws ps -> F h (VRef a) (VList ps).
Hypothesis F_set : forall h a n xs c,
    h !! a = Some (OSet n xs c) -> forallb is_atom xs = true ->
    distinct_from [] xs = true -> F h (VRef a) (VSet xs).
Hypothesis F_dict : forall h a n dw c dp,
    h !! a = Some (OConfiguration n dw c) ->
    Forall2 (fun kw kp : string * value => kw.1 = kp.1 /\ F h kw.2 kp.2) dw dp ->
    distinct_keys (map fst dp) = true -> F h (VRef a) (VDict dp).

Lemma wrap_list_loop g h0 n xs ps :
  Forall2 (wrap_ok F g h0) xs ps ->
  forall acc s, h0 `prefix_of` heap s ->
    exists s' ws,
      for_each (fun acc x => w <- wrap_logged_config_value g n x ;; ret (acc ++ [w])) acc xs s
      = (s', Ok (acc ++ ws)) /\
      grows s s' /\ Forall2 (F (heap s')) ws ps.
Proof using F_prefix.
  induction 1 as [|x p xs ps Hx _ IH]; intros acc s Hs.
  - exists s, []. rewrite app_nil_r. repeat split; [reflexivity | constructor].
  - destruct (Hx n s Hs) as (s1 & w & Hw & G1 & F1 & _).
    destruct (IH (acc ++ [w]) s1) as (s' & ws & Hl & G2 & F2).
    { etransitivity; [exact Hs | now apply grows_prefix]. }
    exists s', (w :: ws). repeat split.
    + cbn [for_each]. erewrite bind_ok; [|erewrite bind_ok by exact Hw; reflexivity].
      rewrite Hl. now rewrite <- app_assoc.
    + now transitivity (heap s1); [apply grows_prefix | apply grows_prefix].
    + destruct G1 as [_ E1], G2 as [_ E2]. congruence.
    + constructor; [|assumption]. eapply F_prefix; [|exact F1]. now apply grows_prefix.
Qed.

Lemma wrap_dict_loop g h0 n (d dp : list (string * value)) :
  Forall2 (fun kv kp : string * value => kv.1 = kp.1 /\ wrap_ok F g h0 kv.2 kp.2) d dp ->
  forall acc s, h0 `prefix_of` heap s ->
    exists s' dw,
      for_each (fun acc (kv : string * value) =>
                  w <- wrap_logged_config_value g (n +:+ "." +:+ kv.1) kv.2 ;;
                  ret (dict_set acc kv.1 w)) acc d s
      = (s', Ok (dict_extend acc dw)) /\
      grows s s' /\
      Forall2 (fun kw kp : string * value => kw.1 = kp.1 /\ F (heap s') kw.2 kp.2) dw dp.
Proof using F_prefix.
  induction 1 as [|[k x] [k' p] d dp [Hk Hx] _ IH]; intros acc s Hs.
  - exists s, []. repeat split; [reflexivity | constructor].
  - cbn in Hk, Hx. subst k'.
    destruct (Hx (n +:+ "." +:+ k) s Hs) as (s1 & w & Hw & G1 & F1 & _).
    destruct (IH (dict_set acc k w) s1) as (s' & dw & Hl & G2 & F2).
    { etransitivity; [exact Hs | now apply grows_prefix]. }
    exists s', ((k, w) :: dw). repeat split.
    + cbn [for_each fst snd]. erewrite bind_ok; [|erewrite bind_ok by exact Hw; reflexivity].
      exact Hl.
    + now transitivity (heap s1); [apply grows_prefix | apply grows_prefix].
    + destruct G1 as [_ E1], G2 as [_ E2]. congruence.
    + constructor; [|assumption]. split; [reflexivity|]. cbn.
      eapply F_prefix; [|exact F1]. now apply grows_prefix.
Qed.

Lemma LoggedList_new_ok g h0 n xs ps :
  Forall2 (wrap_ok F g h0) xs ps ->
  forall s, h0 `prefix_of` heap s ->
    exists s' a ws,
      LoggedList_new (wrap_logged_config_value g) n xs s = (s', Ok (VRef a)) /\
      grows s s' /\ length (heap s) <= a /\
      heap s' !! a = Some (OList n ws (getLogger n)) /\
      Forall2 (F (heap s')) ws ps /\
      F (heap s') (VRef a) (VList ps).
Proof using F_prefix F_list.
  intros Hxs s Hs.
  destruct (wrap_list_loop g h0 (n +:+ "[...]") xs ps Hxs [] s Hs) as (s1 & ws & Hl & G & F1).
  cbn [app] in Hl.
  set (o := OList n ws (getLogger n)).
  assert (P : heap s1 `prefix_of` heap s1 ++ [o]) by now apply prefix_app_r.
  assert (F' : Forall2 (F (heap s1 ++ [o])) ws ps).
  { eapply Forall2_impl; [exact F1|]. intros w p. now apply F_prefix. }
  exists (State (heap s1 ++ [o]) (trace s1)), (length (heap s1)), ws. repeat split.
  - unfold LoggedList_new. erewrite bind_ok by exact Hl. reflexivity.
  - cbn. transitivity (heap s1); [now apply grows_prefix | exact P].
  - cbn. now destruct G.
  - apply prefix_length. now apply grows_prefix.
  - cbn. apply lookup_snoc_last.
  - exact F'.
  - cbn [heap]. eapply F_list; [apply lookup_snoc_last | exact F'].
Qed.

Lemma LoggedSet_new_atoms g n xs s :
  forallb is_atom xs = true ->
  exists s' a,
    LoggedSet_new (wrap_logged_config_value (S g)) n xs s = (s', Ok (VRef a)) /\
    grows s s' /\ length (heap s) <= a /\
    heap s' !! a = Some (OSet n (set_extend [] xs) (getLogger n)) /\
    F (heap s') (VRef a) (VSet (set_extend [] xs)).
Proof using F_set.
  intros Hxs.
  set (o := OSet n (set_extend [] xs) (getLogger n)).
  exists (State (heap s ++ [o]) (trace s)), (length (heap s)). repeat split.
  - unfold LoggedSet_new. erewrite bind_ok by (now apply wrap_set_loop). reflexivity.
  - cbn. now apply prefix_app_r.
  - reflexivity.
  - cbn. apply lookup_snoc_last.
  - cbn [heap]. eapply F_set; [apply lookup_snoc_last | |].
    + now apply set_extend_atoms.
    + now apply set_extend_is_distinct.
Qed.

Lemma LoggedConfiguration_new_ok g h0 n (d dp : list (string * value)) :
  Forall2 (fun kv kp : string * value => kv.1 = kp.1 /\ wrap_ok F g h0 kv.2 kp.2) d dp ->
  distinct_keys (map fst d) = true ->
  forall s, h0 `prefix_of` heap s ->
    exists s' a dw,
      LoggedConfiguration_new (wrap_logged_config_value g) n d s = (s', Ok (VRef a)) /\
      grows s s' /\ length (heap s) <= a /\
      heap s' !! a = Some (OConfiguration n dw (getLogger n)) /\
      Forall2 (fun kw kp : string * value => kw.1 = kp.1 /\ F (heap s') kw.2 kp.2) dw dp /\
      F (heap s') (VRef a) (VDict dp).
Proof using F_prefix F_dict.
  intros Hd Hk s Hs.
  destruct (wrap_dict_loop g h0 n d dp Hd [] s Hs) as (s1 & dw & Hl & G & F1).
  assert (Kp : map fst d = map fst dp) by (eapply Forall2_keys; exact Hd).
  assert (Kw : map fst dw = map fst dp) by (eapply Forall2_keys; exact F1).
  rewrite dict_extend_nil in Hl by (now rewrite Kw, <- Kp).
  set (o := OConfiguration n dw (getLogger n)).
  assert (P : heap s1 `prefix_of` heap s1 ++ [o]) by now apply prefix_app_r.
  assert (F' : Forall2 (fun kw kp : string * value =>
                          kw.1 = kp.1 /\ F (heap s1 ++ [o]) kw.2 kp.2) dw dp).
  { eapply Forall2_impl; [exact F1|]. intros w p [E H]. split; [exact E|].
    eapply F_prefix; eassumption. }
  exists (State (heap s1 ++ [o]) (trace s1)), (length (heap s1)), dw. repeat split.
  - unfold LoggedConfiguration_new. erewrite bind_ok by exact Hl. reflexivity.
  - cbn. transitivity (heap s1); [now apply grows_prefix | exact P].
  - cbn. now destruct G.
  - apply prefix_length. now apply grows_prefix.
  - cbn. apply lookup_snoc_last.
  - exact F'.
  - cbn [heap]. eapply F_dict; [apply lookup_snoc_last | exact F' | now rewrite <- Kp].
Qed.

(** Python data in which sets hold atoms wraps, given fuel beyond its
    depth, and what comes out flattens to the data with tuples turned
    into lists. *)
Lemma wrap_plain : forall v,
  python_value v = true -> sets_atomic v = true ->
  forall g h0, depth v < g -> wrap_ok F g h0 v (detuple v).
Proof using All.
  induction v as [x|l IH|l IH|l IH|d IH|a] using value_induction;
    intros Hp Ha g h0 Hg; try discriminate Hp;
    (destruct g as [|g]; [lia|]); cbn [depth] in Hg.
  - intros n s _. exists s, (VAtom x). repeat split; try reflexivity. apply F_atom.
  - intros n s Hs.
    assert (Hl : Forall2 (wrap_ok F g h0) l (map detuple l)).
    { apply Forall2_map_r_In. intros x Hx. rewrite Forall_forall in IH.
      cbn in Hp, Ha. rewrite forallb_forall in Hp, Ha.
      apply IH; auto; [now apply list_elem_of_In|]. pose proof (depth_le_max l x Hx). lia. }
    destruct (LoggedList_new_ok g h0 n l _ Hl s Hs) as (s' & a & ws & E & G & _ & _ & _ & F1).
    exists s', (VRef a). repeat split; try apply G; [exact E | exact F1 | discriminate].
  - intros n s Hs.
    assert (Hl : Forall2 (wrap_ok F g h0) l (map detuple l)).
    { apply Forall2_map_r_In. intros x Hx. rewrite Forall_forall in IH.
      cbn in Hp, Ha. rewrite forallb_forall in Hp, Ha.
      apply IH; auto; [now apply list_elem_of_In|]. pose proof (depth_le_max l x Hx). lia. }
    destruct (LoggedList_new_ok g h0 n l _ Hl s Hs) as (s' & a & ws & E & G & _ & _ & _ & F1).
    exists s', (VRef a). repeat split; try apply G; [exact E | exact F1 | discriminate].
  - intros n s Hs. destruct g as [|g]; [lia|].
    cbn in Hp, Ha. apply andb_prop in Hp as [_ Hd].
    destruct (LoggedSet_new_atoms g n l s Ha) as (s' & a & E & G & _ & _ & F1).
    rewrite set_extend_distinct in F1 by assumption.
    exists s', (VRef a). repeat split; try apply G; [exact E | exact F1 | discriminate].
  - intros n s Hs.
    cbn in Hp, Ha. apply andb_prop in Hp as [Hp Hk].
    assert (Hl : Forall2 (fun kv kp : string * value =>
                            kv.1 = kp.1 /\ wrap_ok F g h0 kv.2 kp.2)
                         d (map (fun kv : string * value => (kv.1, detuple kv.2)) d)).
    { apply Forall2_map_r_In. intros x Hx. split; [reflexivity|]. rewrite Forall_forall in IH.
      rewrite forallb_forall in Hp, Ha.
      apply IH; auto; [now apply list_elem_of_In|].
      pose proof (depth_le_max_dict d x Hx). cbn. lia. }
    destruct (LoggedConfiguration_new_ok g h0 n d _ Hl Hk s Hs)
      as (s' & a & dw & E & G & _ & _ & _ & F1).
    exists s', (VRef a). repeat split; try apply G; [exact E | exact F1 | discriminate].
Qed.
End Flattening.

(** *** The two readings of "flattens to" *)

Lemma unwrap_ref_set f h a n l c :
  h !! a = Some (OSet n l c) ->
  _unwrap (S f) h false (VRef a)
  = obind (ofold (fun acc x => obind (_unwrap f h false x) (fun u => set_add acc u)) [] l)
          (fun r => Ok (VSet r)).
Proof. intros H. cbn. now rewrite H. Qed.

Lemma unwrap_ref_list f h a n l c :
  h !! a = Some (OList n l c) ->
  _unwrap (S f) h false (VRef a)
  = obind (ofold (fun acc x => obind (_unwrap f h false x) (fun u => Ok (acc ++ [u]))) [] l)
          (fun r => Ok (VList r)).
Proof. intros H. cbn. now rewrite H. Qed.

Lemma unwrap_ref_config f h a n d c :
  h !! a = Some (OConfiguration n d c) ->
  _unwrap (S f) h false (VRef a)
  = obind (ofold (fun acc (kv : string * value) =>
                    obind (_unwrap f h false kv.2) (fun u => Ok (dict_set acc kv.1 u))) [] d)
          (fun r => Ok (VDict r)).
Proof. intros H. cbn. now rewrite H. Qed.

Lemma flattens_list h a n ws c ps :
  h !! a = Some (OList n ws c) -> Forall2 (flattens h) ws ps -> flattens h (VRef a) (VList ps).
Proof.
  intros Ho Hf. destruct (flattens_common_fuel _ _ _ Hf) as [f Hf'].
  exists (S f). rewrite (unwrap_ref_list _ _ _ _ _ _ Ho).
  now rewrite (unwrap_list_fold _ _ _ Hf').
Qed.

Lemma flattens_set h a n xs c :
  h !! a = Some (OSet n xs c) -> forallb is_atom xs = true ->
  distinct_from [] xs = true -> flattens h (VRef a) (VSet xs).
Proof.
  intros Ho Ha Hd. exists 2. rewrite (unwrap_ref_set _ _ _ _ _ _ Ho).
  rewrite unwrap_set_fold by assumption. cbn [obind].
  now rewrite set_extend_distinct.
Qed.

Lemma flattens_dict h a n dw c dp :
  h !! a = Some (OConfiguration n dw c) ->
  Forall2 (fun kw kp : string * value => kw.1 = kp.1 /\ flattens h kw.2 kp.2) dw dp ->
  distinct_keys (map fst dp) = true -> flattens h (VRef a) (VDict dp).
Proof.
  intros Ho Hf Hk. destruct (flattens_common_fuel_dict _ _ _ Hf) as [f Hf'].
  exists (S f). rewrite (unwrap_ref_config _ _ _ _ _ _ Ho).
  rewrite (unwrap_dict_fold _ _ _ Hf'). cbn [obind].
  now rewrite dict_extend_nil.
Qed.

Lemma flattens_atom h x : flattens h (VAtom x) (VAtom x).
Proof. now exists 1. Qed.

Lemma within_prefix h h' w p :
  h `prefix_of` h' -> flattens_within_depth h w p -> flattens_within_depth h' w p.
Proof. intros Hh H f Hf. eapply unwrap_stable; [reflexivity | exact Hh | now apply H]. Qed.

Lemma within_atom h x : flattens_within_depth h (VAtom x) (VAtom x).
Proof. intros [|f] Hf; [cbn in Hf; lia | reflexivity]. Qed.

Lemma within_list h a n ws c ps :
  h !! a = Some (OList n ws c) -> Forall2 (flattens_within_depth h) ws ps ->
  flattens_within_depth h (VRef a) (VList ps).
Proof.
  intros Ho Hf [|f] Hd; [lia|]. cbn [depth] in Hd.
  rewrite (unwrap_ref_list _ _ _ _ _ _ Ho).
  rewrite (unwrap_list_fold _ ws ps); [reflexivity|].
  assert (Hin : forall p, In p ps -> depth p < f).
  { intros p Hp. pose proof (depth_le_max ps p Hp). lia. }
  clear Hd Ho. induction Hf as [|w p ws ps Hw _ IH]; constructor.
  - apply Hw, Hin. now left.
  - apply IH. intros q Hq. apply Hin. now right.
Qed.

Lemma within_set h a n xs c :
  h !! a = Some (OSet n xs c) -> forallb is_atom xs = true ->
  distinct_from [] xs = true -> flattens_within_depth h (VRef a) (VSet xs).
Proof.
  intros Ho Ha Hd [|[|f]] Hf; cbn [depth] in Hf; try lia.
  rewrite (unwrap_ref_set _ _ _ _ _ _ Ho).
  rewrite unwrap_set_fold by assumption. cbn [obind].
  now rewrite set_extend_distinct.
Qed.

Lemma within_dict h a n dw c dp :
  h !! a = Some (OConfiguration n dw c) ->
  Forall2 (fun kw kp : string * value => kw.1 = kp.1 /\ flattens_within_depth h kw.2 kp.2) dw dp ->
  distinct_keys (map fst dp) = true -> flattens_within_depth h (VRef a) (VDict dp).
Proof.
  intros Ho Hf Hk [|f] Hd; [lia|]. cbn [depth] in Hd.
  rewrite (unwrap_ref_config _ _ _ _ _ _ Ho).
  rewrite (unwrap_dict_fold _ dw dp).
  - cbn [obind]. now rewrite dict_extend_nil.
  - assert (Hin : forall kp, In kp dp -> depth kp.2 < f).
    { intros kp Hp. pose proof (depth_le_max_dict dp kp Hp). lia. }
    clear Hd Ho Hk. induction Hf as [|w p ws ps [E Hw] _ IH]; constructor.
    + split; [exact E|]. apply Hw, Hin. now left.
    + apply IH. intros q Hq. apply Hin. now right.
Qed.

(** Wrapping plain data, for each reading. *)
Lemma wrap_plain_flattens v g h0 :
  python_value v = true -> sets_atomic v = true -> depth v < g ->
  wrap_ok flattens g h0 v (detuple v).
Proof.
  intros.
  now apply (wrap_plain flattens flattens_prefix flattens_atom flattens_list flattens_set
               flattens_dict).
Qed.

Lemma wrap_plain_within v g h0 :
  python_value v = true -> sets_atomic v = true -> depth v < g ->
  wrap_ok flattens_within_depth g h0 v (detuple v).
Proof.
  intros.
  now apply (wrap_plain flattens_within_depth within_prefix within_atom within_list within_set
               within_dict).
Qed.

(** *** What the constructors return *)

Lemma alloc_after {A} (m : M A) (k : A -> obj) s s' w :
  steps extends m ->
  (x <- m ;; alloc (k x)) s = (s', Ok w) ->
  exists a x, w = VRef a /\ length (heap s) <= a /\ heap s' !! a = Some (k x) /\
              extends s s' /\ length (heap s') = S a.
Proof.
  intros Hm. unfold bind. specialize (Hm s).
  destruct (m s) as [s1 [x|e]]; [|discriminate]. cbn in Hm.
  unfold alloc. intros [= <- <-]. exists (length (heap s1)), x. cbn. repeat split.
  - now apply prefix_length.
  - apply lookup_snoc_last.
  - unfold extends. cbn. transitivity (heap s1); [exact Hm | now apply prefix_app_r].
  - rewrite length_app. cbn. lia.
Qed.

Lemma LoggedList_new_result g n xs s s' w :
  LoggedList_new (wrap_logged_config_value g) n xs s = (s', Ok w) ->
  exists a l, w = VRef a /\ length (heap s) <= a /\
              heap s' !! a = Some (OList n l (getLogger n)).
Proof.
  intros H. apply (alloc_after _ (fun l => OList n l (getLogger n))) in H.
  - destruct H as (a & l & ? & ? & ? & _). eauto.
  - stepping.
Qed.

Lemma LoggedSet_new_result g n xs s s' w :
  LoggedSet_new (wrap_logged_config_value g) n xs s = (s', Ok w) ->
  exists a l, w = VRef a /\ length (heap s) <= a /\
              heap s' !! a = Some (OSet n l (getLogger n)).
Proof.
  intros H. apply (alloc_after _ (fun l => OSet n l (getLogger n))) in H.
  - destruct H as (a & l & ? & ? & ? & _). eauto.
  - stepping.
Qed.

Lemma LoggedConfiguration_new_result g n d s s' w :
  LoggedConfiguration_new (wrap_logged_config_value g) n d s = (s', Ok w) ->
  exists a d', w = VRef a /\ length (heap s) <= a /\
               heap s' !! a = Some (OConfiguration n d' (getLogger n)).
Proof.
  intros H. apply (alloc_after _ (fun d' => OConfiguration n d' (getLogger n))) in H.
  - destruct H as (a & l & ? & ? & ? & _). eauto.
  - stepping.
Qed.

(** The class of the result follows the [isinstance] tests. *)
Lemma wrap_result fuel n v s s' w :
  wrap_logged_config_value fuel n v s = (s', Ok w) ->
  match as_list_or_tuple (heap s) v, as_set (heap s) v, as_dict v with
  | Some _, _, _ =>
      exists a l, w = VRef a /\ length (heap s) <= a /\
                  heap s' !! a = Some (OList n l (getLogger n))
  | None, Some _, _ =>
      exists a l, w = VRef a /\ length (heap s) <= a /\
                  heap s' !! a = Some (OSet n l (getLogger n))
  | None, None, Some _ =>
      exists a d, w = VRef a /\ length (heap s) <= a /\
                  heap s' !! a = Some (OConfiguration n d (getLogger n))
  | None, None, None => w = v /\ s' = s
  end.
Proof.
  destruct fuel as [|g]; [discriminate|]. cbn [wrap_logged_config_value].
  destruct (as_list_or_tuple (heap s) v); [apply LoggedList_new_result|].
  destruct (as_set (heap s) v); [apply LoggedSet_new_result|].
  destruct (as_dict v); [apply LoggedConfiguration_new_result|].
  now intros [= <- <-].
Qed.

(** *** When wrapping fails *)

Lemma forallb_false {A} (f : A -> bool) l :
  forallb f l = false -> exists x, In x l /\ f x = false.
Proof.
  induction l as [|x l IH]; [discriminate|]. cbn.
  destruct (f x) eqn:E; cbn; intros H.
  - destruct (IH H) as (y & Hy & Ey). exists y. auto.
  - exists x. auto.
Qed.

Lemma for_each_raises {A B} (f : B -> A -> M B) l x :
  In x l -> (forall acc, always_raises (f acc x)) -> forall acc, always_raises (for_each f acc l).
Proof.
  intros Hx Hf. induction l as [|y l IH]; [destruct Hx|]. intros acc s. cbn [for_each].
  unfold bind. destruct (f acc y s) as [s1 [acc'|e]] eqn:E; [|eauto].
  destruct Hx as [->|Hx].
  - destruct (Hf acc s) as (? & ? & E'). congruence.
  - now apply IH.
Qed.

Lemma bind_always_raises {A B} (m : M A) (k : A -> M B) :
  always_raises m -> always_raises (bind m k).
Proof. intros H s. destruct (H s) as (s' & e & E). unfold bind. rewrite E. eauto. Qed.

Lemma wrap_not_atomic : forall v,
  python_value v = true -> sets_atomic v = false ->
  forall g n, always_raises (wrap_logged_config_value g n v).
Proof.
  induction v as [x|l IH|l IH|l IH|d IH|a] using value_induction;
    intros Hp Ha g n; try discriminate; (destruct g as [|g]; [intros s; cbn; eauto|]);
    cbn in Hp, Ha.
  - apply forallb_false in Ha as (x & Hx & Ex). rewrite Forall_forall in IH.
    rewrite forallb_forall in Hp.
    intros s. apply bind_always_raises. eapply for_each_raises; [exact Hx|].
    intros acc. apply bind_always_raises. apply IH; auto. now apply list_elem_of_In.
  - apply forallb_false in Ha as (x & Hx & Ex). rewrite Forall_forall in IH.
    rewrite forallb_forall in Hp.
    intros s. apply bind_always_raises. eapply for_each_raises; [exact Hx|].
    intros acc. apply bind_always_raises. apply IH; auto. now apply list_elem_of_In.
  - apply forallb_false in Ha as (x & Hx & Ex).
    apply andb_prop in Hp as [Hp _]. apply andb_prop in Hp as [_ Hh].
    rewrite forallb_forall in Hh. specialize (Hh x Hx).
    intros s. apply bind_always_raises. eapply for_each_raises; [exact Hx|].
    intros acc.
    change (always_raises (w <- wrap_logged_config_value g (n +:+ "[...]") x ;;
                           lift (set_add acc w))).
    intros s1. unfold bind.
    destruct (wrap_logged_config_value g (n +:+ "[...]") x s1) as [s2 [w|e]] eqn:E; [|eauto].
    apply wrap_result in E.
    destruct x as [?|?|t|?|?|?]; try discriminate. cbn in E.
    destruct E as (a & l' & -> & _). cbn. eauto.
  - apply andb_prop in Hp as [Hp _].
    apply forallb_false in Ha as (x & Hx & Ex). rewrite Forall_forall in IH.
    rewrite forallb_forall in Hp.
    intros s. apply bind_always_raises. eapply for_each_raises; [exact Hx|].
    intros acc. apply bind_always_raises. apply IH; auto. now apply list_elem_of_In.
Qed.

Lemma raises_only_bind e0 {A B} (m : M A) (k : A -> M B) :
  raises_only e0 m -> (forall a, raises_only e0 (k a)) -> raises_only e0 (bind m k).
Proof.
  intros Hm Hk s s' e. unfold bind. destruct (m s) as [s1 [a|e1]] eqn:E.
  - apply Hk.
  - intros [= <- <-]. eapply Hm. exact E.
Qed.

Lemma raises_only_for_each e0 {A B} (f : B -> A -> M B) l :
  (forall acc x, In x l -> raises_only e0 (f acc x)) ->
  forall acc, raises_only e0 (for_each f acc l).
Proof.
  induction l as [|x l IH]; intros Hf acc; cbn [for_each].
  - intros s s' e. discriminate.
  - apply raises_only_bind; [apply Hf; now left|].
    intros acc'. apply IH. intros acc'' y Hy. apply Hf. now right.
Qed.

Lemma raises_only_alloc e0 o : raises_only e0 (alloc o).
Proof. intros s s' e. discriminate. Qed.

Lemma raises_only_ret e0 {A} (a : A) : raises_only e0 (ret a).
Proof. intros s s' e. discriminate. Qed.

Lemma raises_only_set_add acc w : raises_only unhashable (lift (set_add acc w)).
Proof.
  intros s s' e. unfold lift, set_add. destruct (hashable w); [discriminate|].
  now intros [= <- <-].
Qed.

(** With fuel beyond the depth of the data, the only failure of wrapping
    is the hashing of a wrapped set element. *)
Lemma wrap_plain_error : forall v,
  python_value v = true ->
  forall g n, depth v < g -> raises_only unhashable (wrap_logged_config_value g n v).
Proof.
  induction v as [x|l IH|l IH|l IH|d IH|a] using value_induction;
    intros Hp g n Hg; try discriminate Hp;
    (destruct g as [|g]; [lia|]); cbn [depth] in Hg; cbn in Hp.
  - intros s s' e. discriminate.
  - rewrite Forall_forall in IH. rewrite forallb_forall in Hp.
    intros s. apply raises_only_bind; [|intros; apply raises_only_alloc].
    apply raises_only_for_each. intros acc x Hx.
    apply raises_only_bind; [|intros; apply raises_only_ret].
    apply IH; auto; [now apply list_elem_of_In|]. pose proof (depth_le_max l x Hx). lia.
  - rewrite Forall_forall in IH. rewrite forallb_forall in Hp.
    intros s. apply raises_only_bind; [|intros; apply raises_only_alloc].
    apply raises_only_for_each. intros acc x Hx.
    apply raises_only_bind; [|intros; apply raises_only_ret].
    apply IH; auto; [now apply list_elem_of_In|]. pose proof (depth_le_max l x Hx). lia.
  - apply andb_prop in Hp as [Hp _]. apply andb_prop in Hp as [Hp _].
    rewrite Forall_forall in IH. rewrite forallb_forall in Hp.
    intros s. apply raises_only_bind; [|intros; apply raises_only_alloc].
    apply raises_only_for_each. intros acc x Hx.
    apply raises_only_bind; [|intros; apply raises_only_set_add].
    apply IH; auto; [now apply list_elem_of_In|]. pose proof (depth_le_max l x Hx). lia.
  - apply andb_prop in Hp as [Hp _].
    rewrite Forall_forall in IH. rewrite forallb_forall in Hp.
    intros s. apply raises_only_bind; [|intros; apply raises_only_alloc].
    apply raises_only_for_each. intros acc x Hx.
    apply raises_only_bind; [|intros; apply raises_only_ret].
    apply IH; auto; [now apply list_elem_of_In|].
    pose proof (depth_le_max_dict d x Hx). cbn. lia.
Qed.

(** ** The wrapping function *)

(** C4, as stated, fails: a set that holds a tuple is rejected, because
    the tuple is wrapped into a [LoggedList], which cannot be hashed. *)
Lemma wrap_rejects_set_of_tuples :
  ~ (forall n v s, exists fuel s' w, wrap_logged_config_value fuel n v s = (s', Ok w)).
Proof.
  intros H.
  destruct (H "n" (VSet [VTuple [VAtom (AInt 1); VAtom (AInt 2)]]) (State [] []))
    as (fuel & s' & w & E).
  destruct (wrap_not_atomic (VSet [VTuple [VAtom (AInt 1); VAtom (AInt 2)]])
              eq_refl eq_refl fuel "n" (State [] [])) as (s'' & e & E').
  congruence.
Qed.

(** C4. Whenever the wrapping function returns, it returns a fresh
    [LoggedList] for a list or tuple, a fresh [LoggedSet] for a set, a
    fresh [LoggedConfiguration] for a dict, each under the given name, and
    any other value itself, leaving the state alone.  On Python data it
    returns if every set in the data holds atoms only, and otherwise
    fails, with "unhashable type" as soon as the fuel exceeds the depth of
    the data. *)
Theorem wrap_logged_config_value_spec (fuel : nat) (n : string) (v : value) (s : state) :
  (forall s' w,
      wrap_logged_config_value fuel n v s = (s', Ok w) ->
      match as_list_or_tuple (heap s) v, as_set (heap s) v, as_dict v with
      | Some _, _, _ =>
          exists a l, w = VRef a /\ length (heap s) <= a /\
                      heap s' !! a = Some (OList n l (getLogger n))
      | None, Some _, _ =>
          exists a l, w = VRef a /\ length (heap s) <= a /\
                      heap s' !! a = Some (OSet n l (getLogger n))
      | None, None, Some _ =>
          exists a d, w = VRef a /\ length (heap s) <= a /\
                      heap s' !! a = Some (OConfiguration n d (getLogger n))
      | None, None, None => w = v /\ s' = s
      end) /\
  (python_value v = true -> sets_atomic v = true -> depth v < fuel ->
   exists s' w, wrap_logged_config_value fuel n v s = (s', Ok w) /\ grows s s' /\
                flattens (heap s') w (detuple v)) /\
  (python_value v = true -> sets_atomic v = false ->
   exists s' e, wrap_logged_config_value fuel n v s = (s', Raise e) /\
                (depth v < fuel -> e = unhashable)).
Proof.
  repeat apply conj.
  - intros s' w. apply wrap_result.
  - intros Hp Ha Hd.
    destruct (wrap_plain_flattens v fuel (heap s) Hp Ha Hd n s) as (s' & w & E & G & F & _);
      [reflexivity|].
    exists s', w. auto.
  - intros Hp Ha. destruct (wrap_not_atomic v Hp Ha fuel n s) as (s' & e & E).
    exists s', e. split; [exact E|]. intros Hd.
    eapply wrap_plain_error; eassumption.
Qed.

(** ** The round trip *)

Lemma atom_eqb_refl x : atom_eqb x x = true.
Proof.
  destruct x as [|b|z|t|t]; cbn; try reflexivity.
  - now destruct b.
  - apply Z.eqb_refl.
  - apply String.eqb_refl.
  - apply String.eqb_refl.
Qed.

Lemma key_eqb_refl : forall v, hashable v = true -> key_eqb v v = true.
Proof.
  induction v as [x|l IH|l IH|l IH|d IH|a] using value_induction; intros H; try discriminate H.
  - apply atom_eqb_refl.
  - cbn in H |- *. induction IH as [|x l Hx _ IHl]; [reflexivity|].
    cbn in H. apply andb_prop in H as [H1 H2]. now rewrite Hx, IHl.
Qed.

Lemma set_mem_In x l : In x l -> hashable x = true -> set_mem x l = true.
Proof.
  intros Hx Hh. unfold set_mem. apply existsb_exists. exists x. split; [assumption|].
  now apply key_eqb_refl.
Qed.

Lemma dict_get_distinct (d : list (string * value)) k x :
  distinct_keys (map fst d) = true -> In (k, x) d -> dict_get d k = Some x.
Proof.
  induction d as [|[k' y] d IH]; intros Hd Hin; [destruct Hin|].
  cbn in Hd. apply andb_prop in Hd as [H1 H2]. apply negb_true_iff in H1. cbn.
  destruct Hin as [[= -> ->]|Hin].
  - now rewrite String.eqb_refl.
  - destruct (String.eqb k' k) eqn:E; [|now apply IH].
    apply String.eqb_eq in E. subst k'.
    assert (existsb (String.eqb k) (map fst d) = true) as C; [|congruence].
    apply existsb_exists. exists k. split; [|apply String.eqb_refl].
    apply in_map_iff. now exists (k, x).
Qed.

Lemma all_eq_refl (eq : value -> value -> option bool) l :
  (forall x, In x l -> eq x x = Some true) -> all_eq eq l l = Some true.
Proof.
  induction l as [|x l IH]; intros H; [reflexivity|]. cbn.
  rewrite H by now left. apply IH. intros y Hy. apply H. now right.
Qed.

Lemma dict_le_refl (eq : value -> value -> option bool) (d e : list (string * value)) :
  (forall kv, In kv d -> dict_get e kv.1 = Some kv.2 /\ eq kv.2 kv.2 = Some true) ->
  dict_le eq d e = Some true.
Proof.
  induction d as [|[k x] d IH]; intros H; [reflexivity|]. cbn.
  destruct (H (k, x)) as [H1 H2]; [now left|]. cbn in H1, H2. rewrite H1, H2.
  apply IH. intros kv Hkv. apply H. now right.
Qed.

(** Python data equals itself. *)
Lemma py_eq_refl h : forall v,
  python_value v = true -> forall fuel, depth v < fuel -> py_eq fuel h v v = Some true.
Proof.
  induction v as [x|l IH|l IH|l IH|d IH|a] using value_induction;
    intros Hp fuel Hd; try discriminate Hp;
    (destruct fuel as [|f]; [lia|]); cbn [depth] in Hd; cbn in Hp;
    cbn [py_eq same_object shape_of].
  - now rewrite atom_eqb_refl.
  - rewrite Nat.eqb_refl. apply all_eq_refl. intros x Hx.
    rewrite Forall_forall in IH. rewrite forallb_forall in Hp.
    apply IH; auto; [now apply list_elem_of_In|]. pose proof (depth_le_max l x Hx). lia.
  - rewrite Nat.eqb_refl. apply all_eq_refl. intros x Hx.
    rewrite Forall_forall in IH. rewrite forallb_forall in Hp.
    apply IH; auto; [now apply list_elem_of_In|]. pose proof (depth_le_max l x Hx). lia.
  - rewrite Nat.eqb_refl. cbn [andb]. f_equal.
    apply andb_prop in Hp as [Hp _]. apply andb_prop in Hp as [_ Hh].
    rewrite forallb_forall in Hh. apply forallb_forall. intros x Hx.
    apply set_mem_In; auto.
  - rewrite Nat.eqb_refl. apply andb_prop in Hp as [Hp Hk]. apply dict_le_refl.
    intros [k x] Hkv. split; [now apply dict_get_distinct|]. cbn.
    rewrite Forall_forall in IH. rewrite forallb_forall in Hp.
    apply (IH (k, x)); [now apply list_elem_of_In | now apply (Hp (k, x)) |].
    pose proof (depth_le_max_dict d (k, x) Hkv). cbn in *. lia.
Qed.

Lemma detuple_tuple_free : forall v, tuple_free v = true -> detuple v = v.
Proof.
  induction v as [x|l IH|l IH|l IH|d IH|a] using value_induction; intros H;
    try reflexivity; try discriminate H; cbn in H |- *.
  - f_equal. induction IH as [|x l Hx _ IHl]; [reflexivity|].
    cbn in H. apply andb_prop in H as [H1 H2]. cbn. now rewrite Hx, IHl.
  - f_equal. induction IH as [|[k x] d Hx _ IHd]; [reflexivity|].
    cbn in H. apply andb_prop in H as [H1 H2]. cbn in Hx |- *. now rewrite Hx, IHd.
Qed.

Lemma depth_detuple : forall v, depth (detuple v) = depth v.
Proof.
  induction v as [x|l IH|l IH|l IH|d IH|a] using value_induction; try reflexivity;
    cbn [detuple depth]; f_equal; rewrite map_map.
  - f_equal. induction IH as [|x l Hx _ IHl]; [reflexivity|]. cbn. now rewrite Hx, IHl.
  - f_equal. induction IH as [|x l Hx _ IHl]; [reflexivity|]. cbn. now rewrite Hx, IHl.
  - f_equal. induction IH as [|x l Hx _ IHl]; [reflexivity|]. cbn in *. now rewrite Hx, IHl.
Qed.

(** In Python data without tuples, what a set holds is an atom. *)
Lemma tuple_free_sets_atomic : forall v,
  python_value v = true -> tuple_free v = true -> sets_atomic v = true.
Proof.
  induction v as [x|l IH|l IH|l IH|d IH|a] using value_induction; intros Hp Ht;
    try reflexivity; try discriminate; cbn in Hp, Ht |- *.
  - rewrite Forall_forall in IH. rewrite forallb_forall in Hp, Ht. apply forallb_forall.
    intros x Hx. apply IH; auto. now apply list_elem_of_In.
  - apply andb_prop in Hp as [Hp _]. apply andb_prop in Hp as [_ Hh].
    rewrite forallb_forall in Hh, Ht. apply forallb_forall. intros x Hx.
    specialize (Hh x Hx). specialize (Ht x Hx). destruct x; try discriminate; reflexivity.
  - apply andb_prop in Hp as [Hp _].
    rewrite Forall_forall in IH. rewrite forallb_forall in Hp, Ht. apply forallb_forall.
    intros x Hx. apply IH; auto. now apply list_elem_of_In.
Qed.

(** C1, as stated, fails: a tuple comes back as a list, and in Python a
    list never equals a tuple. *)
Lemma round_trip_turns_tuple_into_list :
  ~ (forall fuel name d s,
        python_value (VDict d) = true -> depth (VDict d) < fuel ->
        exists r, (round_trip fuel name d s).2 = Ok r /\
                  py_eq fuel (heap (round_trip fuel name d s).1) r (VDict d) = Some true).
Proof.
  intros H.
  destruct (H 3 "n" [("a", VTuple [VAtom (AInt 1); VAtom (AInt 2)])] (State [] [])
              eq_refl ltac:(cbn; lia)) as (r & E & Q).
  cbn in E. injection E as <-. vm_compute in Q. discriminate Q.
Qed.

(** C1. For Python data [D] in which every set holds atoms only,
    flattening the configuration built from [D] returns [D] with every
    tuple replaced by the list of its elements.  For data without tuples
    the result is [D] itself, which Python's [==] accepts. *)
Theorem round_trip_plain_data
    (fuel : nat) (name : string) (d : list (string * value)) (s : state) :
  python_value (VDict d) = true ->
  depth (VDict d) < fuel ->
  (sets_atomic (VDict d) = true ->
   (round_trip fuel name d s).2 = Ok (detuple (VDict d))) /\
  (tuple_free (VDict d) = true ->
   (round_trip fuel name d s).2 = Ok (VDict d) /\
   py_eq fuel (heap (round_trip fuel name d s).1) (VDict d) (VDict d) = Some true).
Proof.
  intros Hp Hd.
  assert (Hmain : sets_atomic (VDict d) = true ->
                  (round_trip fuel name d s).2 = Ok (detuple (VDict d))).
  { intros Ha. pose proof Hp as Hp'. cbn in Hp', Ha. apply andb_prop in Hp' as [Hv Hk].
    assert (Hl : Forall2 (fun kv kp : string * value =>
                            kv.1 = kp.1 /\ wrap_ok flattens_within_depth fuel (heap s) kv.2 kp.2)
                         d (map (fun kv : string * value => (kv.1, detuple kv.2)) d)).
    { apply Forall2_map_r_In. intros x Hx. split; [reflexivity|].
      rewrite forallb_forall in Hv, Ha. cbn.
      apply wrap_plain_within; auto.
      pose proof (depth_le_max_dict d x Hx). cbn [depth] in Hd. lia. }
    destruct (LoggedConfiguration_new_ok flattens_within_depth within_prefix within_dict
                fuel (heap s) name d _ Hl Hk s)
      as (s' & a & dw & E & G & _ & _ & _ & F1); [reflexivity|].
    unfold round_trip, LoggedConfiguration.__init__. erewrite bind_ok by exact E.
    unfold LoggedConfiguration.to_dict. cbn [snd].
    apply F1. change (depth (detuple (VDict d)) < fuel). now rewrite depth_detuple. }
  split; [exact Hmain|].
  intros Ht. split.
  - rewrite Hmain by (now apply tuple_free_sets_atomic).
    now rewrite detuple_tuple_free.
  - now apply py_eq_refl.
Qed.

(** ** Copies *)

Lemma wrapped_above_prefix n0 f : forall h h' w,
  h `prefix_of` h' -> wrapped_above n0 f h w = true -> wrapped_above n0 f h' w = true.
Proof.
  induction f as [|f IH]; intros h h' w Hh H; [discriminate H|].
  cbn in H |- *. destruct w as [x|l|l|l|d|a]; try assumption.
  apply andb_prop in H as [Ha H]. rewrite Ha. cbn [andb].
  destruct (h !! a) as [o|] eqn:Ho; [|discriminate H].
  assert (Ho' : h' !! a = Some o) by (eapply prefix_lookup_Some; eassumption).
  rewrite Ho'. destruct o as [n d c|n l c|n l c].
  - apply andb_prop in H as [Hk H]. rewrite Hk. cbn [andb].
    rewrite forallb_forall in H. apply forallb_forall. intros kv Hkv. eapply IH; eauto.
  - rewrite forallb_forall in H. apply forallb_forall. intros x Hx. eapply IH; eauto.
  - apply andb_prop in H as [H Hd]. rewrite Hd, andb_true_r.
    rewrite forallb_forall in H. apply forallb_forall. intros x Hx.
    specialize (H x Hx). apply andb_prop in H as [H1 H2]. rewrite H1. cbn [andb]. eapply IH; eauto.
Qed.

Lemma keeps_wrapped_prefix n0 h h1 h2 w w' :
  h1 `prefix_of` h2 -> keeps_wrapped n0 h h1 w w' -> keeps_wrapped n0 h h2 w w'.
Proof. intros Hh H j Hj. eapply wrapped_above_prefix; [exact Hh | now apply H]. Qed.

Lemma keeps_wrapped_refl n0 h h' w : h `prefix_of` h' -> keeps_wrapped n0 h h' w w.
Proof. intros Hh j Hj. eapply wrapped_above_prefix; eassumption. Qed.

(** A loop whose every step succeeds and keeps an invariant, indexed by
    the elements already consumed. *)
Lemma for_each_total {A B} (f : B -> A -> M B) (Inv : list A -> B -> state -> Prop) l :
  (forall pre x post acc s, l = pre ++ x :: post -> Inv pre acc s ->
     exists s' acc', f acc x s = (s', Ok acc') /\ Inv (pre ++ [x]) acc' s') ->
  forall acc s, Inv [] acc s ->
    exists s' acc', for_each f acc l s = (s', Ok acc') /\ Inv l acc' s'.
Proof.
  intros Hstep.
  enough (forall rest pre acc s, l = pre ++ rest -> Inv pre acc s ->
            exists s' acc', for_each f acc rest s = (s', Ok acc') /\ Inv l acc' s') as H
    by (intros acc s HI; now apply (H l [])).
  induction rest as [|x rest IH]; intros pre acc s El HI.
  - exists s, acc. rewrite app_nil_r in El. subst. now split.
  - destruct (Hstep pre x rest acc s El HI) as (s1 & acc1 & E1 & I1).
    destruct (IH (pre ++ [x]) acc1 s1) as (s' & acc' & E & I'); [now rewrite <- app_assoc | exact I1 |].
    exists s', acc'. split; [|exact I'].
    cbn [for_each]. erewrite bind_ok by exact E1. exact E.
Qed.

Lemma Forall2_snoc {A B} (R : A -> B -> Prop) l k x y :
  Forall2 R l k -> R x y -> Forall2 R (l ++ [x]) (k ++ [y]).
Proof. intros H1 H2. apply Forall2_app; [exact H1 | now constructor]. Qed.

Lemma wrap_config_ref g nm a s n d c :
  heap s !! a = Some (OConfiguration n d c) ->
  wrap_logged_config_value (S g) nm (VRef a) s = (s, Ok (VRef a)).
Proof. intros H. cbn. now rewrite H. Qed.

Lemma wrap_list_ref g nm a s n l c :
  heap s !! a = Some (OList n l c) ->
  wrap_logged_config_value (S g) nm (VRef a) s
  = LoggedList_new (wrap_logged_config_value g) nm l s.
Proof. intros H. cbn. now rewrite H. Qed.

Lemma wrap_set_ref g nm a s n l c :
  heap s !! a = Some (OSet n l c) ->
  wrap_logged_config_value (S g) nm (VRef a) s
  = LoggedSet_new (wrap_logged_config_value g) nm l s.
Proof. intros H. cbn. now rewrite H. Qed.

(** The elements of a wrapped list wrap one after the other. *)
Lemma wrap_wrapped_loop g n0 nm k l s :
  (forall nm w s k, n0 <= length (heap s) -> k <= g -> wrapped_above n0 k (heap s) w = true ->
     exists s' w', wrap_logged_config_value g nm w s = (s', Ok w') /\ grows s s' /\
                   keeps_wrapped n0 (heap s) (heap s') w w' /\ (is_atom w = true -> w' = w)) ->
  n0 <= length (heap s) -> k <= g ->
  forallb (wrapped_above n0 k (heap s)) l = true ->
  exists s' ws,
    for_each (fun acc x => w <- wrap_logged_config_value g nm x ;; ret (acc ++ [w])) [] l s
    = (s', Ok ws) /\ grows s s' /\
    Forall2 (keeps_wrapped n0 (heap s) (heap s')) l ws.
Proof.
  intros IH Hn Hk Hl. rewrite forallb_forall in Hl.
  destruct (for_each_total
              (fun acc x => w <- wrap_logged_config_value g nm x ;; ret (acc ++ [w]))
              (fun done acc s1 => grows s s1 /\
                                  Forall2 (keeps_wrapped n0 (heap s) (heap s1)) done acc) l)
    with (acc := @nil value) (s := s) as (s' & ws & E & G & F).
  - intros pre x post acc s1 El [G F].
    assert (Hx : In x l) by (rewrite El; apply in_elt).
    assert (P1 : heap s `prefix_of` heap s1) by now apply grows_prefix.
    destruct (IH nm x s1 k) as (s2 & w & E & G2 & K & _).
    { apply prefix_length in P1. lia. }
    { exact Hk. }
    { eapply wrapped_above_prefix; [exact P1 | now apply Hl]. }
    assert (P2 : heap s1 `prefix_of` heap s2) by now apply grows_prefix.
    exists s2, (acc ++ [w]). split; [now erewrite bind_ok by exact E|]. split.
    + now transitivity s1.
    + apply Forall2_snoc.
      * eapply Forall2_impl; [exact F|]. intros y v. now apply keeps_wrapped_prefix.
      * intros j Hj. apply K. eapply wrapped_above_prefix; eassumption.
  - split; [reflexivity | constructor].
  - exists s', ws. auto.
Qed.

Lemma Forall2_forallb {A B} (R : A -> B -> Prop) (p : A -> bool) (q : B -> bool) l k :
  Forall2 R l k -> (forall x y, R x y -> p x = true -> q y = true) ->
  forallb p l = true -> forallb q k = true.
Proof.
  induction 1 as [|x y l k Hxy _ IH]; intros HR Hl; [reflexivity|].
  cbn in Hl |- *. apply andb_prop in Hl as [H1 H2]. rewrite (HR _ _ Hxy H1). now apply IH.
Qed.

(** Wrapping a wrapped value succeeds, and the result is as wrapped. *)
Lemma wrap_wrapped g : forall n0 nm w s k,
  n0 <= length (heap s) -> k <= g -> wrapped_above n0 k (heap s) w = true ->
  exists s' w',
    wrap_logged_config_value g nm w s = (s', Ok w') /\ grows s s' /\
    keeps_wrapped n0 (heap s) (heap s') w w' /\ (is_atom w = true -> w' = w).
Proof.
  induction g as [|g IH]; intros n0 nm w s k Hn Hk Hw.
  { assert (k = 0) as -> by lia. discriminate Hw. }
  destruct k as [|k]; [discriminate Hw|]. apply le_S_n in Hk.
  cbn [wrapped_above] in Hw. destruct w as [x|l|l|l|d|a]; try discriminate Hw.
  - exists s, (VAtom x).
    split; [reflexivity | split; [reflexivity | split; [now apply keeps_wrapped_refl | auto]]].
  - apply andb_prop in Hw as [Ha Hw]. apply Nat.leb_le in Ha.
    destruct (heap s !! a) as [[n d c|n l c|n l c]|] eqn:Ho; try discriminate Hw.
    + exists s, (VRef a). rewrite (wrap_config_ref _ _ _ _ _ _ _ Ho).
      split; [reflexivity | split; [reflexivity | split; [now apply keeps_wrapped_refl |]]].
      discriminate.
    + rewrite (wrap_list_ref _ _ _ _ _ _ _ Ho).
      destruct (wrap_wrapped_loop g n0 (nm +:+ "[...]") k l s (IH n0) Hn Hk Hw)
        as (s1 & ws & E & G & F).
      set (o := OList nm ws (getLogger nm)).
      exists (State (heap s1 ++ [o]) (trace s1)), (VRef (length (heap s1))).
      assert (P1 : heap s `prefix_of` heap s1) by now apply grows_prefix.
      assert (P2 : heap s1 `prefix_of` heap s1 ++ [o]) by now apply prefix_app_r.
      split; [|split; [split|split]].
      * unfold LoggedList_new. now erewrite bind_ok by exact E.
      * cbn. now transitivity (heap s1).
      * cbn. now destruct G.
      * intros [|j] Hj; [discriminate Hj|]. cbn [wrapped_above heap] in Hj |- *.
        rewrite Ho in Hj. apply andb_prop in Hj as [_ Hj].
        rewrite lookup_snoc_last. unfold o.
        apply andb_true_intro. split.
        { apply Nat.leb_le. apply prefix_length in P1. lia. }
        eapply Forall2_forallb; [exact F | | exact Hj].
        intros x y K Hx. eapply wrapped_above_prefix; [exact P2 | now apply K].
      * discriminate.
    + rewrite (wrap_set_ref _ _ _ _ _ _ _ Ho).
      apply andb_prop in Hw as [Hw Hd].
      assert (Hatoms : forallb is_atom l = true).
      { rewrite forallb_forall in Hw. apply forallb_forall. intros x Hx.
        specialize (Hw x Hx). now apply andb_prop in Hw as [? _]. }
      assert (E : for_each (fun acc x => w <- wrap_logged_config_value g (nm +:+ "[...]") x ;;
                                         lift (set_add acc w)) [] l s = (s, Ok l)).
      { destruct g as [|g].
        - destruct l as [|x l]; [reflexivity|]. cbn in Hw.
          assert (k = 0) as -> by lia. cbn in Hw. now rewrite andb_false_r in Hw.
        - rewrite wrap_set_loop by assumption. now rewrite set_extend_distinct. }
      set (o := OSet nm l (getLogger nm)).
      exists (State (heap s ++ [o]) (trace s)), (VRef (length (heap s))).
      assert (P2 : heap s `prefix_of` heap s ++ [o]) by now apply prefix_app_r.
      split; [|split; [split|split]].
      * unfold LoggedSet_new. now erewrite bind_ok by exact E.
      * exact P2.
      * reflexivity.
      * intros [|j] Hj; [discriminate Hj|]. cbn [wrapped_above heap] in Hj |- *.
        rewrite Ho in Hj. apply andb_prop in Hj as [_ Hj].
        rewrite lookup_snoc_last. unfold o.
        apply andb_true_intro. split; [apply Nat.leb_le; lia|].
        apply andb_prop in Hj as [Hj Hd']. rewrite Hd', andb_true_r.
        rewrite forallb_forall in Hj. apply forallb_forall. intros x Hx.
        specialize (Hj x Hx). apply andb_prop in Hj as [H1 H2]. rewrite H1. cbn [andb].
        eapply wrapped_above_prefix; eassumption.
      * discriminate.
Qed.

Lemma distinct_keys_middle (pre post : list (string * value)) x :
  distinct_keys (map fst (pre ++ x :: post)) = true ->
  existsb (String.eqb x.1) (map fst pre) = false.
Proof.
  induction pre as [|p pre IH]; intros H; [reflexivity|].
  cbn in H. apply andb_prop in H as [H1 H2]. apply negb_true_iff in H1.
  cbn. rewrite (IH H2), orb_false_r.
  destruct (String.eqb x.1 p.1) eqn:E; [|reflexivity].
  apply String.eqb_eq in E.
  assert (existsb (String.eqb p.1) (map fst (pre ++ x :: post)) = true) as C; [|congruence].
  apply existsb_exists. exists x.1. split; [|rewrite E; apply String.eqb_refl].
  apply in_map. apply in_elt.
Qed.

(** Building a configuration from a wrapped mapping. *)
Lemma new_config_wrapped g n0 nm (d : list (string * value)) s k :
  n0 <= length (heap s) -> k <= g ->
  distinct_keys (map fst d) = true ->
  forallb (fun kv : string * value => wrapped_above n0 k (heap s) kv.2) d = true ->
  exists s' a dw,
    LoggedConfiguration_new (wrap_logged_config_value g) nm d s = (s', Ok (VRef a)) /\
    grows s s' /\ a = length (heap s') - 1 /\ length (heap s) < length (heap s') /\
    heap s' !! a = Some (OConfiguration nm dw (getLogger nm)) /\
    Forall2 (fun kv kw : string * value =>
               kv.1 = kw.1 /\ keeps_wrapped n0 (heap s) (heap s') kv.2 kw.2) d dw.
Proof.
  intros Hn Hk Hd Hl. rewrite forallb_forall in Hl.
  destruct (for_each_total
              (fun acc (kv : string * value) =>
                 w <- wrap_logged_config_value g (nm +:+ "." +:+ kv.1) kv.2 ;;
                 ret (dict_set acc kv.1 w))
              (fun done acc s1 =>
                 grows s s1 /\
                 Forall2 (fun kv kw : string * value =>
                            kv.1 = kw.1 /\ keeps_wrapped n0 (heap s) (heap s1) kv.2 kw.2)
                         done acc) d)
    with (acc := @nil (string * value)) (s := s) as (s1 & dw & E & G & F).
  - intros pre x post acc s1 El [G F].
    assert (Hx : In x d) by (rewrite El; apply in_elt).
    assert (P1 : heap s `prefix_of` heap s1) by now apply grows_prefix.
    destruct (wrap_wrapped g n0 (nm +:+ "." +:+ x.1) x.2 s1 k) as (s2 & w & E & G2 & K & _).
    { apply prefix_length in P1. lia. }
    { exact Hk. }
    { eapply wrapped_above_prefix; [exact P1 | now apply Hl]. }
    assert (P2 : heap s1 `prefix_of` heap s2) by now apply grows_prefix.
    exists s2, (acc ++ [(x.1, w)]). split; [|split].
    + erewrite bind_ok by exact E. unfold ret. rewrite dict_set_fresh; [reflexivity|].
      rewrite (Forall2_keys _ _ _ F) || rewrite <- (Forall2_keys _ _ _ F).
      rewrite El in Hd. now apply distinct_keys_middle in Hd.
    + now transitivity s1.
    + apply Forall2_snoc.
      * eapply Forall2_impl; [exact F|]. intros y v [Ey Ky]. split; [exact Ey|].
        now apply (keeps_wrapped_prefix n0 (heap s) (heap s1) (heap s2)).
      * split; [reflexivity|]. cbn. intros j Hj. apply K.
        eapply wrapped_above_prefix; eassumption.
  - split; [reflexivity | constructor].
  - set (o := OConfiguration nm dw (getLogger nm)).
    assert (P1 : heap s `prefix_of` heap s1) by now apply grows_prefix.
    assert (P2 : heap s1 `prefix_of` heap s1 ++ [o]) by now apply prefix_app_r.
    exists (State (heap s1 ++ [o]) (trace s1)), (length (heap s1)), dw.
    split; [|split; [split|split; [|split; [|split]]]].
    + unfold LoggedConfiguration_new. now erewrite bind_ok by exact E.
    + cbn. now transitivity (heap s1).
    + cbn. now destruct G.
    + cbn. rewrite length_app. cbn. lia.
    + cbn. rewrite length_app. cbn. apply prefix_length in P1. lia.
    + cbn. apply lookup_snoc_last.
    + eapply Forall2_impl; [exact F|]. intros y v [Ey Ky]. split; [exact Ey|].
      now apply (keeps_wrapped_prefix n0 (heap s) (heap s1)).
Qed.

(** *** Deep copies *)

Lemma memo_ok_prefix n0 h0 h h' m :
  h `prefix_of` h' -> memo_ok n0 h0 h m -> memo_ok n0 h0 h' m.
Proof.
  intros Hh [H1 H2]. split.
  - intros a y Hy j Hj. eapply wrapped_above_prefix; [exact Hh | now apply (H1 a y Hy)].
  - intros a dy Hdy. destruct (H2 a dy Hdy) as [Hk Hl]. split; [exact Hk|].
    intros j n d c Ho Hd. specialize (Hl j n d c Ho Hd).
    rewrite forallb_forall in Hl. apply forallb_forall. intros kv Hkv.
    eapply wrapped_above_prefix; [exact Hh | now apply Hl].
Qed.

Lemma memo_ok_copy n0 h0 h m a y :
  memo_ok n0 h0 h m -> copy_wrapped n0 h0 h (VRef a) y -> memo_ok n0 h0 h (memo_copy m a y).
Proof.
  intros [H1 H2] Hy. split; [|exact H2].
  intros b z. cbn. destruct (Nat.eqb b a) eqn:E.
  - apply Nat.eqb_eq in E. subst b. now intros [= <-].
  - apply H1.
Qed.

Lemma copy_wrapped_prefix n0 h0 h h' x y :
  h `prefix_of` h' -> copy_wrapped n0 h0 h x y -> copy_wrapped n0 h0 h' x y.
Proof. intros Hh H j Hj. eapply wrapped_above_prefix; [exact Hh | now apply H]. Qed.

Lemma dict_kept_refl m : dict_kept m m.
Proof. now intros a dy. Qed.

Lemma dict_kept_trans m1 m2 m3 : dict_kept m1 m2 -> dict_kept m2 m3 -> dict_kept m1 m3.
Proof. intros H1 H2 a dy H. now apply H2, H1. Qed.

Lemma dict_kept_copy m a y : dict_kept m (memo_copy m a y).
Proof. now intros b dy. Qed.

Lemma deepcopy_atom g x m s : is_atom x = true -> deepcopy (S g) x m s = (s, Ok (x, m)).
Proof. destruct x; try discriminate. reflexivity. Qed.

Lemma LoggedList_deepcopy_wrapped g n0 h0 a m s k n l c :
  deepcopy_spec g ->
  n0 <= length (heap s) -> h0 `prefix_of` heap s -> k <= g ->
  h0 !! a = Some (OList n l c) ->
  forallb (wrapped_above 0 k h0) l = true ->
  memo_ok n0 h0 (heap s) m ->
  exists s' a' m' ws,
    LoggedList_deepcopy (wrap_logged_config_value g) (deepcopy g) a m s
    = (s', Ok (VRef a', m')) /\
    grows s s' /\ memo_ok n0 h0 (heap s') m' /\ dict_kept m m' /\
    a' = length (heap s') - 1 /\ length (heap s) < length (heap s') /\
    heap s' !! a' = Some (OList (n +:+ "(copy)") ws (getLogger (n +:+ "(copy)"))) /\
    Forall2 (copy_wrapped n0 h0 (heap s')) l ws.
Proof.
  intros IH Hn Hh Hk Ho Hl Hm. rewrite forallb_forall in Hl.
  assert (Hos : heap s !! a = Some (OList n l c)) by (eapply prefix_lookup_Some; eassumption).
  set (nm := n +:+ "(copy)").
  destruct (for_each_total
              (fun '(acc, m) x =>
                 '(y, m1) <- deepcopy g x m ;;
                 w <- wrap_logged_config_value g (nm +:+ "[...]") y ;;
                 ret (acc ++ [w], m1))
              (fun done (am : list value * memo) s1 =>
                 grows s s1 /\ memo_ok n0 h0 (heap s1) am.2 /\ dict_kept m am.2 /\
                 Forall2 (copy_wrapped n0 h0 (heap s1)) done am.1) l)
    with (acc := (@nil value, m)) (s := s) as (s1 & [ws m1] & E & G & Hm1 & Hk1 & F).
  - intros pre x post [acc mc] s1 El (G & Hmc & Hkc & F). cbn [fst snd] in *.
    assert (Hx : In x l) by (rewrite El; apply in_elt).
    assert (P1 : heap s `prefix_of` heap s1) by now apply grows_prefix.
    destruct (IH n0 h0 x mc s1 k) as (s2 & y & m2 & E2 & G2 & Hm2 & Cy & Hk2 & _);
      [apply prefix_length in P1; lia | now transitivity (heap s) | exact Hk | now apply Hl
      | exact Hmc |].
    assert (P2 : heap s1 `prefix_of` heap s2) by now apply grows_prefix.
    destruct (wrap_wrapped g n0 (nm +:+ "[...]") y s2 k) as (s3 & w & E3 & G3 & K & _);
      [apply prefix_length in P1, P2; lia | exact Hk | apply Cy; now apply Hl |].
    assert (P3 : heap s2 `prefix_of` heap s3) by now apply grows_prefix.
    exists s3, (acc ++ [w], m2). split; [|split; [|split; [|split]]].
    + erewrite bind_ok by exact E2. cbv beta iota. now erewrite bind_ok by exact E3.
    + transitivity s1; [exact G|]. now transitivity s2.
    + cbn. eapply memo_ok_prefix; eassumption.
    + cbn. eapply dict_kept_trans; eassumption.
    + cbn. apply Forall2_snoc.
      * eapply Forall2_impl; [exact F|]. intros u v Cuv.
        eapply copy_wrapped_prefix; [|exact Cuv]. now transitivity (heap s2).
      * intros j Hj. apply K. now apply Cy.
  - split; [reflexivity|]. split; [exact Hm|]. split; [apply dict_kept_refl | constructor].
  - cbn [fst snd] in *.
    set (o := OList nm ws (getLogger nm)).
    assert (P1 : heap s `prefix_of` heap s1) by now apply grows_prefix.
    assert (P2 : heap s1 `prefix_of` heap s1 ++ [o]) by now apply prefix_app_r.
    exists (State (heap s1 ++ [o]) (trace s1)), (length (heap s1)), m1, ws.
    split; [|split; [split|split; [|split; [|split; [|split; [|split]]]]]].
    + unfold LoggedList_deepcopy.
      rewrite (bind_ok _ _ s s (n, l, c)) by (now apply self_list_ok). cbv beta iota.
      fold nm. erewrite bind_ok by exact E. reflexivity.
    + cbn. now transitivity (heap s1).
    + cbn. now destruct G.
    + cbn. eapply memo_ok_prefix; eassumption.
    + exact Hk1.
    + cbn. rewrite length_app. cbn. lia.
    + cbn. rewrite length_app. cbn. apply prefix_length in P1. lia.
    + cbn. apply lookup_snoc_last.
    + cbn. eapply Forall2_impl; [exact F|]. intros u v. now apply copy_wrapped_prefix.
Qed.

Lemma deepcopy_set_loop g nm l : forall acc m s,
  forallb is_atom l = true ->
  for_each (fun '(acc, m) x =>
              '(y, m1) <- deepcopy (S g) x m ;;
              w <- wrap_logged_config_value (S g) nm y ;;
              acc' <- lift (set_add acc w) ;;
              ret (acc', m1)) (acc, m) l s
  = (s, Ok (set_extend acc l, m)).
Proof.
  induction l as [|x l IH]; intros acc m s H; [reflexivity|].
  cbn in H. apply andb_prop in H as [Hx Hl]. cbn [for_each].
  erewrite bind_ok; [rewrite set_extend_cons; now apply IH|].
  erewrite bind_ok by (now apply deepcopy_atom). cbv beta iota.
  erewrite bind_ok by (now apply wrap_atom).
  erewrite bind_ok; [reflexivity|]. unfold lift. now rewrite set_add_atom.
Qed.

Lemma LoggedSet_deepcopy_wrapped g n0 h0 a m s k n l c :
  n0 <= length (heap s) -> h0 `prefix_of` heap s -> k <= g ->
  h0 !! a = Some (OSet n l c) ->
  forallb (fun x => is_atom x && wrapped_above 0 k h0 x) l = true ->
  distinct_from [] l = true ->
  exists s' a',
    LoggedSet_deepcopy (wrap_logged_config_value g) (deepcopy g) a m s = (s', Ok (VRef a', m)) /\
    grows s s' /\ a' = length (heap s) /\
    heap s' = heap s ++ [OSet (n +:+ "(copy)") l (getLogger (n +:+ "(copy)"))].
Proof.
  intros Hn Hh Hk Ho Hl Hd.
  assert (Hos : heap s !! a = Some (OSet n l c)) by (eapply prefix_lookup_Some; eassumption).
  assert (Hatoms : forallb is_atom l = true).
  { rewrite forallb_forall in Hl. apply forallb_forall. intros x Hx.
    specialize (Hl x Hx). now apply andb_prop in Hl as [? _]. }
  set (nm := n +:+ "(copy)").
  assert (E : for_each (fun '(acc, m) x =>
                          '(y, m1) <- deepcopy g x m ;;
                          w <- wrap_logged_config_value g (nm +:+ "[...]") y ;;
                          acc' <- lift (set_add acc w) ;;
                          ret (acc', m1)) ([], m) l s = (s, Ok (l, m))).
  { destruct g as [|g].
    - destruct l as [|x l]; [reflexivity|]. cbn in Hl.
      assert (k = 0) as -> by lia. cbn in Hl. now rewrite andb_false_r in Hl.
    - rewrite deepcopy_set_loop by assumption. now rewrite set_extend_distinct. }
  set (o := OSet nm l (getLogger nm)).
  exists (State (heap s ++ [o]) (trace s)), (length (heap s)).
  split; [|split; [split|split]].
  - unfold LoggedSet_deepcopy.
    rewrite (bind_ok _ _ s s (n, l, c)) by (now apply self_set_ok). cbv beta iota.
    fold nm. erewrite bind_ok by exact E. reflexivity.
  - cbn. now apply prefix_app_r.
  - reflexivity.
  - reflexivity.
  - reflexivity.
Qed.

Lemma distinct_keys_app_l (ks ks' : list string) :
  distinct_keys (ks ++ ks') = true -> distinct_keys ks = true.
Proof.
  induction ks as [|k ks IH]; intros H; [reflexivity|].
  cbn in H |- *. apply andb_prop in H as [H1 H2]. rewrite (IH H2), andb_true_r.
  apply negb_true_iff in H1. apply negb_true_iff.
  rewrite existsb_app in H1. now apply orb_false_iff in H1 as [? _].
Qed.

Lemma assoc_get_memo_dict m a dy b :
  assoc_get (dict_copies (memo_dict m a dy)) b
  = if Nat.eqb b a then Some dy else assoc_get (dict_copies m) b.
Proof. reflexivity. Qed.

Lemma deepcopy_data_wrapped g n0 h0 a m s k n (d : list (string * value)) c :
  deepcopy_spec g ->
  n0 <= length (heap s) -> h0 `prefix_of` heap s -> k <= g ->
  h0 !! a = Some (OConfiguration n d c) ->
  distinct_keys (map fst d) = true ->
  forallb (fun kv : string * value => wrapped_above 0 k h0 kv.2) d = true ->
  memo_ok n0 h0 (heap s) m ->
  exists s' dy m',
    deepcopy_data (deepcopy g) a d m s = (s', Ok (dy, m')) /\
    grows s s' /\ memo_ok n0 h0 (heap s') m' /\ dict_kept m m' /\
    distinct_keys (map fst dy) = true /\
    (forall j, forallb (fun kv : string * value => wrapped_above 0 j h0 kv.2) d = true ->
               forallb (fun kv : string * value => wrapped_above n0 j (heap s') kv.2) dy = true).
Proof.
  intros IH Hn Hh Hk Ho Hd Hl Hm. unfold deepcopy_data.
  destruct (assoc_get (dict_copies m) a) as [dy|] eqn:Em.
  { exists s, dy, m. destruct Hm as [Hm1 Hm2]. destruct (Hm2 a dy Em) as [Hk' Hl'].
    split; [reflexivity|]. split; [reflexivity|]. split; [now split|].
    split; [apply dict_kept_refl|]. split; [exact Hk'|].
    intros j Hj. eapply Hl'; eassumption. }
  rewrite forallb_forall in Hl.
  destruct (for_each_total
              (fun m (kv : string * value) =>
                 '(y, m1) <- deepcopy g kv.2 m ;;
                 ret (memo_dict m1 a (dict_set (dict_copy m1 a) kv.1 y)))
              (fun done mc s1 =>
                 grows s s1 /\ memo_ok n0 h0 (heap s1) mc /\
                 (forall b dy, b <> a -> assoc_get (dict_copies m) b = Some dy ->
                               assoc_get (dict_copies mc) b = Some dy) /\
                 exists dy, assoc_get (dict_copies mc) a = Some dy /\
                            map fst dy = map fst done) d)
    with (acc := memo_dict m a []) (s := s) as (s1 & m1 & E & G & Hm1 & Hk1 & dy & Edy & Kdy).
  - intros pre x post mc s1 El (G & Hmc & Hkc & dy & Edy & Kdy).
    assert (Hx : In x d) by (rewrite El; apply in_elt).
    assert (P1 : heap s `prefix_of` heap s1) by now apply grows_prefix.
    destruct (IH n0 h0 x.2 mc s1 k) as (s2 & y & m2 & E2 & G2 & Hm2 & Cy & Hk2 & _);
      [apply prefix_length in P1; lia | now transitivity (heap s) | exact Hk | now apply Hl
      | exact Hmc |].
    assert (Edy2 : assoc_get (dict_copies m2) a = Some dy) by now apply Hk2.
    assert (Efresh : dict_set dy x.1 y = dy ++ [(x.1, y)]).
    { apply dict_set_fresh. rewrite Kdy. rewrite El in Hd. now apply distinct_keys_middle in Hd. }
    exists s2, (memo_dict m2 a (dy ++ [(x.1, y)])). split; [|split; [|split; [|split]]].
    + erewrite bind_ok by exact E2. cbv beta iota. unfold ret, dict_copy.
      rewrite Edy2. change (default [] (Some dy)) with dy. now rewrite Efresh.
    + now transitivity s1.
    + destruct Hm2 as [Hc2 Hd2]. split; [exact Hc2|].
      intros b dz. rewrite assoc_get_memo_dict. destruct (Nat.eqb b a) eqn:Eb; [|apply Hd2].
      apply Nat.eqb_eq in Eb. subst b. intros [= <-].
      destruct (Hd2 a dy Edy2) as [Hkd Hld]. split.
      * rewrite map_app, Kdy. cbn. rewrite El, map_app in Hd. cbn in Hd.
        replace (map fst pre ++ x.1 :: map fst post)
          with ((map fst pre ++ [x.1]) ++ map fst post) in Hd by now rewrite <- app_assoc.
        now apply distinct_keys_app_l in Hd.
      * intros j n' d' c' Ho' Hj. rewrite Ho in Ho'. injection Ho' as <- <- <-.
        rewrite forallb_app. rewrite (Hld j n d c Ho Hj). cbn.
        rewrite andb_true_r. apply Cy. rewrite forallb_forall in Hj. now apply Hj.
    + intros b dz Hb Hz. rewrite assoc_get_memo_dict.
      apply Nat.eqb_neq in Hb. rewrite Hb. apply Hk2. apply Hkc; [now apply Nat.eqb_neq | exact Hz].
    + exists (dy ++ [(x.1, y)]). rewrite assoc_get_memo_dict, Nat.eqb_refl.
      split; [reflexivity|]. now rewrite !map_app, Kdy.
  - split; [reflexivity|]. split; [|split].
    + destruct Hm as [Hc2 Hd2]. split; [exact Hc2|].
      intros b dz. rewrite assoc_get_memo_dict. destruct (Nat.eqb b a); [|apply Hd2].
      intros [= <-]. split; [reflexivity|]. reflexivity.
    + intros b dz Hb Hz. rewrite assoc_get_memo_dict.
      apply Nat.eqb_neq in Hb. now rewrite Hb.
    + exists []. now rewrite assoc_get_memo_dict, Nat.eqb_refl.
  - exists s1, dy, m1. split; [|split; [|split; [|split; [|split]]]].
    + erewrite bind_ok by exact E. unfold ret, dict_copy. rewrite Edy. reflexivity.
    + exact G.
    + exact Hm1.
    + intros b dz Hz. apply Hk1; [|exact Hz]. intros ->. congruence.
    + destruct Hm1 as [_ Hd1]. now destruct (Hd1 a dy Edy).
    + intros j Hj. destruct Hm1 as [_ Hd1]. destruct (Hd1 a dy Edy) as [_ Hl1].
      eapply Hl1; eassumption.
Qed.

Lemma LoggedConfiguration_deepcopy_wrapped g n0 h0 a m s k n (d : list (string * value)) c :
  deepcopy_spec g ->
  n0 <= length (heap s) -> h0 `prefix_of` heap s -> k <= g ->
  h0 !! a = Some (OConfiguration n d c) ->
  distinct_keys (map fst d) = true ->
  forallb (fun kv : string * value => wrapped_above 0 k h0 kv.2) d = true ->
  memo_ok n0 h0 (heap s) m ->
  exists s' a' m' dw,
    LoggedConfiguration_deepcopy (wrap_logged_config_value g) (deepcopy g) a m s
    = (s', Ok (VRef a', m')) /\
    grows s s' /\ memo_ok n0 h0 (heap s') m' /\ dict_kept m m' /\
    a' = length (heap s') - 1 /\ length (heap s) < length (heap s') /\
    heap s' !! a' = Some (OConfiguration (n +:+ "(copy)") dw (getLogger (n +:+ "(copy)"))) /\
    copy_wrapped n0 h0 (heap s') (VRef a) (VRef a').
Proof.
  intros IH Hn Hh Hk Ho Hd Hl Hm.
  assert (Hos : heap s !! a = Some (OConfiguration n d c))
    by (eapply prefix_lookup_Some; eassumption).
  destruct (deepcopy_data_wrapped g n0 h0 a m s k n d c IH Hn Hh Hk Ho Hd Hl Hm)
    as (s1 & dy & m1 & E1 & G1 & Hm1 & Hk1 & Kdy & Ldy).
  assert (P1 : heap s `prefix_of` heap s1) by now apply grows_prefix.
  destruct (new_config_wrapped g n0 (n +:+ "(copy)") dy s1 k)
    as (s2 & a' & dw & E2 & G2 & Ea & Hlen & Ho2 & F);
    [apply prefix_length in P1; lia | exact Hk | exact Kdy | now apply Ldy |].
  assert (P2 : heap s1 `prefix_of` heap s2) by now apply grows_prefix.
  exists s2, a', m1, dw. split; [|split; [|split; [|split; [|split; [|split; [|split]]]]]].
  - unfold LoggedConfiguration_deepcopy.
    rewrite (bind_ok _ _ s s (n, d, c)) by (now apply self_config_ok). cbv beta iota.
    erewrite bind_ok by exact E1. cbv beta iota.
    erewrite bind_ok by exact E2. reflexivity.
  - now transitivity s1.
  - eapply memo_ok_prefix; eassumption.
  - exact Hk1.
  - exact Ea.
  - apply prefix_length in P1. lia.
  - exact Ho2.
  - intros [|j] Hj; [discriminate Hj|]. cbn [wrapped_above] in Hj |- *.
    rewrite Ho in Hj. cbn [andb Nat.leb] in Hj. apply andb_prop in Hj as [_ Hj].
    rewrite Ho2. apply andb_true_intro. split.
    { apply Nat.leb_le. apply prefix_length in P1. lia. }
    apply andb_true_intro. split.
    { now rewrite (Forall2_keys _ _ _ F) || rewrite <- (Forall2_keys _ _ _ F). }
    specialize (Ldy j Hj).
    eapply Forall2_forallb; [exact F | | exact Ldy].
    intros x y [_ K] Hx. now apply K.
Qed.

(** Deep-copying a wrapped value succeeds and yields a value as wrapped,
    made of new objects only. *)
Lemma deepcopy_wrapped : forall g, deepcopy_spec g.
Proof.
  induction g as [|g IH]; intros n0 h0 x m s k Hn Hh Hk Hw Hm.
  { assert (k = 0) as -> by lia. discriminate Hw. }
  destruct k as [|k]; [discriminate Hw|]. apply le_S_n in Hk.
  pose proof Hw as Hw0.
  cbn [wrapped_above] in Hw. destruct x as [x|l|l|l|d|a]; try discriminate Hw.
  - exists s, (VAtom x), m.
    split; [reflexivity|]. split; [reflexivity|]. split; [exact Hm|].
    split; [|split; [apply dict_kept_refl | auto]].
    intros [|j] Hj; [discriminate Hj | reflexivity].
  - cbn [andb Nat.leb] in Hw.
    cbn [deepcopy]. destruct (assoc_get (copies m) a) as [y|] eqn:Em.
    { exists s, y, m. split; [reflexivity|]. split; [reflexivity|]. split; [exact Hm|].
      split; [|split; [apply dict_kept_refl | discriminate]].
      destruct Hm as [Hm1 _]. now apply Hm1. }
    destruct (h0 !! a) as [o|] eqn:Ho; [|discriminate Hw].
    assert (Hos : heap s !! a = Some o) by (eapply prefix_lookup_Some; eassumption).
    rewrite Hos.
    destruct o as [n d c|n l c|n l c].
    + apply andb_prop in Hw as [Hd Hl].
      destruct (LoggedConfiguration_deepcopy_wrapped g n0 h0 a m s k n d c IH Hn Hh Hk Ho Hd Hl Hm)
        as (s' & a' & m' & dw & E & G & Hm' & Hk' & _ & _ & _ & C).
      exists s', (VRef a'), (memo_copy m' a (VRef a')).
      split; [now erewrite bind_ok by exact E|]. split; [exact G|].
      split; [now apply memo_ok_copy|]. split; [exact C|].
      split; [|discriminate]. eapply dict_kept_trans; [exact Hk' | apply dict_kept_copy].
    + destruct (LoggedList_deepcopy_wrapped g n0 h0 a m s k n l c IH Hn Hh Hk Ho Hw Hm)
        as (s' & a' & m' & ws & E & G & Hm' & Hk' & Ea & Hlen & Ho' & F).
      assert (C : copy_wrapped n0 h0 (heap s') (VRef a) (VRef a')).
      { intros [|j] Hj; [discriminate Hj|]. cbn [wrapped_above] in Hj |- *.
        rewrite Ho in Hj. cbn [andb Nat.leb] in Hj. rewrite Ho'.
        apply andb_true_intro. split; [apply Nat.leb_le; lia|].
        eapply Forall2_forallb; [exact F | | exact Hj]. intros u v K Hu. now apply K. }
      exists s', (VRef a'), (memo_copy m' a (VRef a')).
      split; [now erewrite bind_ok by exact E|]. split; [exact G|].
      split; [now apply memo_ok_copy|]. split; [exact C|].
      split; [|discriminate]. eapply dict_kept_trans; [exact Hk' | apply dict_kept_copy].
    + apply andb_prop in Hw as [Hl Hd].
      destruct (LoggedSet_deepcopy_wrapped g n0 h0 a m s k n l c Hn Hh Hk Ho Hl Hd)
        as (s' & a' & E & G & Ea & Eh).
      assert (P : heap s `prefix_of` heap s') by now apply grows_prefix.
      assert (C : copy_wrapped n0 h0 (heap s') (VRef a) (VRef a')).
      { intros [|j] Hj; [discriminate Hj|]. cbn [wrapped_above] in Hj |- *.
        rewrite Ho in Hj. cbn [andb Nat.leb] in Hj. rewrite Eh, Ea, lookup_snoc_last.
        apply andb_true_intro. split; [now apply Nat.leb_le|].
        apply andb_prop in Hj as [Hj Hd']. rewrite Hd', andb_true_r.
        rewrite forallb_forall in Hj. apply forallb_forall. intros x Hx.
        specialize (Hj x Hx). apply andb_prop in Hj as [H1 H2]. rewrite H1. cbn [andb].
        destruct x; try discriminate H1. now destruct j. }
      exists s', (VRef a'), (memo_copy m a (VRef a')).
      split; [now erewrite bind_ok by exact E|]. split; [exact G|].
      split; [apply memo_ok_copy; [eapply memo_ok_prefix; eassumption | exact C]|].
      split; [exact C|]. split; [apply dict_kept_copy | discriminate].
Qed.

(** *** What a copy is *)

Lemma extends_deepcopy g : forall x m, steps extends (deepcopy g x m).
Proof.
  induction g as [|g IH]; intros x m; cbn [deepcopy]; [apply steps_raise; typeclasses eauto|].
  assert (Hall : forall l m, steps extends (deepcopy_all (deepcopy g) l m)).
  { induction l as [|y l IHl]; intros m0; cbn [deepcopy_all]; stepping. }
  assert (Hitems : forall d m, steps extends (deepcopy_items (deepcopy g) d m)).
  { induction d as [|[k y] d IHd]; intros m0; cbn [deepcopy_items]; stepping. }
  destruct x as [x|l|l|l|d|a]; try solve [stepping].
  destruct (assoc_get (copies m) a); [stepping|].
  intros s. destruct (heap s !! a) as [[n d c|n l c|n l c]|]; [| | |reflexivity].
  - revert s. apply steps_bind; [typeclasses eauto| |intros [y m']; stepping].
    unfold LoggedConfiguration_deepcopy, deepcopy_data, LoggedConfiguration_new.
    stepping.
  - revert s. apply steps_bind; [typeclasses eauto| |intros [y m']; stepping].
    unfold LoggedList_deepcopy. stepping. destruct acc. stepping.
  - revert s. apply steps_bind; [typeclasses eauto| |intros [y m']; stepping].
    unfold LoggedSet_deepcopy. stepping. destruct acc. stepping.
Qed.

Lemma bind_inv {A B} (m : M A) (k : A -> M B) s s' b :
  bind m k s = (s', Ok b) -> exists s1 a, m s = (s1, Ok a) /\ k a s1 = (s', Ok b).
Proof. unfold bind. destruct (m s) as [s1 [a|e]]; [eauto | discriminate]. Qed.

Lemma steps_inv (R : state -> state -> Prop) {A} (m : M A) s s' r :
  steps R m -> m s = (s', r) -> R s s'.
Proof. intros H E. specialize (H s). now rewrite E in H. Qed.

Lemma steps_run (R : state -> state -> Prop) {A} (m : M A) s s' r :
  m s = (s', r) -> steps R m -> R s s'.
Proof. intros E H. exact (steps_inv R m s s' r H E). Qed.

Lemma is_copy_of_intro o o' :
  class_of o' = class_of o -> obj_name o' = obj_name o +:+ "(copy)" ->
  obj_logger o' = getLogger (obj_name o +:+ "(copy)") -> is_copy_of o o'.
Proof. now repeat split. Qed.

(** Whatever [copy.copy] returns on a logged container is a new object
    of the same class, renamed. *)
Lemma copy_copy_result fuel self s o s' y :
  heap s !! self = Some o ->
  copy_copy fuel (VRef self) s = (s', Ok y) ->
  exists a o', y = VRef a /\ length (heap s) <= a /\ heap s' !! a = Some o' /\
               is_copy_of o o' /\ extends s s'.
Proof.
  intros Ho H. cbn [copy_copy] in H. rewrite Ho in H.
  destruct o as [n d c|n l c|n l c].
  - unfold LoggedConfiguration.__copy__, LoggedConfiguration.__init__ in H.
    rewrite (bind_ok _ _ s s (n, d, c)) in H by (now apply self_config_ok). cbv beta iota in H.
    assert (Hext : extends s s')
      by (apply (steps_run extends _ _ _ _ H); unfold LoggedConfiguration_new; stepping).
    apply LoggedConfiguration_new_result in H as (a & d' & -> & Ha & Ho').
    exists a, (OConfiguration (n +:+ "(copy)") d' (getLogger (n +:+ "(copy)"))).
    repeat apply conj; auto.
  - unfold LoggedList.__copy__, LoggedList.__init__ in H.
    rewrite (bind_ok _ _ s s (n, l, c)) in H by (now apply self_list_ok). cbv beta iota in H.
    assert (Hext : extends s s')
      by (apply (steps_run extends _ _ _ _ H); unfold LoggedList_new; stepping).
    apply LoggedList_new_result in H as (a & d' & -> & Ha & Ho').
    exists a, (OList (n +:+ "(copy)") d' (getLogger (n +:+ "(copy)"))).
    repeat apply conj; auto.
  - unfold LoggedSet.__copy__, LoggedSet.__init__ in H.
    rewrite (bind_ok _ _ s s (n, l, c)) in H by (now apply self_set_ok). cbv beta iota in H.
    assert (Hext : extends s s')
      by (apply (steps_run extends _ _ _ _ H); unfold LoggedSet_new; stepping).
    apply LoggedSet_new_result in H as (a & d' & -> & Ha & Ho').
    exists a, (OSet (n +:+ "(copy)") d' (getLogger (n +:+ "(copy)"))).
    repeat apply conj; auto.
Qed.

Lemma alloc_inv o s s' y :
  alloc o s = (s', Ok y) -> y = VRef (length (heap s)) /\ heap s' = heap s ++ [o].
Proof. unfold alloc. now intros [= <- <-]. Qed.

(** Whatever [copy.deepcopy] returns on a logged container is a new
    object of the same class, renamed. *)
Lemma copy_deepcopy_result fuel self s o s' y :
  heap s !! self = Some o ->
  copy_deepcopy fuel (VRef self) s = (s', Ok y) ->
  exists a o', y = VRef a /\ length (heap s) <= a /\ heap s' !! a = Some o' /\
               is_copy_of o o' /\ extends s s'.
Proof.
  intros Ho H. unfold copy_deepcopy in H.
  apply bind_inv in H as (s1 & [y1 m1] & H & Hret). injection Hret as <- <-.
  pose proof (steps_inv extends _ _ _ _ (extends_deepcopy fuel (VRef self) empty_memo) H) as Hext.
  destruct fuel as [|g]; [discriminate H|].
  cbn [deepcopy empty_memo copies assoc_get] in H. rewrite Ho in H.
  apply bind_inv in H as (s2 & [y2 m2] & H & Hret). injection Hret as <- <- <-.
  destruct o as [n d c|n l c|n l c].
  - unfold LoggedConfiguration_deepcopy in H.
    rewrite (bind_ok _ _ s s (n, d, c)) in H by (now apply self_config_ok). cbv beta iota in H.
    apply bind_inv in H as (s3 & [d' m3] & H3 & H).
    apply bind_inv in H as (s4 & y4 & H4 & Hret). injection Hret as <- <- <-.
    assert (E3 : extends s s3).
    { eapply (steps_inv extends); [|exact H3]. unfold deepcopy_data. stepping.
      apply extends_deepcopy. }
    apply LoggedConfiguration_new_result in H4 as (a & d'' & -> & Ha & Ho').
    exists a, (OConfiguration (n +:+ "(copy)") d'' (getLogger (n +:+ "(copy)"))).
    repeat apply conj; auto.
    apply prefix_length in E3. lia.
  - unfold LoggedList_deepcopy in H.
    rewrite (bind_ok _ _ s s (n, l, c)) in H by (now apply self_list_ok). cbv beta iota in H.
    apply bind_inv in H as (s3 & [ws m3] & H3 & H).
    apply bind_inv in H as (s4 & y4 & H4 & Hret). injection Hret as <- <- <-.
    assert (E3 : extends s s3).
    { eapply (steps_inv extends); [|exact H3]. stepping. destruct acc. stepping.
      apply extends_deepcopy. }
    apply alloc_inv in H4 as [-> Eh].
    exists (length (heap s3)), (OList (n +:+ "(copy)") ws (getLogger (n +:+ "(copy)"))).
    repeat apply conj; auto.
    + now apply prefix_length.
    + rewrite Eh. apply lookup_snoc_last.
  - unfold LoggedSet_deepcopy in H.
    rewrite (bind_ok _ _ s s (n, l, c)) in H by (now apply self_set_ok). cbv beta iota in H.
    apply bind_inv in H as (s3 & [ws m3] & H3 & H).
    apply bind_inv in H as (s4 & y4 & H4 & Hret). injection Hret as <- <- <-.
    assert (E3 : extends s s3).
    { eapply (steps_inv extends); [|exact H3]. stepping. destruct acc. stepping.
      apply extends_deepcopy. }
    apply alloc_inv in H4 as [-> Eh].
    exists (length (heap s3)), (OSet (n +:+ "(copy)") ws (getLogger (n +:+ "(copy)"))).
    repeat apply conj; auto.
    + now apply prefix_length.
    + rewrite Eh. apply lookup_snoc_last.
Qed.

Lemma memo_ok_empty n0 h0 h : memo_ok n0 h0 h empty_memo.
Proof. split; intros a y H; discriminate H. Qed.

(** On a wrapped store the shallow copy returns. *)
Lemma copy_copy_returns fuel self s :
  wrapped_above 0 fuel (heap s) (VRef self) = true ->
  exists s' y, copy_copy fuel (VRef self) s = (s', Ok y).
Proof.
  intros Hw. destruct fuel as [|k]; [discriminate Hw|].
  cbn [wrapped_above] in Hw. cbn [andb Nat.leb] in Hw. cbn [copy_copy].
  destruct (heap s !! self) as [[n d c|n l c|n l c]|] eqn:Ho; [| | |discriminate Hw].
  - apply andb_prop in Hw as [Hd Hl].
    destruct (new_config_wrapped (S k) 0 (n +:+ "(copy)") d s k) as (s' & a & dw & E & _);
      [lia | lia | exact Hd | exact Hl |].
    exists s', (VRef a). unfold LoggedConfiguration.__copy__, LoggedConfiguration.__init__.
    now rewrite (bind_ok _ _ s s (n, d, c)) by (now apply self_config_ok).
  - destruct (wrap_wrapped (S (S k)) 0 (n +:+ "(copy)") (VRef self) s (S k))
      as (s' & y & E & _); [lia | lia | cbn [wrapped_above]; now rewrite Ho |].
    rewrite (wrap_list_ref _ _ _ _ _ _ _ Ho) in E.
    exists s', y. unfold LoggedList.__copy__, LoggedList.__init__.
    now rewrite (bind_ok _ _ s s (n, l, c)) by (now apply self_list_ok).
  - destruct (wrap_wrapped (S (S k)) 0 (n +:+ "(copy)") (VRef self) s (S k))
      as (s' & y & E & _); [lia | lia | cbn [wrapped_above]; now rewrite Ho |].
    rewrite (wrap_set_ref _ _ _ _ _ _ _ Ho) in E.
    exists s', y. unfold LoggedSet.__copy__, LoggedSet.__init__.
    now rewrite (bind_ok _ _ s s (n, l, c)) by (now apply self_set_ok).
Qed.

(** On a wrapped store the deep copy returns, and what it returns is as
    wrapped and made of objects the copy created. *)
Lemma copy_deepcopy_returns fuel x s :
  wrapped_above 0 fuel (heap s) x = true ->
  exists s' y,
    copy_deepcopy fuel x s = (s', Ok y) /\ grows s s' /\
    copy_wrapped (length (heap s)) (heap s) (heap s') x y.
Proof.
  intros Hw.
  destruct (deepcopy_wrapped fuel (length (heap s)) (heap s) x empty_memo s fuel)
    as (s' & y & m' & E & G & _ & C & _); auto using memo_ok_empty.
  exists s', y. split; [|now split].
  unfold copy_deepcopy. now erewrite bind_ok by exact E.
Qed.

(** C7, as stated, fails: [LoggedSet.add] stores a tuple as it is, and
    of a set that holds one neither copy returns, whatever the fuel: the
    constructor of the copy wraps the tuple into a [LoggedList], which a
    set cannot hold, and raises [TypeError]. *)
Lemma copy_of_set_holding_tuple_raises :
  let t := VTuple [VAtom (AInt 1); VAtom (AInt 2)] in
  let s := (LoggedSet.add 0 t (State [OSet "s" [] "s"] [])).1 in
  heap s !! 0 = Some (OSet "s" [t] "s") /\
  ~ (exists fuel deep s' y,
        (if deep : bool then copy_deepcopy fuel (VRef 0) else copy_copy fuel (VRef 0)) s
        = (s', Ok y)) /\
  (copy_copy 3 (VRef 0) s).2 = Raise (TypeError "unhashable type") /\
  (copy_deepcopy 3 (VRef 0) s).2 = Raise (TypeError "unhashable type").
Proof.
  cbv zeta. split; [reflexivity|]. split; [|split; reflexivity].
  intros (fuel & deep & s' & y & H).
  destruct deep; destruct fuel as [|[|[|g]]]; vm_compute in H; discriminate H.
Qed.

(** C7. Whatever a shallow or a deep copy of a logged container returns
    is a new object of the same class whose name is the name of the
    original followed by "(copy)", logging through the logger of that
    name; and on a store in which everything reachable from the container
    is wrapped, nested less deep than the fuel, both copies return.  The
    method [copy] of a [LoggedConfiguration] is one or the other. *)
Theorem copy_is_renamed (fuel : nat) (self : addr) (s : state) (o : obj) (deep : bool) :
  heap s !! self = Some o ->
  let copy := if deep then copy_deepcopy fuel (VRef self) else copy_copy fuel (VRef self) in
  (forall s' y,
      copy s = (s', Ok y) ->
      exists a o', y = VRef a /\ length (heap s) <= a /\ heap s' !! a = Some o' /\
                   is_copy_of o o' /\ extends s s') /\
  (wrapped_above 0 fuel (heap s) (VRef self) = true -> exists s' y, copy s = (s', Ok y)) /\
  (class_of o = CConfiguration -> LoggedConfiguration.copy fuel self deep s = copy s).
Proof.
  intros Ho copy. subst copy. repeat apply conj.
  - intros s' y. destruct deep; [now apply copy_deepcopy_result | now apply copy_copy_result].
  - intros Hw. destruct deep.
    + destruct (copy_deepcopy_returns fuel (VRef self) s Hw) as (s' & y & E & _). eauto.
    + now apply copy_copy_returns.
  - intros Hc. unfold LoggedConfiguration.copy. destruct deep; [reflexivity|].
    cbn [copy_copy]. rewrite Ho. destruct o; try discriminate Hc. reflexivity.
Qed.

(** ** Aliasing *)

#[local] Instance touches_preorder a : PreOrder (touches a).
Proof.
  split.
  - intros s. split; [lia | reflexivity].
  - intros s1 s2 s3 [L1 H1] [L2 H2]. split; [lia|].
    intros b Hb Hlt. rewrite H2 by (auto; lia). now apply H1.
Qed.

Lemma touches_alloc a o : steps (touches a) (alloc o).
Proof.
  intros s. split; cbn.
  - rewrite length_app. lia.
  - intros b _ Hb. now apply lookup_app_l.
Qed.

Lemma touches_store a o : steps (touches a) (store a o).
Proof.
  intros s. split; cbn.
  - now rewrite length_insert.
  - intros b Hb _. apply list_lookup_insert_ne. congruence.
Qed.

Lemma touches_info a ch nm c : steps (touches a) (info ch nm c).
Proof. intros s. split; cbn; [lia | reflexivity]. Qed.

Lemma touches_wrap a fuel n v : steps (touches a) (wrap_logged_config_value fuel n v).
Proof. apply steps_wrap; [typeclasses eauto | apply touches_alloc]. Qed.
#[local] Hint Resolve touches_alloc touches_store touches_info touches_wrap : steps.

(** A logging method changes no object but its receiver. *)
Lemma call_method_touches fuel self c : steps (touches self) (call_method fuel self c).
Proof.
  destruct c; cbn [call_method];
    unfold ignore, LoggedConfiguration.__setitem__, LoggedConfiguration.__delitem__,
      LoggedList.append, LoggedList.insert, LoggedList.remove, LoggedList.pop,
      LoggedList.clear, LoggedList.extend, LoggedSet.add, LoggedSet.update,
      LoggedSet.discard, LoggedSet.remove, LoggedSet.pop, LoggedSet.clear,
      LoggedSet.difference_update, LoggedSet.symmetric_difference_update,
      LoggedSet.toggle_key, LoggedSet.add_key, LoggedSet.discard_key;
    stepping.
Qed.

Lemma dict_get_set acc k' w k :
  dict_get (dict_set acc k' w) k = if String.eqb k' k then Some w else dict_get acc k.
Proof.
  induction acc as [|[k0 w0] acc IH]; [reflexivity|].
  cbn [dict_set]. destruct (String.eqb k0 k') eqn:E0; cbn [dict_get].
  - apply String.eqb_eq in E0. subst k0. now destruct (String.eqb k' k).
  - rewrite IH. destruct (String.eqb k0 k) eqn:E1; [|reflexivity].
    apply String.eqb_eq in E1. subst k0. now rewrite String.eqb_sym, E0.
Qed.

(** The loop of [LoggedConfiguration.__init__] leaves alone the keys it
    does not meet. *)
Lemma init_loop_keeps fuel nm k d : forall acc s s1 r,
  for_each (fun acc kv =>
              w <- wrap_logged_config_value fuel (nm +:+ "." +:+ kv.1) kv.2 ;;
              ret (dict_set acc kv.1 w)) acc d s = (s1, Ok r) ->
  existsb (String.eqb k) (map fst d) = false ->
  dict_get r k = dict_get acc k.
Proof.
  induction d as [|[k0 v0] d IH]; intros acc s s1 r H Hk.
  - now injection H as <- <-.
  - cbn [for_each] in H. apply bind_inv in H as (s2 & acc2 & H1 & H2).
    apply bind_inv in H1 as (s3 & w & _ & Hret). injection Hret as <- <-.
    cbn in Hk. apply orb_false_iff in Hk as [Hk0 Hk].
    rewrite (IH _ _ _ _ H2 Hk), dict_get_set. cbn [fst].
    now rewrite String.eqb_sym, Hk0.
Qed.

(** A value of the data that is a [LoggedConfiguration] is stored in the
    new mapping as it is: the same object. *)
Lemma init_loop_lookup fuel nm k x nx dx cx d : forall acc s s1 r,
  for_each (fun acc kv =>
              w <- wrap_logged_config_value fuel (nm +:+ "." +:+ kv.1) kv.2 ;;
              ret (dict_set acc kv.1 w)) acc d s = (s1, Ok r) ->
  distinct_keys (map fst d) = true ->
  dict_get d k = Some (VRef x) ->
  heap s !! x = Some (OConfiguration nx dx cx) ->
  dict_get r k = Some (VRef x).
Proof.
  induction d as [|[k0 v0] d IH]; intros acc s s1 r H Hd Hk Hx; [discriminate Hk|].
  cbn [for_each] in H. apply bind_inv in H as (s2 & acc2 & H1 & H2).
  apply bind_inv in H1 as (s3 & w & Hw & Hret). injection Hret as <- <-.
  cbn in Hd. apply andb_prop in Hd as [Hk0 Hd]. apply negb_true_iff in Hk0.
  cbn [dict_get] in Hk. cbn [fst snd] in *.
  destruct (String.eqb k0 k) eqn:E.
  - apply String.eqb_eq in E. subst k0. injection Hk as ->.
    destruct fuel as [|g]; [discriminate Hw|].
    rewrite (wrap_config_ref _ _ _ _ _ _ _ Hx) in Hw. injection Hw as <- <-.
    rewrite (init_loop_keeps _ _ _ _ _ _ _ _ H2 Hk0), dict_get_set.
    now rewrite String.eqb_refl.
  - eapply IH; [exact H2 | exact Hd | exact Hk |].
    pose proof (steps_inv extends _ _ _ _ (extends_wrap _ _ _) Hw) as Hext.
    eapply prefix_lookup_Some; eassumption.
Qed.

(** What the loop of [LoggedConfiguration.__init__] stored under each
    key: the result of wrapping the value, at some point of the loop. *)
Lemma init_loop_wraps fuel nm d : forall acc s s1 r,
  for_each (fun acc kv =>
              w <- wrap_logged_config_value fuel (nm +:+ "." +:+ kv.1) kv.2 ;;
              ret (dict_set acc kv.1 w)) acc d s = (s1, Ok r) ->
  distinct_keys (map fst d) = true ->
  forall k v, In (k, v) d ->
    exists sa sb w,
      extends s sa /\
      wrap_logged_config_value fuel (nm +:+ "." +:+ k) v sa = (sb, Ok w) /\
      extends sb s1 /\ dict_get r k = Some w.
Proof.
  induction d as [|[k0 v0] d IH]; intros acc s s1 r H Hd k v Hin; [destruct Hin|].
  cbn [for_each] in H. apply bind_inv in H as (s2 & acc2 & H1 & H2).
  apply bind_inv in H1 as (s3 & w & Hw & Hret). injection Hret as <- <-.
  cbn in Hd. apply andb_prop in Hd as [Hk0 Hd]. apply negb_true_iff in Hk0.
  cbn [fst snd] in *.
  assert (E2 : extends s3 s1) by (apply (steps_run extends _ _ _ _ H2); stepping).
  destruct Hin as [[= -> ->]|Hin].
  - exists s, s3, w. repeat apply conj; [reflexivity | exact Hw | exact E2 |].
    rewrite (init_loop_keeps _ _ _ _ _ _ _ _ H2 Hk0), dict_get_set. now rewrite String.eqb_refl.
  - destruct (IH _ _ _ _ H2 Hd k v Hin) as (sa & sb & w' & Ea & Hw' & Eb & Hg).
    exists sa, sb, w'. repeat apply conj; try assumption.
    etransitivity; [|exact Ea].
    apply (steps_run extends _ _ _ _ Hw). apply extends_wrap.
Qed.

Lemma getitem_ok self k s n d c v :
  heap s !! self = Some (OConfiguration n d c) -> dict_get d k = Some v ->
  LoggedConfiguration.__getitem__ self k s = (s, Ok v).
Proof.
  intros H Hk. unfold LoggedConfiguration.__getitem__.
  rewrite (bind_ok _ _ s s (n, d, c)) by (now apply self_config_ok).
  cbv beta iota. now rewrite Hk.
Qed.

Lemma getitem_inv self k s s' v :
  LoggedConfiguration.__getitem__ self k s = (s', Ok v) ->
  exists n d c, heap s !! self = Some (OConfiguration n d c) /\ dict_get d k = Some v /\ s' = s.
Proof.
  unfold LoggedConfiguration.__getitem__, bind, self_config. intros H.
  destruct (heap s !! self) as [[n d c| |]|]; try discriminate H.
  cbv beta iota in H. destruct (dict_get d k) eqn:E; [|discriminate H].
  injection H as <- <-. eauto 6.
Qed.

Lemma dict_get_In (d : list (string * value)) k v : dict_get d k = Some v -> In (k, v) d.
Proof.
  induction d as [|[k0 w] d IH]; [discriminate|]. cbn.
  destruct (String.eqb k0 k) eqn:E.
  - apply String.eqb_eq in E. intros [= ->]. left. now subst.
  - intros H. right. now apply IH.
Qed.

(** Stores that agree on the objects of the first one. *)
Lemma agree_prefix (h h' : list obj) :
  length h <= length h' -> (forall b, b < length h -> h' !! b = h !! b) -> h `prefix_of` h'.
Proof.
  intros L H. exists (drop (length h) h').
  rewrite <- (take_drop (length h) h') at 1. f_equal.
  apply list_eq. intros i. destruct (decide (i < length h)) as [Hi|Hi].
  - rewrite lookup_take_lt by exact Hi. now rewrite H.
  - rewrite lookup_take_ge by lia. symmetry. apply lookup_ge_None. lia.
Qed.

(** A logging method called on an object created after [s] leaves the
    objects of [s] as they are. *)
Lemma call_method_frame fuel a c s s1 :
  extends s s1 -> length (heap s) <= a -> extends s (call_method fuel a c s1).1.
Proof.
  intros Hext Ha.
  destruct (call_method_touches fuel a c s1) as [L T].
  pose proof (prefix_length _ _ Hext) as Ls.
  apply agree_prefix; [lia|].
  intros b Hb. rewrite T by lia.
  destruct (lookup_lt_is_Some_2 (heap s) b Hb) as [o Ho].
  rewrite Ho. eapply prefix_lookup_Some; eassumption.
Qed.

(** A child that is a [LoggedList] is wrapped again by [__init__], so
    the shallow copy holds a new list, not the list of the original. *)
Lemma shallow_copy_rewraps_list_child :
  ~ (forall fuel m k s s1 cp x n d c,
        heap s !! m = Some (OConfiguration n d c) ->
        distinct_keys (map fst d) = true ->
        dict_get d k = Some (VRef x) ->
        LoggedConfiguration.copy fuel m false s = (s1, Ok (VRef cp)) ->
        LoggedConfiguration.__getitem__ cp k s1 = (s1, Ok (VRef x))).
Proof.
  intros H.
  pose (s := State [OList "m.a" [VAtom (AInt 1)] "m.a"; OConfiguration "m" [("a", VRef 0)] "m"] []).
  specialize (H 3 1 "a" s (LoggedConfiguration.copy 3 1 false s).1 3 0
                "m" [("a", VRef 0)] "m" eq_refl eq_refl eq_refl eq_refl).
  vm_compute in H. discriminate H.
Qed.

(** The same store, run: an [append] on the list reached through the
    shallow copy is not seen through the original. *)
Example shallow_copy_list_child_not_shared :
  let s := State [OList "m.a" [VAtom (AInt 1)] "m.a"; OConfiguration "m" [("a", VRef 0)] "m"] [] in
  (cp <- LoggedConfiguration.copy 3 1 false ;;
   match cp with
   | VRef cp =>
       x <- LoggedConfiguration.__getitem__ cp "a" ;;
       match x with
       | VRef x =>
           LoggedList.append 3 x (VAtom (AInt 2)) ;;;
           original <- LoggedConfiguration.to_dict 3 1 ;;
           copied <- LoggedConfiguration.to_dict 3 cp ;;
           ret (original, copied)
       | _ => raise OutOfModel
       end
   | _ => raise OutOfModel
   end) s
  = (((cp <- LoggedConfiguration.copy 3 1 false ;;
       match cp with
       | VRef cp =>
           x <- LoggedConfiguration.__getitem__ cp "a" ;;
           match x with
           | VRef x => LoggedList.append 3 x (VAtom (AInt 2))
           | _ => raise OutOfModel
           end
       | _ => raise OutOfModel
       end) s).1,
     Ok (VDict [("a", VList [VAtom (AInt 1)])],
         VDict [("a", VList [VAtom (AInt 1); VAtom (AInt 2)])])).
Proof. reflexivity. Qed.

(** C3. [__copy__] hands [_data] to [__init__], which passes every
    value through the wrapping function again.  So a shallow copy of a
    mapping [M] shares with [M] the children that are
    [LoggedConfiguration]s, and only those: under the key of a child that
    is a [LoggedList] or a [LoggedSet] the copy holds another object, of
    the same class, created by the copy, while [M] still holds the child;
    a logging method called on the object reached through the copy leaves
    every object of the original store, the child among them, as it was.
    A deep copy of a well-formed [M] returns a mapping all of whose
    objects, at any depth, were created by the copy; a logging method
    called on any such object leaves the objects of the original store as
    they were. *)
Theorem shallow_copy_shares_mappings_only
    (fuel : nat) (m : addr) (s : state) (n : string) (d : list (string * value)) (c : string)
    (k : string) (x : addr) (o : obj) :
  heap s !! m = Some (OConfiguration n d c) ->
  distinct_keys (map fst d) = true ->
  dict_get d k = Some (VRef x) ->
  heap s !! x = Some o ->
  (forall s1 y, LoggedConfiguration.copy fuel m false s = (s1, Ok y) ->
     exists cp x', y = VRef cp /\ length (heap s) <= cp /\
       heap s1 !! x = Some o /\
       LoggedConfiguration.__getitem__ m k s1 = (s1, Ok (VRef x)) /\
       LoggedConfiguration.__getitem__ cp k s1 = (s1, Ok (VRef x')) /\
       (class_of o = CConfiguration -> x' = x) /\
       (class_of o <> CConfiguration ->
          x' <> x /\ length (heap s) <= x' /\
          (exists o', heap s1 !! x' = Some o' /\ class_of o' = class_of o /\
                      obj_name o' = (n +:+ "(copy)") +:+ "." +:+ k) /\
          forall fuel' call, extends s (call_method fuel' x' call s1).1)) /\
  (wrapped_above 0 fuel (heap s) (VRef m) = true ->
     (exists s1 y, LoggedConfiguration.copy fuel m false s = (s1, Ok y)) /\
     exists s1 cp,
       LoggedConfiguration.copy fuel m true s = (s1, Ok (VRef cp)) /\
       extends s s1 /\
       wrapped_above (length (heap s)) fuel (heap s1) (VRef cp) = true /\
       (forall k' x', LoggedConfiguration.__getitem__ cp k' s1 = (s1, Ok (VRef x')) ->
                      length (heap s) <= x') /\
       (forall fuel' a call, length (heap s) <= a ->
                             extends s (call_method fuel' a call s1).1)).
Proof.
  intros Hm Hd Hk Hx. split.
  - intros s1 y H. cbn [LoggedConfiguration.copy] in H.
    unfold LoggedConfiguration.__copy__, LoggedConfiguration.__init__ in H.
    rewrite (bind_ok _ _ s s (n, d, c)) in H by (now apply self_config_ok).
    cbv beta iota in H.
    assert (Hext : extends s s1)
      by (apply (steps_run extends _ _ _ _ H); unfold LoggedConfiguration_new; stepping).
    unfold LoggedConfiguration_new in H.
    apply bind_inv in H as (s2 & r & Hloop & Halloc).
    destruct (init_loop_wraps _ _ _ _ _ _ _ Hloop Hd _ _ (dict_get_In _ _ _ Hk))
      as (sa & sb & w & Ea & Hw & Eb & Hr).
    apply alloc_inv in Halloc as (-> & Eh).
    assert (He2 : extends s s2) by (apply (steps_run extends _ _ _ _ Hloop); stepping).
    assert (Hb1 : extends sb s1).
    { etransitivity; [exact Eb|]. unfold extends. rewrite Eh. now apply prefix_app_r. }
    assert (Hm1 : heap s1 !! m = Some (OConfiguration n d c))
      by (eapply prefix_lookup_Some; eassumption).
    assert (Hx1 : heap s1 !! x = Some o) by exact (prefix_lookup_Some _ _ _ _ Hx Hext).
    assert (Hxa : heap sa !! x = Some o) by exact (prefix_lookup_Some _ _ _ _ Hx Ea).
    assert (Hc1 : heap s1 !! length (heap s2)
                  = Some (OConfiguration (n +:+ "(copy)") r (getLogger (n +:+ "(copy)"))))
      by (rewrite Eh; apply lookup_snoc_last).
    pose proof (getitem_ok _ k _ _ _ _ _ Hm1 Hk) as Gm.
    pose proof (prefix_length _ _ He2) as L2.
    pose proof (prefix_length _ _ Ea) as La.
    assert (Lx : x < length (heap s)) by (eapply lookup_lt_Some; eassumption).
    apply wrap_result in Hw. cbn [as_list_or_tuple as_set as_dict] in Hw. rewrite Hxa in Hw.
    destruct o as [nx dx cx|nx lx cx|nx lx cx]; cbn in Hw.
    + destruct Hw as [-> _].
      pose proof (getitem_ok _ k _ _ _ _ _ Hc1 Hr) as Gc.
      exists (length (heap s2)), x. repeat apply conj; auto.
      intros Hc. now contradiction Hc.
    + destruct Hw as (a & l' & -> & Ha & Hl).
      pose proof (getitem_ok _ k _ _ _ _ _ Hc1 Hr) as Gc.
      exists (length (heap s2)), a. repeat apply conj; auto.
      * intros Hc. discriminate Hc.
      * intros _. repeat apply conj; [lia | lia | | ].
        -- eexists. split; [eapply prefix_lookup_Some; [exact Hl | exact Hb1]|]. now split.
        -- intros fuel' call. apply call_method_frame; [exact Hext | lia].
    + destruct Hw as (a & l' & -> & Ha & Hl).
      pose proof (getitem_ok _ k _ _ _ _ _ Hc1 Hr) as Gc.
      exists (length (heap s2)), a. repeat apply conj; auto.
      * intros Hc. discriminate Hc.
      * intros _. repeat apply conj; [lia | lia | | ].
        -- eexists. split; [eapply prefix_lookup_Some; [exact Hl | exact Hb1]|]. now split.
        -- intros fuel' call. apply call_method_frame; [exact Hext | lia].
  - intros Hw. split.
    + destruct (copy_copy_returns _ _ _ Hw) as (s1 & y & E). exists s1, y.
      cbn [copy_copy] in E. now rewrite Hm in E.
    + destruct (copy_deepcopy_returns _ _ _ Hw) as (s1 & y & E & G & C).
      destruct (copy_deepcopy_result _ _ _ _ _ _ Hm E) as (cp & o' & -> & Hcp & Ho' & _ & Hext).
      pose proof (C fuel Hw) as Hwc.
      exists s1, cp. repeat apply conj; auto.
      * intros k' x' Hv. apply getitem_inv in Hv as (n' & d' & c' & Hcp' & Hv & _).
        destruct fuel as [|g]; [discriminate Hwc|].
        cbn [wrapped_above] in Hwc. rewrite Hcp' in Hwc.
        apply andb_prop in Hwc as [_ Hwc]. apply andb_prop in Hwc as [_ Hall].
        rewrite forallb_forall in Hall. specialize (Hall _ (dict_get_In _ _ _ Hv)).
        cbn [snd] in Hall.
        destruct g as [|g']; [discriminate Hall|].
        cbn [wrapped_above] in Hall. apply andb_prop in Hall as [Hle _].
        now apply Nat.leb_le in Hle.
      * intros fuel' a call Ha. now apply call_method_frame.
Qed.

(** ** The theorems at work *)

(** A set of integers and a list inside a dict come back as they
    were. *)
Lemma round_trip_plain_data_witness :
  let d := [("a", VList [VAtom (AInt 1); VAtom (AInt 2)]); ("b", VSet [VAtom (AInt 3)])] in
  let s := State [] [] in
  python_value (VDict d) = true /\
  (round_trip 5 "cfg" d s).2 = Ok (VDict d) /\
  py_eq 5 (heap (round_trip 5 "cfg" d s).1) (VDict d) (VDict d) = Some true.
Proof.
  split; [reflexivity|].
  exact (proj2 (round_trip_plain_data 5 "cfg"
                  [("a", VList [VAtom (AInt 1); VAtom (AInt 2)]); ("b", VSet [VAtom (AInt 3)])]
                  (State [] []) eq_refl ltac:(vm_compute; lia)) eq_refl).
Defined.

(** A mapping with a child mapping under ["a"] and a child list under
    ["b"]: the shallow copy holds the very child mapping and another
    list, and an [append] to that list leaves the original store alone. *)
Lemma shallow_copy_shares_mappings_only_witness :
  let s := State [OConfiguration "m.a" [("b", VAtom (AInt 1))] "m.a";
                  OList "m.b" [VAtom (AInt 1)] "m.b";
                  OConfiguration "m" [("a", VRef 0); ("b", VRef 1)] "m"] [] in
  exists s1 cp b,
    LoggedConfiguration.copy 3 2 false s = (s1, Ok (VRef cp)) /\
    LoggedConfiguration.__getitem__ cp "a" s1 = (s1, Ok (VRef 0)) /\
    LoggedConfiguration.__getitem__ cp "b" s1 = (s1, Ok (VRef b)) /\
    b <> 1 /\
    extends s (call_method 3 b (ListAppend (VAtom (AInt 2))) s1).1.
Proof.
  pose (s := State [OConfiguration "m.a" [("b", VAtom (AInt 1))] "m.a";
                    OList "m.b" [VAtom (AInt 1)] "m.b";
                    OConfiguration "m" [("a", VRef 0); ("b", VRef 1)] "m"] []).
  destruct (shallow_copy_shares_mappings_only
              3 2 s "m" [("a", VRef 0); ("b", VRef 1)] "m" "a" 0
              (OConfiguration "m.a" [("b", VAtom (AInt 1))] "m.a")
              eq_refl eq_refl eq_refl eq_refl) as [Ha Hdeep].
  destruct (shallow_copy_shares_mappings_only
              3 2 s "m" [("a", VRef 0); ("b", VRef 1)] "m" "b" 1
              (OList "m.b" [VAtom (AInt 1)] "m.b")
              eq_refl eq_refl eq_refl eq_refl) as [Hb _].
  destruct (Hdeep eq_refl) as [(s1 & y & E) _].
  destruct (Ha _ _ E) as (cp & a' & -> & _ & _ & _ & Ga & Hsame & _).
  destruct (Hb _ _ E) as (cp' & b & Ecp & _ & _ & _ & Gb & _ & Hother).
  injection Ecp as <-.
  rewrite (Hsame eq_refl) in Ga.
  destruct (Hother ltac:(discriminate)) as (Hne & _ & _ & Hframe).
  exists s1, cp, b. repeat apply conj; auto.
Defined.

(** Wrapping a list of two integers in an empty store. *)
Lemma wrap_logged_config_value_spec_witness :
  let v := VList [VAtom (AInt 1); VAtom (AInt 2)] in
  exists s' w,
    wrap_logged_config_value 2 "n" v (State [] []) = (s', Ok w) /\
    grows (State [] []) s' /\ flattens (heap s') w (detuple v).
Proof.
  exact (proj1 (proj2 (wrap_logged_config_value_spec
                         2 "n" (VList [VAtom (AInt 1); VAtom (AInt 2)]) (State [] [])))
           eq_refl eq_refl ltac:(vm_compute; lia)).
Defined.

(** The key ["a"] of a mapping, as attribute and as item. *)
Lemma getattr_getitem_witness :
  let s := State [OConfiguration "n" [("a", VAtom (AInt 1))] "n"] [] in
  LoggedConfiguration.getattr (fun _ => false) 0 "a" s
  = (s, Ok (LoggedConfiguration.Field (VAtom (AInt 1)))) /\
  LoggedConfiguration.__getitem__ 0 "a" s = (s, Ok (VAtom (AInt 1))) /\
  LoggedConfiguration.getattr (fun _ => false) 0 "b" s = (s, Raise AttributeError) /\
  LoggedConfiguration.__getitem__ 0 "b" s = (s, Raise KeyError).
Proof.
  pose proof (getattr_getitem (fun _ => false) 0 "a"
                (State [OConfiguration "n" [("a", VAtom (AInt 1))] "n"] [])
                "n" [("a", VAtom (AInt 1))] "n" eq_refl eq_refl eq_refl eq_refl) as [Ha _].
  pose proof (getattr_getitem (fun _ => false) 0 "b"
                (State [OConfiguration "n" [("a", VAtom (AInt 1))] "n"] [])
                "n" [("a", VAtom (AInt 1))] "n" eq_refl eq_refl eq_refl eq_refl) as (_ & Hb & _).
  destruct (Ha _ eq_refl) as (A1 & _ & A3).
  destruct (Hb eq_refl) as (B1 & _ & B3).
  repeat apply conj; assumption.
Defined.

(** The shallow copy of the list ["l"]. *)
Lemma copy_is_renamed_witness :
  let s := State [OList "l" [VAtom (AInt 1)] "l"] [] in
  exists s' a o',
    copy_copy 3 (VRef 0) s = (s', Ok (VRef a)) /\
    heap s' !! a = Some o' /\ obj_name o' = "l(copy)".
Proof.
  pose proof (copy_is_renamed 3 0 (State [OList "l" [VAtom (AInt 1)] "l"] [])
                (OList "l" [VAtom (AInt 1)] "l") false eq_refl) as H.
  cbv zeta iota in H. destruct H as (H1 & H2 & _).
  destruct (H2 eq_refl) as (s' & y & E).
  destruct (H1 _ _ E) as (a & o' & -> & _ & Ho' & (_ & Hn & _) & _).
  exists s', a, o'. auto.
Defined.


(** Removing a value the list does not hold fails and leaves the list. *)
Lemma failed_call_leaves_contents_witness :
  let s := State [OList "l" [VAtom (AInt 1)] "l"] [] in
  (call_method 1 0 (ListRemove (VAtom (AInt 2))) s).2 = Raise ValueError /\
  extends s (call_method 1 0 (ListRemove (VAtom (AInt 2))) s).1.
Proof.
  split; [reflexivity|].
  exact (failed_call_leaves_contents 1 0 (ListRemove (VAtom (AInt 2)))
           (State [OList "l" [VAtom (AInt 1)] "l"] []) (OList "l" [VAtom (AInt 1)] "l")
           ValueError eq_refl eq_refl eq_refl I eq_refl).
Defined.

(** [self.b = [1]] on the mapping ["n"]: the item assignment. *)
Lemma setattr_reserved_or_item_witness :
  let s := State [OConfiguration "n" [("a", VAtom (AInt 1))] "n"] [] in
  let r := LoggedConfiguration.__setattr__ 2 0 "b" (VList [VAtom (AInt 1)]) s in
  r = LoggedConfiguration.__setitem__ 2 0 "b" (VList [VAtom (AInt 1)]) s /\
  (exists rest,
      trace r.1 = trace s ++ Logged (LogRecord "n" "n" (LogSetting "b" (VList [VAtom (AInt 1)]))) :: rest /\
      Forall (fun e => is_logged e = false) rest) /\
  quiet s (LoggedConfiguration.__setattr__ 2 0 "_name" (VAtom (AStr "x")) s).1.
Proof.
  pose proof (setattr_reserved_or_item 2 0 "b" (VList [VAtom (AInt 1)])
                (State [OConfiguration "n" [("a", VAtom (AInt 1))] "n"] [])
                "n" [("a", VAtom (AInt 1))] "n" eq_refl) as H.
  pose proof (setattr_reserved_or_item 2 0 "_name" (VAtom (AStr "x"))
                (State [OConfiguration "n" [("a", VAtom (AInt 1))] "n"] [])
                "n" [("a", VAtom (AInt 1))] "n" eq_refl) as H'.
  cbv zeta in H, H'. destruct H as (_ & _ & _ & _ & _ & H). destruct H' as (H' & _).
  destruct (H eq_refl) as (H1 & H2 & _).
  repeat apply conj; [exact H1 | exact H2 | exact (H' eq_refl)].
Defined.

(** * Further properties *)

(** ** Construction and copying only create objects *)

Lemma allocates_deepcopy g : forall x m, steps grows (deepcopy g x m).
Proof.
  induction g as [|g IH]; intros x m; cbn [deepcopy]; [apply steps_raise; typeclasses eauto|].
  assert (Hall : forall l m, steps grows (deepcopy_all (deepcopy g) l m)).
  { induction l as [|y l IHl]; intros m0; cbn [deepcopy_all]; stepping. }
  assert (Hitems : forall d m, steps grows (deepcopy_items (deepcopy g) d m)).
  { induction d as [|[k y] d IHd]; intros m0; cbn [deepcopy_items]; stepping. }
  destruct x as [x|l|l|l|d|a]; try solve [stepping].
  destruct (assoc_get (copies m) a); [stepping|].
  intros s. destruct (heap s !! a) as [[n d c|n l c|n l c]|]; [| | |reflexivity].
  - revert s. apply steps_bind; [typeclasses eauto| |intros [y m']; stepping].
    unfold LoggedConfiguration_deepcopy, deepcopy_data, LoggedConfiguration_new.
    stepping.
  - revert s. apply steps_bind; [typeclasses eauto| |intros [y m']; stepping].
    unfold LoggedList_deepcopy. stepping. destruct acc. stepping.
  - revert s. apply steps_bind; [typeclasses eauto| |intros [y m']; stepping].
    unfold LoggedSet_deepcopy. stepping. destruct acc. stepping.
Qed.

(** X1. The three constructors, the wrapping function, [copy.copy],
    [copy.deepcopy] and [LoggedConfiguration.copy] send no log record and
    change no object of the store: whether they return or raise, the
    store afterwards is the store before followed by the objects they
    created, and the trace is the same. *)
Theorem construction_and_copy_only_allocate (fuel : nat) :
  (forall n d, allocates (LoggedConfiguration.__init__ fuel n d)) /\
  (forall n l, allocates (LoggedList.__init__ fuel n l)) /\
  (forall n l, allocates (LoggedSet.__init__ fuel n l)) /\
  (forall n v, allocates (wrap_logged_config_value fuel n v)) /\
  (forall x, allocates (copy_copy fuel x)) /\
  (forall x, allocates (copy_deepcopy fuel x)) /\
  (forall self deep, allocates (LoggedConfiguration.copy fuel self deep)).
Proof.
  assert (Hcopy : forall x, allocates (copy_copy fuel x)).
  { intros x. unfold allocates.
    destruct x as [x|l|l|l|d|a]; try (cbn [copy_copy]; solve [stepping]).
    intros s. cbn [copy_copy].
    destruct (heap s !! a) as [[n d c|n l c|n l c]|]; [| | |reflexivity]; revert s.
    - unfold LoggedConfiguration.__copy__, LoggedConfiguration.__init__, LoggedConfiguration_new.
      stepping.
    - unfold LoggedList.__copy__, LoggedList.__init__, LoggedList_new. stepping.
    - unfold LoggedSet.__copy__, LoggedSet.__init__, LoggedSet_new. stepping. }
  assert (Hdeep : forall x, allocates (copy_deepcopy fuel x)).
  { intros x. unfold allocates, copy_deepcopy.
    apply steps_bind; [typeclasses eauto | apply allocates_deepcopy | intros [y m]; stepping]. }
  repeat apply conj; try assumption.
  - intros n d. unfold LoggedConfiguration.__init__, LoggedConfiguration_new. stepping.
  - intros n l. unfold LoggedList.__init__, LoggedList_new. stepping.
  - intros n l. unfold LoggedSet.__init__, LoggedSet_new. stepping.
  - intros n v. apply allocates_wrap.
  - intros self [|]; cbn [LoggedConfiguration.copy]; [apply Hdeep|].
    unfold LoggedConfiguration.__copy__, LoggedConfiguration.__init__, LoggedConfiguration_new.
    stepping.
Qed.

(** ** Item assignment, lookup and deletion *)

Lemma dict_set_keys d k w :
  map fst (dict_set d k w)
  = match dict_get d k with Some _ => map fst d | None => map fst d ++ [k] end.
Proof.
  induction d as [|[k0 w0] d IH]; [reflexivity|].
  cbn [dict_set dict_get]. destruct (String.eqb k0 k) eqn:E; [reflexivity|].
  cbn [map fst]. rewrite IH. now destruct (dict_get d k).
Qed.

Lemma dict_get_del_other d k k' : k' <> k -> dict_get (dict_del d k) k' = dict_get d k'.
Proof.
  intros Hk. induction d as [|[k0 w0] d IH]; [reflexivity|].
  cbn [dict_del dict_get]. destruct (String.eqb k0 k) eqn:E.
  - apply String.eqb_eq in E. subst k0.
    destruct (String.eqb k k') eqn:E'; [|reflexivity].
    apply String.eqb_eq in E'. congruence.
  - cbn [dict_get]. now rewrite IH.
Qed.

Lemma dict_get_absent d k :
  existsb (String.eqb k) (map fst d) = false -> dict_get d k = None.
Proof.
  induction d as [|[k0 w0] d IH]; [reflexivity|]. cbn.
  intros H. apply orb_false_iff in H as [H1 H2].
  rewrite String.eqb_sym, H1. now apply IH.
Qed.

Lemma dict_get_del_same d k :
  distinct_keys (map fst d) = true -> dict_get (dict_del d k) k = None.
Proof.
  induction d as [|[k0 w0] d IH]; [reflexivity|]. cbn.
  intros H. apply andb_prop in H as [H1 H2]. apply negb_true_iff in H1.
  destruct (String.eqb k0 k) eqn:E.
  - apply String.eqb_eq in E. subst k0. now apply dict_get_absent.
  - cbn. rewrite E. now apply IH.
Qed.

Lemma dict_del_length d k v : dict_get d k = Some v -> S (length (dict_del d k)) = length d.
Proof.
  induction d as [|[k0 w0] d IH]; [discriminate|]. cbn.
  destruct (String.eqb k0 k); [reflexivity|]. intros H. cbn. now rewrite IH.
Qed.

(** What a returning item assignment did: the record, the wrapping, then
    the store of the wrapped value under the key. *)
Lemma setitem_inv fuel self k v s s' n d c :
  heap s !! self = Some (OConfiguration n d c) ->
  LoggedConfiguration.__setitem__ fuel self k v s = (s', Ok tt) ->
  exists s1 w,
    wrap_logged_config_value fuel (n +:+ "." +:+ k) v (info c n (LogSetting k v) s).1 = (s1, Ok w) /\
    extends s s1 /\
    s' = State (<[self := OConfiguration n (dict_set d k w) c]> (heap s1))
               (trace s1 ++ [Mutated self]).
Proof.
  intros Ho H. unfold LoggedConfiguration.__setitem__ in H.
  rewrite (bind_ok _ _ s s (n, d, c)) in H by (now apply self_config_ok). cbv beta iota in H.
  rewrite (bind_ok _ _ s (info c n (LogSetting k v) s).1 tt) in H by reflexivity.
  apply bind_inv in H as (s1 & w & Hw & H).
  assert (Hext : extends s s1).
  { change (extends (info c n (LogSetting k v) s).1 s1).
    apply (steps_run extends _ _ _ _ Hw). apply extends_wrap. }
  assert (Ho1 : heap s1 !! self = Some (OConfiguration n d c))
    by (eapply prefix_lookup_Some; eassumption).
  rewrite (bind_ok _ _ s1 s1 (n, d, c)) in H by (now apply self_config_ok). cbv beta iota in H.
  unfold store in H. injection H as <-. eauto.
Qed.

Lemma wrap_atom_fuel fuel n v s :
  is_atom v = true -> 0 < fuel -> wrap_logged_config_value fuel n v s = (s, Ok v).
Proof.
  intros Hv Hf. destruct fuel as [|g]; [lia|]. now destruct v.
Qed.

Lemma wrap_atom_inv fuel n v s s' w :
  is_atom v = true -> wrap_logged_config_value fuel n v s = (s', Ok w) -> w = v /\ s' = s.
Proof.
  intros Hv H. destruct fuel as [|g]; [discriminate H|].
  destruct v; try discriminate Hv. cbn in H. now injection H as <- <-.
Qed.

Lemma contains_key_ok self k s n d c :
  heap s !! self = Some (OConfiguration n d c) ->
  LoggedConfiguration.__contains__ self (VAtom (AStr k)) s
  = (s, Ok (bool_decide (is_Some (dict_get d k)))).
Proof.
  intros H. unfold LoggedConfiguration.__contains__.
  now rewrite (bind_ok _ _ s s (n, d, c)) by (now apply self_config_ok).
Qed.

Lemma getitem_result self k s n d c :
  heap s !! self = Some (OConfiguration n d c) ->
  LoggedConfiguration.__getitem__ self k s
  = (s, match dict_get d k with Some v => Ok v | None => Raise KeyError end).
Proof.
  intros H. unfold LoggedConfiguration.__getitem__.
  rewrite (bind_ok _ _ s s (n, d, c)) by (now apply self_config_ok).
  cbv beta iota. now destruct (dict_get d k).
Qed.

(** X2. After an item assignment that returned, the key is in the
    mapping and looks up to the value the wrapping function returned (the
    assigned value itself when it is not a container); every other key
    looks up as before; a new key comes last in the iteration order and an
    existing key keeps its place.  An assignment of a value that is not a
    container always returns. *)
Theorem setitem_then_getitem
    (fuel : nat) (self : addr) (k : string) (v : value) (s : state)
    (n : string) (d : list (string * value)) (c : string) :
  heap s !! self = Some (OConfiguration n d c) ->
  (forall s',
      LoggedConfiguration.__setitem__ fuel self k v s = (s', Ok tt) ->
      exists w,
        LoggedConfiguration.__getitem__ self k s' = (s', Ok w) /\
        LoggedConfiguration.__contains__ self (VAtom (AStr k)) s' = (s', Ok true) /\
        (is_atom v = true -> w = v) /\
        (forall k', k' <> k ->
           (LoggedConfiguration.__getitem__ self k' s').2
           = (LoggedConfiguration.__getitem__ self k' s).2) /\
        LoggedConfiguration.__iter__ self s'
        = (s', Ok match dict_get d k with
                  | Some _ => map fst d
                  | None => map fst d ++ [k]
                  end)) /\
  (is_atom v = true -> 0 < fuel ->
   exists s', LoggedConfiguration.__setitem__ fuel self k v s = (s', Ok tt)).
Proof.
  intros Ho. split.
  - intros s' H.
    destruct (setitem_inv _ _ _ _ _ _ _ _ _ Ho H) as (s1 & w & Hw & Hext & ->).
    assert (Hlen : self < length (heap s1)).
    { apply lookup_lt_is_Some. exists (OConfiguration n d c).
      eapply prefix_lookup_Some; eassumption. }
    set (s' := State _ _).
    assert (Ho' : heap s' !! self = Some (OConfiguration n (dict_set d k w) c))
      by (now apply list_lookup_insert_eq).
    exists w. repeat apply conj.
    + rewrite (getitem_result _ _ _ _ _ _ Ho'), dict_get_set. now rewrite String.eqb_refl.
    + rewrite (contains_key_ok _ _ _ _ _ _ Ho'), dict_get_set, String.eqb_refl.
      reflexivity.
    + intros Hv. now destruct (wrap_atom_inv _ _ _ _ _ _ Hv Hw).
    + intros k' Hk. rewrite (getitem_result _ _ _ _ _ _ Ho'), (getitem_result _ _ _ _ _ _ Ho).
      cbn [snd]. rewrite dict_get_set.
      destruct (String.eqb k k') eqn:E; [|reflexivity].
      apply String.eqb_eq in E. congruence.
    + unfold LoggedConfiguration.__iter__.
      rewrite (bind_ok _ _ s' s' (n, dict_set d k w, c)) by (now apply self_config_ok).
      cbv beta iota. now rewrite dict_set_keys.
  - intros Hv Hf. unfold LoggedConfiguration.__setitem__.
    rewrite (bind_ok _ _ s s (n, d, c)) by (now apply self_config_ok). cbv beta iota.
    rewrite (bind_ok _ _ s (info c n (LogSetting k v) s).1 tt) by reflexivity.
    rewrite (bind_ok _ _ _ _ _ (wrap_atom_fuel fuel _ v _ Hv Hf)).
    rewrite (bind_ok _ _ _ (info c n (LogSetting k v) s).1 (n, d, c))
      by (now apply self_config_ok).
    cbv beta iota. eauto.
Qed.

Lemma setitem_then_getitem_witness :
  let s := State [OConfiguration "n" [("a", VAtom (AInt 1))] "n"] [] in
  exists s',
    LoggedConfiguration.__setitem__ 1 0 "b" (VAtom (AInt 2)) s = (s', Ok tt) /\
    LoggedConfiguration.__getitem__ 0 "b" s' = (s', Ok (VAtom (AInt 2))) /\
    LoggedConfiguration.__iter__ 0 s' = (s', Ok ["a"; "b"]).
Proof.
  destruct (setitem_then_getitem 1 0 "b" (VAtom (AInt 2))
              (State [OConfiguration "n" [("a", VAtom (AInt 1))] "n"] [])
              "n" [("a", VAtom (AInt 1))] "n" eq_refl) as [Hget Hret].
  destruct (Hret eq_refl ltac:(lia)) as (s' & E).
  destruct (Hget _ E) as (w & G & _ & Hw & _ & I).
  rewrite (Hw eq_refl) in G. exists s'. auto.
Defined.

(** X3. Deleting a key of the mapping returns; afterwards the key is
    gone (lookup raises [KeyError], the membership test is false), the
    mapping is one shorter and every other key looks up as before.
    Deleting a key that is not there raises [KeyError] after the record
    was sent, and changes no object. *)
Theorem delitem_removes_key
    (self : addr) (k : string) (s : state)
    (n : string) (d : list (string * value)) (c : string) :
  heap s !! self = Some (OConfiguration n d c) ->
  distinct_keys (map fst d) = true ->
  let r := LoggedConfiguration.__delitem__ self k s in
  (forall v, dict_get d k = Some v ->
     r.2 = Ok tt /\
     (LoggedConfiguration.__getitem__ self k r.1).2 = Raise KeyError /\
     (LoggedConfiguration.__contains__ self (VAtom (AStr k)) r.1).2 = Ok false /\
     (LoggedConfiguration.__len__ self r.1).2 = Ok (length d - 1) /\
     (forall k', k' <> k ->
        (LoggedConfiguration.__getitem__ self k' r.1).2
        = (LoggedConfiguration.__getitem__ self k' s).2)) /\
  (dict_get d k = None ->
     r.2 = Raise KeyError /\ heap r.1 = heap s /\
     trace r.1 = trace s ++ [Logged (LogRecord c n (LogRemovingKey k))]).
Proof.
  intros Ho Hd r. subst r. unfold LoggedConfiguration.__delitem__.
  rewrite (bind_ok _ _ s s (n, d, c)) by (now apply self_config_ok). cbv beta iota.
  rewrite (bind_ok _ _ s (info c n (LogRemovingKey k) s).1 tt) by reflexivity.
  assert (Hlen : self < length (heap s)) by (eapply lookup_lt_Some; eassumption).
  split.
  - intros v Hv. rewrite Hv. unfold store. cbn [fst snd].
    set (s' := State _ _).
    assert (Ho' : heap s' !! self = Some (OConfiguration n (dict_del d k) c))
      by (now apply list_lookup_insert_eq).
    repeat apply conj.
    + reflexivity.
    + rewrite (getitem_result _ _ _ _ _ _ Ho'). cbn [snd]. now rewrite dict_get_del_same.
    + rewrite (contains_key_ok _ _ _ _ _ _ Ho'). cbn [snd]. now rewrite dict_get_del_same.
    + unfold LoggedConfiguration.__len__.
      rewrite (bind_ok _ _ s' s' (n, dict_del d k, c)) by (now apply self_config_ok).
      cbn. f_equal. pose proof (dict_del_length _ _ _ Hv). lia.
    + intros k' Hk. rewrite (getitem_result _ _ _ _ _ _ Ho'), (getitem_result _ _ _ _ _ _ Ho).
      cbn [snd]. now rewrite dict_get_del_other.
  - intros Hv. rewrite Hv. now cbn.
Qed.

Lemma delitem_removes_key_witness :
  let s := State [OConfiguration "n" [("a", VAtom (AInt 1)); ("b", VAtom (AInt 2))] "n"] [] in
  (LoggedConfiguration.__delitem__ 0 "a" s).2 = Ok tt /\
  (LoggedConfiguration.__getitem__ 0 "a" (LoggedConfiguration.__delitem__ 0 "a" s).1).2
  = Raise KeyError /\
  (LoggedConfiguration.__delitem__ 0 "c" s).2 = Raise KeyError.
Proof.
  pose proof (delitem_removes_key 0 "a"
                (State [OConfiguration "n" [("a", VAtom (AInt 1)); ("b", VAtom (AInt 2))] "n"] [])
                "n" [("a", VAtom (AInt 1)); ("b", VAtom (AInt 2))] "n" eq_refl eq_refl) as Ha.
  pose proof (delitem_removes_key 0 "c"
                (State [OConfiguration "n" [("a", VAtom (AInt 1)); ("b", VAtom (AInt 2))] "n"] [])
                "n" [("a", VAtom (AInt 1)); ("b", VAtom (AInt 2))] "n" eq_refl eq_refl) as Hc.
  cbv zeta in Ha, Hc. destruct Ha as [Ha _]. destruct Hc as [_ Hc].
  destruct (Ha _ eq_refl) as (A1 & A2 & _). destruct (Hc eq_refl) as (C1 & _).
  repeat apply conj; assumption.
Defined.

(** X4. An attribute assignment that returned, with a name that is
    neither a reserved field nor an attribute of the class, is read back
    by attribute access and by item lookup alike: both give the value the
    wrapping function returned, the assigned value itself when it is not a
    container. *)
Theorem setattr_then_getattr
    (inherited : string -> bool) (fuel : nat) (self : addr) (attr : string) (v : value)
    (s s' : state) (n : string) (d : list (string * value)) (c : string) :
  heap s !! self = Some (OConfiguration n d c) ->
  LoggedConfiguration.reserved attr = false ->
  existsb (String.eqb attr) LoggedConfiguration.class_attributes = false ->
  inherited attr = false ->
  LoggedConfiguration.__setattr__ fuel self attr v s = (s', Ok tt) ->
  exists w,
    LoggedConfiguration.getattr inherited self attr s' = (s', Ok (LoggedConfiguration.Field w)) /\
    LoggedConfiguration.__getitem__ self attr s' = (s', Ok w) /\
    (is_atom v = true -> w = v).
Proof.
  intros Ho Hr Hc Hi H. unfold LoggedConfiguration.__setattr__ in H. rewrite Hr in H.
  destruct (setitem_inv _ _ _ _ _ _ _ _ _ Ho H) as (s1 & w & Hw & Hext & ->).
  assert (Hlen : self < length (heap s1)).
  { apply lookup_lt_is_Some. exists (OConfiguration n d c).
    eapply prefix_lookup_Some; eassumption. }
  set (s' := State _ _).
  assert (Ho' : heap s' !! self = Some (OConfiguration n (dict_set d attr w) c))
    by (now apply list_lookup_insert_eq).
  assert (Hg : dict_get (dict_set d attr w) attr = Some w)
    by (now rewrite dict_get_set, String.eqb_refl).
  exists w. repeat apply conj.
  - unfold LoggedConfiguration.reserved in Hr. cbn in Hr.
    apply orb_false_iff in Hr as [H1 Hr]. apply orb_false_iff in Hr as [H2 Hr].
    apply orb_false_iff in Hr as [H3 _].
    unfold LoggedConfiguration.getattr, LoggedConfiguration.__getattr__.
    rewrite (bind_ok _ _ s' s' (n, dict_set d attr w, c)) by (now apply self_config_ok).
    cbv beta iota. rewrite H1, H2, H3, Hc, Hi. cbn [orb].
    unfold bind. rewrite (self_config_ok _ _ _ _ _ Ho'). cbv beta iota. now rewrite Hg.
  - rewrite (getitem_result _ _ _ _ _ _ Ho'). now rewrite Hg.
  - intros Hv. now destruct (wrap_atom_inv _ _ _ _ _ _ Hv Hw).
Qed.

Lemma setattr_then_getattr_witness :
  let s := State [OConfiguration "n" [] "n"] [] in
  exists s',
    LoggedConfiguration.__setattr__ 1 0 "port" (VAtom (AInt 80)) s = (s', Ok tt) /\
    LoggedConfiguration.getattr (fun _ => false) 0 "port" s'
    = (s', Ok (LoggedConfiguration.Field (VAtom (AInt 80)))).
Proof.
  exists (LoggedConfiguration.__setattr__ 1 0 "port" (VAtom (AInt 80))
            (State [OConfiguration "n" [] "n"] [])).1.
  split; [reflexivity|].
  destruct (setattr_then_getattr (fun _ => false) 1 0 "port" (VAtom (AInt 80))
              (State [OConfiguration "n" [] "n"] []) _ "n" [] "n"
              eq_refl eq_refl eq_refl eq_refl eq_refl) as (w & G & _ & Hw).
  now rewrite (Hw eq_refl) in G.
Defined.

(** ** LoggedList: insertion, removal by index *)

Lemma as_index_int z :
  (ssize_min <= z <= ssize_max)%Z -> as_index (VAtom (AInt z)) = Ok z.
Proof.
  intros Hz. cbn [as_index].
  replace (z <? ssize_min)%Z with false by (symmetry; apply Z.ltb_ge; lia).
  replace (ssize_max <? z)%Z with false by (symmetry; apply Z.ltb_ge; lia).
  reflexivity.
Qed.

Lemma as_index_overflow z :
  (z < ssize_min \/ ssize_max < z)%Z -> as_index (VAtom (AInt z)) = Raise OverflowError.
Proof.
  intros Hz. cbn [as_index].
  destruct (z <? ssize_min)%Z eqn:E1; [reflexivity|].
  destruct (ssize_max <? z)%Z eqn:E2; [reflexivity|].
  apply Z.ltb_ge in E1, E2. lia.
Qed.


Lemma list_pop_at_append l w : list_pop_at (l ++ [w]) (-1) = Ok (w, l).
Proof.
  unfold list_pop_at. rewrite length_app. cbn [length].
  replace (-1 + Z.of_nat (length l + 1))%Z with (Z.of_nat (length l)) by lia.
  cbn [Z.ltb Z.compare].
  replace (Z.of_nat (length l) <? 0)%Z with false by (symmetry; apply Z.ltb_ge; lia).
  replace (Z.of_nat (length l + 1) <=? Z.of_nat (length l))%Z with false
    by (symmetry; apply Z.leb_gt; lia).
  cbn [orb]. rewrite Nat2Z.id.
  rewrite (list_lookup_middle l [] w (length l) eq_refl).
  now rewrite (delete_middle l [] w), app_nil_r.
Qed.



(** Which element an index designates: negative indices count from the
    end. *)
Lemma list_pop_at_result l i :
  let n := Z.of_nat (length l) in
  ((i < - n \/ n <= i)%Z -> list_pop_at l i = Raise IndexError) /\
  ((- n <= i < n)%Z ->
   exists x, l !! Z.to_nat (i mod n) = Some x /\
             list_pop_at l i = Ok (x, delete (Z.to_nat (i mod n)) l)).
Proof.
  intros n. subst n. unfold list_pop_at. split.
  - intros Hi. destruct (i <? 0)%Z eqn:E.
    + apply Z.ltb_lt in E.
      destruct Hi as [Hi|Hi]; [|lia].
      replace (i + Z.of_nat (length l) <? 0)%Z with true by (symmetry; apply Z.ltb_lt; lia).
      reflexivity.
    + apply Z.ltb_ge in E.
      destruct Hi as [Hi|Hi]; [lia|].
      replace (Z.of_nat (length l) <=? i)%Z with true by (symmetry; apply Z.leb_le; lia).
      now rewrite orb_true_r.
  - intros Hi.
    assert (Hj : (if (i <? 0)%Z then (i + Z.of_nat (length l))%Z else i)
                 = (i mod Z.of_nat (length l))%Z).
    { destruct (i <? 0)%Z eqn:E.
      - apply Z.ltb_lt in E. apply Z.mod_unique with (q := (-1)%Z); lia.
      - apply Z.ltb_ge in E. symmetry. apply Z.mod_small. lia. }
    rewrite Hj.
    assert (Hr : (0 <= i mod Z.of_nat (length l) < Z.of_nat (length l))%Z)
      by (apply Z.mod_pos_bound; lia).
    replace (i mod Z.of_nat (length l) <? 0)%Z with false by (symmetry; apply Z.ltb_ge; lia).
    replace (Z.of_nat (length l) <=? i mod Z.of_nat (length l))%Z with false
      by (symmetry; apply Z.leb_gt; lia).
    cbn [orb].
    destruct (lookup_lt_is_Some_2 l (Z.to_nat (i mod Z.of_nat (length l)))) as [x Hx]; [lia|].
    exists x. now rewrite Hx.
Qed.

Lemma append_inv fuel self v s s' n l c :
  heap s !! self = Some (OList n l c) ->
  LoggedList.append fuel self v s = (s', Ok tt) ->
  exists s1 w,
    wrap_logged_config_value fuel (n +:+ "[...]") v (info c n (LogAppending v) s).1 = (s1, Ok w) /\
    extends s s1 /\
    s' = State (<[self := OList n (l ++ [w]) c]> (heap s1)) (trace s1 ++ [Mutated self]).
Proof.
  intros Ho H. unfold LoggedList.append in H.
  rewrite (bind_ok _ _ s s (n, l, c)) in H by (now apply self_list_ok). cbv beta iota in H.
  rewrite (bind_ok _ _ s (info c n (LogAppending v) s).1 tt) in H by reflexivity.
  apply bind_inv in H as (s1 & w & Hw & H).
  assert (Hext : extends s s1).
  { change (extends (info c n (LogAppending v) s).1 s1).
    apply (steps_run extends _ _ _ _ Hw). apply extends_wrap. }
  assert (Ho1 : heap s1 !! self = Some (OList n l c))
    by (eapply prefix_lookup_Some; eassumption).
  rewrite (bind_ok _ _ s1 s1 (n, l, c)) in H by (now apply self_list_ok). cbv beta iota in H.
  unfold store in H. injection H as <-. eauto.
Qed.


(** [LoggedList.pop] on a list object: the record, then [list.pop]. *)
Lemma list_pop_result self index s n l c :
  heap s !! self = Some (OList n l c) ->
  LoggedList.pop self index s
  = match obind (as_index index) (list_pop_at l) with
    | Ok (x, l') =>
        (State (<[self := OList n l' c]> (heap s))
               ((trace s ++ [Logged (LogRecord c n (LogPoppingIndex index))]) ++ [Mutated self]),
         Ok x)
    | Raise e =>
        (State (heap s) (trace s ++ [Logged (LogRecord c n (LogPoppingIndex index))]), Raise e)
    end.
Proof.
  intros Ho. unfold LoggedList.pop.
  rewrite (bind_ok _ _ s s (n, l, c)) by (now apply self_list_ok). cbv beta iota.
  rewrite (bind_ok _ _ s (info c n (LogPoppingIndex index) s).1 tt) by reflexivity.
  unfold bind, lift, info. cbn [fst snd].
  destruct (as_index index) as [i|e]; [|reflexivity]. cbn [obind].
  destruct (list_pop_at l i) as [[x l']|e]; reflexivity.
Qed.

(** X5. What [append] stored comes last: after an [append] that
    returned, the list is the old list followed by the value the wrapping
    function returned (the appended value itself when it is not a
    container), and [pop(-1)] returns that value and leaves the list as it
    was before the [append]. *)
Theorem append_then_pop_last
    (fuel : nat) (self : addr) (v : value) (s s1 : state)
    (n : string) (l : list value) (c : string) :
  heap s !! self = Some (OList n l c) ->
  LoggedList.append fuel self v s = (s1, Ok tt) ->
  exists w,
    heap s1 !! self = Some (OList n (l ++ [w]) c) /\
    (is_atom v = true -> w = v) /\
    (LoggedList.pop self (VAtom (AInt (-1))) s1).2 = Ok w /\
    heap (LoggedList.pop self (VAtom (AInt (-1))) s1).1 !! self = Some (OList n l c).
Proof.
  intros Ho H.
  destruct (append_inv _ _ _ _ _ _ _ _ Ho H) as (s2 & w & Hw & Hext & ->).
  assert (Hlen : self < length (heap s2)).
  { apply lookup_lt_is_Some. exists (OList n l c). eapply prefix_lookup_Some; eassumption. }
  set (s1 := State _ _).
  assert (Ho1 : heap s1 !! self = Some (OList n (l ++ [w]) c))
    by (now apply list_lookup_insert_eq).
  exists w. split; [exact Ho1|]. split.
  - intros Hv. now destruct (wrap_atom_inv _ _ _ _ _ _ Hv Hw).
  - rewrite (list_pop_result _ _ _ _ _ _ Ho1).
    rewrite as_index_int by (unfold ssize_min, ssize_max; lia). cbn [obind].
    rewrite list_pop_at_append. cbn [fst snd heap]. split; [reflexivity|].
    apply list_lookup_insert_eq. subst s1. cbn [heap]. now rewrite length_insert.
Qed.

Lemma append_then_pop_last_witness :
  let s := State [OList "l" [VAtom (AInt 1)] "l"] [] in
  exists s1,
    LoggedList.append 1 0 (VAtom (AInt 2)) s = (s1, Ok tt) /\
    heap s1 !! 0 = Some (OList "l" [VAtom (AInt 1); VAtom (AInt 2)] "l") /\
    (LoggedList.pop 0 (VAtom (AInt (-1))) s1).2 = Ok (VAtom (AInt 2)).
Proof.
  exists (LoggedList.append 1 0 (VAtom (AInt 2)) (State [OList "l" [VAtom (AInt 1)] "l"] [])).1.
  split; [reflexivity|].
  destruct (append_then_pop_last 1 0 (VAtom (AInt 2)) (State [OList "l" [VAtom (AInt 1)] "l"] [])
              _ "l" [VAtom (AInt 1)] "l" eq_refl eq_refl) as (w & Ho & Hw & Hp & _).
  rewrite (Hw eq_refl) in Ho, Hp. auto.
Defined.



(** X7. [pop] takes an index and has no default.  The record is sent
    first.  An integer index that does not fit a [Py_ssize_t] raises
    [OverflowError]; one that fits and lies outside the list (below minus
    the length, or at or above the length; any index on an empty list)
    raises [IndexError]; neither changes an object.  With an index inside,
    negative indices counting from the end, [pop] returns the element at
    that position and the list is left without it. *)
Theorem pop_by_index
    (self : addr) (i : Z) (s : state) (n : string) (l : list value) (c : string) :
  heap s !! self = Some (OList n l c) ->
  let r := LoggedList.pop self (VAtom (AInt i)) s in
  let len := Z.of_nat (length l) in
  ((i < ssize_min \/ ssize_max < i)%Z ->
     r.2 = Raise OverflowError /\ heap r.1 = heap s /\
     trace r.1 = trace s ++ [Logged (LogRecord c n (LogPoppingIndex (VAtom (AInt i))))]) /\
  ((ssize_min <= i <= ssize_max)%Z -> (i < - len \/ len <= i)%Z ->
     r.2 = Raise IndexError /\ heap r.1 = heap s /\
     trace r.1 = trace s ++ [Logged (LogRecord c n (LogPoppingIndex (VAtom (AInt i))))]) /\
  ((ssize_min <= i <= ssize_max)%Z -> (- len <= i < len)%Z ->
     exists x,
       l !! Z.to_nat (i mod len) = Some x /\
       r.2 = Ok x /\
       heap r.1 = <[self := OList n (delete (Z.to_nat (i mod len)) l) c]> (heap s) /\
       trace r.1 = (trace s ++ [Logged (LogRecord c n (LogPoppingIndex (VAtom (AInt i))))])
                   ++ [Mutated self]).
Proof.
  intros Ho r len. subst r len. rewrite (list_pop_result _ _ _ _ _ _ Ho).
  destruct (list_pop_at_result l i) as [Hout Hin]. split; [|split].
  - intros Hi. rewrite (as_index_overflow _ Hi). now cbn.
  - intros Hr Hi. rewrite (as_index_int _ Hr). cbn [obind]. rewrite (Hout Hi). now cbn.
  - intros Hr Hi. rewrite (as_index_int _ Hr). cbn [obind].
    destruct (Hin Hi) as (x & Hx & ->). exists x. now cbn.
Qed.

Lemma pop_by_index_witness :
  let s := State [OList "l" [VAtom (AInt 1); VAtom (AInt 2)] "l"] [] in
  (LoggedList.pop 0 (VAtom (AInt 2)) s).2 = Raise IndexError /\
  (LoggedList.pop 0 (VAtom (AInt (-2))) s).2 = Ok (VAtom (AInt 1)) /\
  (LoggedList.pop 0 (VAtom (AInt 18446744073709551616)) s).2 = Raise OverflowError.
Proof.
  pose proof (pop_by_index 0 2 (State [OList "l" [VAtom (AInt 1); VAtom (AInt 2)] "l"] [])
                "l" [VAtom (AInt 1); VAtom (AInt 2)] "l" eq_refl) as H2.
  pose proof (pop_by_index 0 (-2) (State [OList "l" [VAtom (AInt 1); VAtom (AInt 2)] "l"] [])
                "l" [VAtom (AInt 1); VAtom (AInt 2)] "l" eq_refl) as Hm.
  pose proof (pop_by_index 0 18446744073709551616
                (State [OList "l" [VAtom (AInt 1); VAtom (AInt 2)] "l"] [])
                "l" [VAtom (AInt 1); VAtom (AInt 2)] "l" eq_refl) as Ho.
  cbv zeta in H2, Hm, Ho.
  destruct H2 as (_ & H2 & _). destruct Hm as (_ & _ & Hm). destruct Ho as (Ho & _).
  destruct (H2 ltac:(unfold ssize_min, ssize_max; lia) ltac:(cbn; lia)) as (E2 & _).
  destruct (Hm ltac:(unfold ssize_min, ssize_max; lia) ltac:(cbn; lia)) as (x & Hx & Em & _).
  destruct (Ho ltac:(unfold ssize_min, ssize_max; lia)) as (Eo & _).
  split; [exact E2|]. split; [|exact Eo].
  rewrite Em. f_equal. cbn in Hx. now injection Hx as <-.
Defined.

(** ** LoggedList.remove *)

Lemma list_remove_none (eq : value -> value -> option bool) l v :
  Forall (fun y => eq y v = Some false) l -> list_remove eq l v = Raise ValueError.
Proof.
  induction 1 as [|y l Hy _ IH]; [reflexivity|]. cbn. now rewrite Hy, IH.
Qed.

Lemma list_remove_first (eq : value -> value -> option bool) pre x post v :
  Forall (fun y => eq y v = Some false) pre -> eq x v = Some true ->
  list_remove eq (pre ++ x :: post) v = Ok (pre ++ post).
Proof.
  intros Hpre Hx. induction Hpre as [|y pre Hy _ IH]; cbn.
  - now rewrite Hx.
  - now rewrite Hy, IH.
Qed.

Lemma list_remove_result fuel self v s n l c :
  heap s !! self = Some (OList n l c) ->
  LoggedList.remove fuel self v s
  = match list_remove (py_eq fuel (heap s)) l v with
    | Ok l' =>
        (State (<[self := OList n l' c]> (heap s))
               ((trace s ++ [Logged (LogRecord c n (LogRemoving v))]) ++ [Mutated self]),
         Ok tt)
    | Raise e => (State (heap s) (trace s ++ [Logged (LogRecord c n (LogRemoving v))]), Raise e)
    end.
Proof.
  intros Ho. unfold LoggedList.remove.
  rewrite (bind_ok _ _ s s (n, l, c)) by (now apply self_list_ok). cbv beta iota.
  rewrite (bind_ok _ _ s (info c n (LogRemoving v) s).1 tt) by reflexivity.
  unfold bind, get_heap, lift, info, store. cbn [fst snd heap trace].
  now destruct (list_remove (py_eq fuel (heap s)) l v).
Qed.

(** X8. [LoggedList.remove] takes out the first element equal to the
    value and keeps the others in order; when no element is equal it
    raises [ValueError] after the record was sent, and changes no
    object.  Equality is Python's [==]. *)
Theorem remove_first_equal
    (fuel : nat) (self : addr) (v : value) (s : state)
    (n : string) (l : list value) (c : string) :
  heap s !! self = Some (OList n l c) ->
  let r := LoggedList.remove fuel self v s in
  (Forall (fun y => py_eq fuel (heap s) y v = Some false) l ->
     r.2 = Raise ValueError /\ heap r.1 = heap s /\
     trace r.1 = trace s ++ [Logged (LogRecord c n (LogRemoving v))]) /\
  (forall pre x post,
      l = pre ++ x :: post ->
      Forall (fun y => py_eq fuel (heap s) y v = Some false) pre ->
      py_eq fuel (heap s) x v = Some true ->
      r.2 = Ok tt /\ heap r.1 = <[self := OList n (pre ++ post) c]> (heap s)).
Proof.
  intros Ho r. subst r. rewrite (list_remove_result _ _ _ _ _ _ _ Ho). split.
  - intros Hl. rewrite (list_remove_none _ _ _ Hl). now cbn.
  - intros pre x post -> Hpre Hx. rewrite (list_remove_first _ _ _ _ _ Hpre Hx). now cbn.
Qed.

Lemma remove_first_equal_witness :
  let s := State [OList "l" [VAtom (AInt 1); VAtom (AInt 2); VAtom (AInt 1)] "l"] [] in
  (LoggedList.remove 1 0 (VAtom (AInt 3)) s).2 = Raise ValueError /\
  heap (LoggedList.remove 1 0 (VAtom (AInt 1)) s).1
  = [OList "l" [VAtom (AInt 2); VAtom (AInt 1)] "l"].
Proof.
  pose proof (remove_first_equal 1 0 (VAtom (AInt 3))
                (State [OList "l" [VAtom (AInt 1); VAtom (AInt 2); VAtom (AInt 1)] "l"] [])
                "l" [VAtom (AInt 1); VAtom (AInt 2); VAtom (AInt 1)] "l" eq_refl) as H3.
  pose proof (remove_first_equal 1 0 (VAtom (AInt 1))
                (State [OList "l" [VAtom (AInt 1); VAtom (AInt 2); VAtom (AInt 1)] "l"] [])
                "l" [VAtom (AInt 1); VAtom (AInt 2); VAtom (AInt 1)] "l" eq_refl) as H1.
  cbv zeta in H3, H1. destruct H3 as [H3 _]. destruct H1 as [_ H1].
  destruct (H3 ltac:(repeat constructor)) as (E3 & _).
  destruct (H1 [] (VAtom (AInt 1)) [VAtom (AInt 2); VAtom (AInt 1)] eq_refl
              ltac:(constructor) eq_refl) as (_ & E1).
  split; [exact E3 | exact E1].
Defined.

(** ** LoggedSet.remove and LoggedSet.discard *)

Lemma atom_eqb_sym x y : atom_eqb x y = atom_eqb y x.
Proof.
  destruct x as [|b|z|t|t], y as [|b'|z'|t'|t']; cbn; try reflexivity.
  - now destruct b, b'.
  - apply Z.eqb_sym.
  - apply String.eqb_sym.
  - apply String.eqb_sym.
Qed.

Lemma atom_eqb_trans x y z :
  atom_eqb x y = true -> atom_eqb y z = true -> atom_eqb x z = true.
Proof.
  destruct x as [|b|i|t|t], y as [|b'|i'|t'|t'], z as [|b''|i''|t''|t'']; cbn;
    try discriminate; try reflexivity;
    rewrite ?Z.eqb_eq, ?String.eqb_eq, ?Bool.eqb_true_iff; intros; subst; try reflexivity.
  all: try (destruct b, b''; cbn in *; congruence).
  all: try (destruct b, b'; cbn in *; congruence).
Qed.

Lemma key_eqb_sym : forall v w, key_eqb v w = key_eqb w v.
Proof.
  induction v as [x|l IH|l IH|l IH|d IH|a] using value_induction;
    intros w; destruct w as [y|k|k|k|e|b]; try reflexivity.
  - apply atom_eqb_sym.
  - cbn. revert k. induction IH as [|x l Hx _ IHl]; intros [|y k]; try reflexivity.
    now rewrite Hx, IHl.
Qed.

Lemma key_eqb_trans : forall v w u,
  key_eqb v w = true -> key_eqb w u = true -> key_eqb v u = true.
Proof.
  induction v as [x|l IH|l IH|l IH|d IH|a] using value_induction;
    intros w u; destruct w as [y|k|k|k|e|b]; try discriminate;
    destruct u as [z|j|j|j|f|b']; try discriminate.
  - apply atom_eqb_trans.
  - cbn. revert k j. induction IH as [|x l Hx _ IHl]; intros [|y k] [|z j]; try discriminate.
    + reflexivity.
    + intros H1 H2. apply andb_prop in H1 as [A1 A2]. apply andb_prop in H2 as [B1 B2].
      rewrite (Hx _ _ A1 B1). cbn. exact (IHl _ _ A2 B2).
Qed.

Lemma set_del_absent l v : set_mem v l = false -> set_del l v = l.
Proof.
  induction l as [|x l IH]; [reflexivity|]. cbn.
  intros H. apply orb_false_iff in H as [H1 H2]. now rewrite H1, IH.
Qed.

Lemma set_del_length l v : set_mem v l = true -> S (length (set_del l v)) = length l.
Proof.
  induction l as [|x l IH]; [discriminate|]. cbn.
  destruct (key_eqb v x); [reflexivity|]. cbn. intros H. now rewrite IH.
Qed.

Lemma set_mem_cons x y l : set_mem x (y :: l) = key_eqb x y || set_mem x l.
Proof. reflexivity. Qed.

Lemma set_mem_del_other l v x :
  key_eqb v x = false -> set_mem x (set_del l v) = set_mem x l.
Proof.
  intros Hx. induction l as [|y l IH]; [reflexivity|]. cbn [set_del].
  destruct (key_eqb v y) eqn:E; [|now rewrite !set_mem_cons, IH].
  rewrite set_mem_cons.
  destruct (key_eqb x y) eqn:E'; [|reflexivity].
  rewrite key_eqb_sym in E'. rewrite (key_eqb_trans _ _ _ E E') in Hx. discriminate Hx.
Qed.

Lemma distinct_from_mem acc l x :
  distinct_from acc l = true -> In x l -> set_mem x acc = false.
Proof.
  revert acc. induction l as [|y l IH]; intros acc H Hin; [destruct Hin|].
  cbn in H. apply andb_prop in H as [H1 H2]. apply negb_true_iff in H1.
  destruct Hin as [->|Hin]; [exact H1|].
  specialize (IH _ H2 Hin). unfold set_mem in IH |- *.
  rewrite existsb_app in IH. now apply orb_false_iff in IH as [IH _].
Qed.

Lemma set_mem_del_same l v : forall acc,
  distinct_from acc l = true -> set_mem v (set_del l v) = false.
Proof.
  induction l as [|x l IH]; intros acc H; [reflexivity|].
  cbn [distinct_from] in H. apply andb_prop in H as [H1 H2]. cbn [set_del].
  destruct (key_eqb v x) eqn:E.
  - unfold set_mem. apply not_true_is_false. intros Hm.
    apply existsb_exists in Hm as (y & Hy & Hvy).
    pose proof (distinct_from_mem _ _ _ H2 Hy) as Hn. unfold set_mem in Hn.
    rewrite existsb_app in Hn. apply orb_false_iff in Hn as [_ Hn]. cbn in Hn.
    rewrite orb_false_r in Hn.
    rewrite key_eqb_sym in Hvy. rewrite (key_eqb_trans _ _ _ Hvy E) in Hn. discriminate Hn.
  - rewrite set_mem_cons, E. cbn [orb]. eapply IH. exact H2.
Qed.

(** X9. On a [LoggedSet] and a hashable value: [discard] always returns,
    and is a no-op when the value is not in the set; [remove] raises
    [KeyError] exactly when the value is not in the set, changing no
    object, and otherwise does what [discard] does.  After either, the
    value is not in the set, the set is one element smaller if it held the
    value, and the membership of every other value is as before. *)
Theorem set_remove_and_discard
    (self : addr) (v : value) (s : state) (n : string) (l : list value) (c : string) :
  heap s !! self = Some (OSet n l c) ->
  hashable v = true ->
  let rd := LoggedSet.discard self v s in
  let rr := LoggedSet.remove self v s in
  rd.2 = Ok tt /\
  heap rd.1 = <[self := OSet n (set_del l v) c]> (heap s) /\
  (set_mem v l = false ->
     heap rd.1 = heap s /\ rr.2 = Raise KeyError /\ heap rr.1 = heap s) /\
  (set_mem v l = true ->
     rr.2 = Ok tt /\ heap rr.1 = heap rd.1 /\ S (length (set_del l v)) = length l) /\
  (distinct_from [] l = true -> set_mem v (set_del l v) = false) /\
  (forall x, key_eqb v x = false -> set_mem x (set_del l v) = set_mem x l).
Proof.
  intros Ho Hv rd rr. subst rd rr. unfold LoggedSet.discard, LoggedSet.remove.
  rewrite !(bind_ok _ _ s s (n, l, c)) by (now apply self_set_ok). cbv beta iota.
  unfold bind, info, get_heap, lift, set_lookup_key, store. cbn [fst snd heap trace].
  rewrite Hv. cbv beta iota.
  repeat apply conj.
  - reflexivity.
  - reflexivity.
  - intros Hm. rewrite Hm. cbn [fst snd heap]. rewrite (set_del_absent _ _ Hm).
    repeat apply conj; try reflexivity. now apply list_insert_id.
  - intros Hm. rewrite Hm. cbn [fst snd heap]. repeat apply conj; try reflexivity.
    now apply set_del_length.
  - apply set_mem_del_same.
  - intros x Hx. now apply set_mem_del_other.
Qed.

Lemma set_remove_and_discard_witness :
  let s := State [OSet "s" [VAtom (AInt 1); VAtom (AInt 2)] "s"] [] in
  (LoggedSet.discard 0 (VAtom (AInt 3)) s).2 = Ok tt /\
  (LoggedSet.remove 0 (VAtom (AInt 3)) s).2 = Raise KeyError /\
  (LoggedSet.remove 0 (VAtom (AInt 1)) s).2 = Ok tt.
Proof.
  pose proof (set_remove_and_discard 0 (VAtom (AInt 3))
                (State [OSet "s" [VAtom (AInt 1); VAtom (AInt 2)] "s"] [])
                "s" [VAtom (AInt 1); VAtom (AInt 2)] "s" eq_refl eq_refl) as H3.
  pose proof (set_remove_and_discard 0 (VAtom (AInt 1))
                (State [OSet "s" [VAtom (AInt 1); VAtom (AInt 2)] "s"] [])
                "s" [VAtom (AInt 1); VAtom (AInt 2)] "s" eq_refl eq_refl) as H1.
  cbv zeta in H3, H1.
  destruct H3 as (D3 & _ & A3 & _). destruct H1 as (_ & _ & _ & P1 & _).
  destruct (A3 eq_refl) as (_ & R3 & _). destruct (P1 eq_refl) as (R1 & _).
  repeat apply conj; assumption.
Defined.

(** ** The names of the children *)

Lemma as_list_extends h h' v :
  h `prefix_of` h' -> in_store h v = true -> as_list_or_tuple h' v = as_list_or_tuple h v.
Proof.
  intros P Hv. destruct v as [x|l|l|l|d|a]; try reflexivity.
  cbn in Hv. apply bool_decide_eq_true in Hv.
  cbn [as_list_or_tuple]. destruct (h !! a) as [o|] eqn:Ho.
  - assert (Ho' : h' !! a = Some o) by (eapply prefix_lookup_Some; eassumption).
    now rewrite Ho'.
  - apply lookup_ge_None in Ho. lia.
Qed.

Lemma as_set_extends h h' v :
  h `prefix_of` h' -> in_store h v = true -> as_set h' v = as_set h v.
Proof.
  intros P Hv. destruct v as [x|l|l|l|d|a]; try reflexivity.
  cbn in Hv. apply bool_decide_eq_true in Hv.
  cbn [as_set]. destruct (h !! a) as [o|] eqn:Ho.
  - assert (Ho' : h' !! a = Some o) by (eapply prefix_lookup_Some; eassumption).
    now rewrite Ho'.
  - apply lookup_ge_None in Ho. lia.
Qed.

Lemma wrapped_as_mono h0 h1 h2 h3 name v w :
  h0 `prefix_of` h1 -> h2 `prefix_of` h3 -> in_store h0 v = true ->
  wrapped_as h1 h2 name v w -> wrapped_as h0 h3 name v w.
Proof.
  intros P01 P23 Hv. unfold wrapped_as.
  rewrite (as_list_extends _ _ _ P01 Hv), (as_set_extends _ _ _ P01 Hv).
  pose proof (prefix_length _ _ P01) as L.
  destruct (as_list_or_tuple h0 v); [|destruct (as_set h0 v); [|destruct (as_dict v)]];
    try (intros (a & l' & -> & Ha & Hl); exists a, l'; split; [reflexivity|];
         split; [lia | eapply prefix_lookup_Some; eassumption]).
  exact id.
Qed.

Lemma wrap_wrapped_as fuel n v s s' w :
  wrap_logged_config_value fuel n v s = (s', Ok w) -> wrapped_as (heap s) (heap s') n v w.
Proof.
  intros H. apply wrap_result in H. unfold wrapped_as.
  destruct (as_list_or_tuple (heap s) v); [exact H|].
  destruct (as_set (heap s) v); [exact H|].
  destruct (as_dict v); [exact H | exact (proj1 H)].
Qed.

Lemma init_loop_keys fuel nm d : forall acc s s1 r,
  for_each (fun acc kv =>
              w <- wrap_logged_config_value fuel (nm +:+ "." +:+ kv.1) kv.2 ;;
              ret (dict_set acc kv.1 w)) acc d s = (s1, Ok r) ->
  distinct_keys (map fst d) = true ->
  (forall k, In k (map fst d) -> existsb (String.eqb k) (map fst acc) = false) ->
  map fst r = map fst acc ++ map fst d.
Proof.
  induction d as [|[k0 v0] d IH]; intros acc s s1 r H Hd Hacc.
  - injection H as <- <-. now rewrite app_nil_r.
  - cbn [for_each] in H. apply bind_inv in H as (s2 & acc2 & H1 & H2).
    apply bind_inv in H1 as (s3 & w & Hw & Hret). injection Hret as <- <-.
    cbn in Hd. apply andb_prop in Hd as [Hk0 Hd]. apply negb_true_iff in Hk0.
    cbn [fst snd] in *.
    assert (Hfresh : existsb (String.eqb k0) (map fst acc) = false)
      by (apply Hacc; now left).
    rewrite (IH _ _ _ _ H2 Hd).
    + rewrite (dict_set_fresh _ _ _ Hfresh), map_app. cbn. now rewrite <- app_assoc.
    + intros k Hk. rewrite (dict_set_fresh _ _ _ Hfresh), map_app, existsb_app.
      rewrite (Hacc k) by (now right). cbn. rewrite orb_false_r.
      destruct (String.eqb k k0) eqn:E; [|reflexivity].
      apply String.eqb_eq in E. subst k0.
      assert (existsb (String.eqb k) (map fst d) = true) as C; [|congruence].
      apply existsb_exists. exists k. split; [assumption | apply String.eqb_refl].
Qed.

(** X10. A [LoggedConfiguration] built from a dict has the name and the
    logger of that name, and the keys of the dict in their order.  Under
    each key it holds what wrapping made of the value: a list or tuple
    became a [LoggedList], a set a [LoggedSet] and a dict a
    [LoggedConfiguration], each a new object called [name.key] with the
    logger of that name; any other value is stored as it is. *)
Theorem init_names_children
    (fuel : nat) (name : string) (d : list (string * value)) (s s' : state) (y : value) :
  distinct_keys (map fst d) = true ->
  LoggedConfiguration.__init__ fuel name d s = (s', Ok y) ->
  exists a d',
    y = VRef a /\ length (heap s) <= a /\
    heap s' !! a = Some (OConfiguration name d' (getLogger name)) /\
    map fst d' = map fst d /\
    forall k v, In (k, v) d -> in_store (heap s) v = true ->
      exists w, dict_get d' k = Some w /\
                wrapped_as (heap s) (heap s') (name +:+ "." +:+ k) v w.
Proof.
  intros Hd H. unfold LoggedConfiguration.__init__, LoggedConfiguration_new in H.
  apply bind_inv in H as (s1 & r & Hloop & Halloc).
  apply alloc_inv in Halloc as (-> & Eh).
  assert (E1 : extends s s1) by (apply (steps_run extends _ _ _ _ Hloop); stepping).
  assert (E2 : heap s1 `prefix_of` heap s') by (rewrite Eh; now apply prefix_app_r).
  exists (length (heap s1)), r. repeat apply conj.
  - reflexivity.
  - now apply prefix_length.
  - rewrite Eh. apply lookup_snoc_last.
  - now rewrite (init_loop_keys _ _ _ _ _ _ _ Hloop Hd).
  - intros k v Hin Hv.
    destruct (init_loop_wraps _ _ _ _ _ _ _ Hloop Hd k v Hin) as (sa & sb & w & Ea & Hw & Eb & Hg).
    exists w. split; [exact Hg|].
    apply (wrapped_as_mono (heap s) (heap sa) (heap sb) (heap s')); try assumption.
    + etransitivity; [exact Eb | exact E2].
    + now apply wrap_wrapped_as with (fuel := fuel).
Qed.

Lemma init_names_children_witness :
  let d := [("hosts", VList [VAtom (AStr "a")]); ("port", VAtom (AInt 80))] in
  exists s' a d' b l,
    LoggedConfiguration.__init__ 3 "cfg" d (State [] []) = (s', Ok (VRef a)) /\
    heap s' !! a = Some (OConfiguration "cfg" d' "cfg") /\
    dict_get d' "hosts" = Some (VRef b) /\
    heap s' !! b = Some (OList "cfg.hosts" l "cfg.hosts") /\
    dict_get d' "port" = Some (VAtom (AInt 80)).
Proof.
  destruct (init_names_children 3 "cfg"
              [("hosts", VList [VAtom (AStr "a")]); ("port", VAtom (AInt 80))]
              (State [] [])
              (LoggedConfiguration.__init__ 3 "cfg"
                 [("hosts", VList [VAtom (AStr "a")]); ("port", VAtom (AInt 80))]
                 (State [] [])).1
              (VRef 1) eq_refl eq_refl) as (a & d' & [= <-] & _ & Ha & _ & Hch).
  destruct (Hch "hosts" (VList [VAtom (AStr "a")]) ltac:(now left) eq_refl)
    as (w & Hg & (b & l & -> & _ & Hb)).
  destruct (Hch "port" (VAtom (AInt 80)) ltac:(right; now left) eq_refl) as (w' & Hg' & Hw').
  cbv in Hw'. subst w'.
  eexists _, 1, d', b, l. repeat apply conj; try eassumption. reflexivity.
Defined.

(** What the loop of [LoggedList.__init__] collected: the result of
    wrapping each element, in order. *)
Lemma list_loop_wraps fuel nm l : forall acc s s1 r,
  for_each (fun acc x => w <- wrap_logged_config_value fuel nm x ;; ret (acc ++ [w])) acc l s
  = (s1, Ok r) ->
  exists ws,
    r = acc ++ ws /\ length ws = length l /\
    forall i v, l !! i = Some v ->
      exists sa sb w,
        extends s sa /\ wrap_logged_config_value fuel nm v sa = (sb, Ok w) /\
        extends sb s1 /\ ws !! i = Some w.
Proof.
  induction l as [|x l IH]; intros acc s s1 r H.
  - injection H as <- <-. exists []. rewrite app_nil_r. repeat split. intros i v Hi.
    discriminate Hi.
  - cbn [for_each] in H. apply bind_inv in H as (s2 & acc2 & H1 & H2).
    apply bind_inv in H1 as (s3 & w & Hw & Hret). injection Hret as <- <-.
    destruct (IH _ _ _ _ H2) as (ws & -> & Hlen & Hws).
    assert (E1 : extends s s3) by (apply (steps_run extends _ _ _ _ Hw); apply extends_wrap).
    assert (E2 : extends s3 s1) by (apply (steps_run extends _ _ _ _ H2); stepping).
    exists (w :: ws). repeat apply conj.
    + now rewrite <- app_assoc.
    + cbn. now rewrite Hlen.
    + intros [|i] v Hi.
      * injection Hi as ->. exists s, s3, w. repeat apply conj; [reflexivity | | |]; auto.
      * destruct (Hws i v Hi) as (sa & sb & w' & Ea & Hw' & Eb & Hg).
        exists sa, sb, w'. repeat apply conj; auto. etransitivity; eassumption.
Qed.

(** X11. A [LoggedList] built from a sequence has the name and the
    logger of that name and as many elements as the sequence, in the same
    order: each is what wrapping made of the element at that position, a
    new logged container called [name[...]] for a list, tuple, set or
    dict, and the element itself otherwise. *)
Theorem list_init_wraps_elements
    (fuel : nat) (name : string) (l : list value) (s s' : state) (y : value) :
  LoggedList.__init__ fuel name l s = (s', Ok y) ->
  exists a l',
    y = VRef a /\ length (heap s) <= a /\
    heap s' !! a = Some (OList name l' (getLogger name)) /\
    length l' = length l /\
    forall i v, l !! i = Some v -> in_store (heap s) v = true ->
      exists w, l' !! i = Some w /\
                wrapped_as (heap s) (heap s') (name +:+ "[...]") v w.
Proof.
  intros H. unfold LoggedList.__init__, LoggedList_new in H.
  apply bind_inv in H as (s1 & r & Hloop & Halloc).
  apply alloc_inv in Halloc as (-> & Eh).
  assert (E1 : extends s s1) by (apply (steps_run extends _ _ _ _ Hloop); stepping).
  assert (E2 : heap s1 `prefix_of` heap s') by (rewrite Eh; now apply prefix_app_r).
  destruct (list_loop_wraps _ _ _ _ _ _ _ Hloop) as (ws & -> & Hlen & Hws).
  exists (length (heap s1)), ws. repeat apply conj.
  - reflexivity.
  - now apply prefix_length.
  - rewrite Eh. apply lookup_snoc_last.
  - exact Hlen.
  - intros i v Hi Hv.
    destruct (Hws i v Hi) as (sa & sb & w & Ea & Hw & Eb & Hg).
    exists w. split; [exact Hg|].
    apply (wrapped_as_mono (heap s) (heap sa) (heap sb) (heap s')); try assumption.
    + etransitivity; [exact Eb | exact E2].
    + now apply wrap_wrapped_as with (fuel := fuel).
Qed.

Lemma list_init_wraps_elements_witness :
  let l := [VAtom (AInt 1); VTuple [VAtom (AInt 2)]] in
  exists s' a l' b e,
    LoggedList.__init__ 3 "xs" l (State [] []) = (s', Ok (VRef a)) /\
    heap s' !! a = Some (OList "xs" l' "xs") /\
    l' !! 0 = Some (VAtom (AInt 1)) /\
    l' !! 1 = Some (VRef b) /\
    heap s' !! b = Some (OList "xs[...]" e "xs[...]").
Proof.
  destruct (list_init_wraps_elements 3 "xs" [VAtom (AInt 1); VTuple [VAtom (AInt 2)]]
              (State [] [])
              (LoggedList.__init__ 3 "xs" [VAtom (AInt 1); VTuple [VAtom (AInt 2)]]
                 (State [] [])).1
              (VRef 1) eq_refl) as (a & l' & [= <-] & _ & Ha & _ & Hel).
  destruct (Hel 0 (VAtom (AInt 1)) eq_refl eq_refl) as (w0 & H0 & Hw0).
  destruct (Hel 1 (VTuple [VAtom (AInt 2)]) eq_refl eq_refl) as (w1 & H1 & (b & e & -> & _ & Hb)).
  cbv in Hw0. subst w0.
  eexists _, 1, l', b, e. repeat apply conj; try eassumption. reflexivity.
Defined.

(** ** Assigning a logged container *)

(** X12. Assigning a logged container to a key stores the container
    itself when it is a [LoggedConfiguration]; a [LoggedList] or a
    [LoggedSet] is wrapped again, so the mapping holds a new object of the
    same class, called [name.key], and the assigned container is left as
    it was. *)
Theorem setitem_shares_mappings_copies_sequences
    (fuel : nat) (self : addr) (k : string) (x : addr) (s s' : state)
    (n : string) (d : list (string * value)) (c : string) (o : obj) :
  heap s !! self = Some (OConfiguration n d c) ->
  heap s !! x = Some o ->
  LoggedConfiguration.__setitem__ fuel self k (VRef x) s = (s', Ok tt) ->
  exists w,
    LoggedConfiguration.__getitem__ self k s' = (s', Ok w) /\
    match o with
    | OConfiguration _ _ _ => w = VRef x
    | _ =>
        exists b o',
          w = VRef b /\ length (heap s) <= b /\ heap s' !! b = Some o' /\
          class_of o' = class_of o /\
          obj_name o' = n +:+ "." +:+ k /\
          obj_logger o' = getLogger (n +:+ "." +:+ k) /\
          heap s' !! x = Some o
    end.
Proof.
  intros Ho Hx H.
  destruct (setitem_inv _ _ _ _ _ _ _ _ _ Ho H) as (s1 & w & Hw & Hext & ->).
  assert (Hlen : self < length (heap s1)).
  { apply lookup_lt_is_Some. exists (OConfiguration n d c).
    eapply prefix_lookup_Some; eassumption. }
  set (s' := State _ _).
  assert (Ho' : heap s' !! self = Some (OConfiguration n (dict_set d k w) c))
    by (now apply list_lookup_insert_eq).
  exists w. split.
  { rewrite (getitem_result _ _ _ _ _ _ Ho'), dict_get_set. now rewrite String.eqb_refl. }
  apply wrap_wrapped_as in Hw. unfold wrapped_as in Hw. cbn [info fst heap] in Hw.
  cbn [as_list_or_tuple as_set as_dict] in Hw. rewrite Hx in Hw.
  assert (Hkeep : forall b ob, b <> self -> heap s1 !! b = Some ob -> heap s' !! b = Some ob).
  { intros b ob Hb Hob. subst s'. cbn [heap]. rewrite list_lookup_insert_ne by congruence.
    exact Hob. }
  assert (Hnew : forall b, length (heap s) <= b -> b <> self).
  { intros b Hb ->. apply lookup_lt_Some in Ho. lia. }
  destruct o as [no dobj co|no lo co|no lo co].
  - exact Hw.
  - destruct Hw as (b & l' & -> & Hb & Hob).
    exists b, (OList (n +:+ "." +:+ k) l' (getLogger (n +:+ "." +:+ k))).
    repeat apply conj; auto.
    apply Hkeep; [intros ->; congruence | eapply prefix_lookup_Some; eassumption].
  - destruct Hw as (b & l' & -> & Hb & Hob).
    exists b, (OSet (n +:+ "." +:+ k) l' (getLogger (n +:+ "." +:+ k))).
    repeat apply conj; auto.
    apply Hkeep; [intros ->; congruence | eapply prefix_lookup_Some; eassumption].
Qed.

Lemma setitem_shares_mappings_copies_sequences_witness :
  let s := State [OConfiguration "m" [] "m"; OList "xs" [VAtom (AInt 1)] "xs"] [] in
  exists s' b o',
    LoggedConfiguration.__setitem__ 2 0 "a" (VRef 1) s = (s', Ok tt) /\
    LoggedConfiguration.__getitem__ 0 "a" s' = (s', Ok (VRef b)) /\
    2 <= b /\ heap s' !! b = Some o' /\ obj_name o' = "m.a" /\
    heap s' !! 1 = Some (OList "xs" [VAtom (AInt 1)] "xs").
Proof.
  destruct (setitem_shares_mappings_copies_sequences 2 0 "a" 1
              (State [OConfiguration "m" [] "m"; OList "xs" [VAtom (AInt 1)] "xs"] [])
              (LoggedConfiguration.__setitem__ 2 0 "a" (VRef 1)
                 (State [OConfiguration "m" [] "m"; OList "xs" [VAtom (AInt 1)] "xs"] [])).1
              "m" [] "m" (OList "xs" [VAtom (AInt 1)] "xs") eq_refl eq_refl eq_refl)
    as (w & G & b & o' & -> & Hb & Ho' & _ & Hn & _ & Hx).
  eexists _, b, o'. repeat apply conj; try eassumption. reflexivity.
Defined.

(** ** Renaming *)

(** X13. Assigning a string to [_name] renames the mapping and nothing
    else: the logger stays the one taken at construction and no other
    object changes.  The record of a later call carries the new name
    through the old logger, and a container assigned afterwards is called
    after the new name. *)
Theorem rename_keeps_logger
    (fuel : nat) (self : addr) (n' : string) (call : mutating_call) (s : state)
    (n : string) (d : list (string * value)) (c : string) :
  heap s !! self = Some (OConfiguration n d c) ->
  receiver call = CConfiguration ->
  let r := LoggedConfiguration.__setattr__ fuel self "_name" (VAtom (AStr n')) s in
  r.2 = Ok tt /\
  heap r.1 = <[self := OConfiguration n' d c]> (heap s) /\
  (exists template rest,
      trace (call_method fuel self call r.1).1
      = trace r.1 ++ Logged (LogRecord c n' template) :: rest /\
      Forall (fun e => is_logged e = false) rest) /\
  (forall k l s',
      LoggedConfiguration.__setitem__ fuel self k (VList l) r.1 = (s', Ok tt) ->
      exists b l',
        LoggedConfiguration.__getitem__ self k s' = (s', Ok (VRef b)) /\
        heap s' !! b = Some (OList (n' +:+ "." +:+ k) l' (getLogger (n' +:+ "." +:+ k)))).
Proof.
  intros Ho Hc r. subst r.
  assert (Hlen : self < length (heap s)) by (eapply lookup_lt_Some; eassumption).
  assert (E : LoggedConfiguration.__setattr__ fuel self "_name" (VAtom (AStr n')) s
              = store self (OConfiguration n' d c) s).
  { unfold LoggedConfiguration.__setattr__. cbn [LoggedConfiguration.reserved existsb String.eqb
      Ascii.eqb Bool.eqb orb]. unfold LoggedConfiguration.object_setattr.
    now rewrite (bind_ok _ _ s s (n, d, c)) by (now apply self_config_ok). }
  rewrite E. unfold store at 1 2. cbn [fst snd heap].
  set (s1 := (store self (OConfiguration n' d c) s).1).
  assert (Ho1 : heap s1 !! self = Some (OConfiguration n' d c))
    by (now apply list_lookup_insert_eq).
  repeat apply conj; try reflexivity.
  - destruct (call_method_trace fuel self call s1 _ Ho1 (eq_sym Hc)) as (rest & Et & Hrest).
    eexists _, rest. split; [|exact Hrest]. rewrite Et. reflexivity.
  - intros k l s' H.
    destruct (setitem_inv _ _ _ _ _ _ _ _ _ Ho1 H) as (s2 & w & Hw & Hext & ->).
    apply wrap_wrapped_as in Hw. destruct Hw as (b & l' & -> & Hb & Hob).
    assert (Hlen2 : self < length (heap s2)).
    { apply lookup_lt_is_Some. exists (OConfiguration n' d c).
      eapply prefix_lookup_Some; eassumption. }
    set (s' := State _ _).
    assert (Ho' : heap s' !! self = Some (OConfiguration n' (dict_set d k (VRef b)) c))
      by (now apply list_lookup_insert_eq).
    exists b, l'. split.
    + rewrite (getitem_result _ _ _ _ _ _ Ho'), dict_get_set. now rewrite String.eqb_refl.
    + subst s'. cbn [heap]. rewrite list_lookup_insert_ne; [exact Hob|].
      cbn [info fst heap] in Hb. subst s1. cbn [store fst heap] in Hb.
      rewrite length_insert in Hb. lia.
Qed.

Lemma rename_keeps_logger_witness :
  let s := State [OConfiguration "old" [] "old"] [] in
  let s1 := (LoggedConfiguration.__setattr__ 2 0 "_name" (VAtom (AStr "new")) s).1 in
  heap s1 = [OConfiguration "new" [] "old"] /\
  exists template rest,
    trace (call_method 2 0 (DelItem "k") s1).1
    = trace s1 ++ Logged (LogRecord "old" "new" template) :: rest.
Proof.
  pose proof (rename_keeps_logger 2 0 "new" (DelItem "k")
                (State [OConfiguration "old" [] "old"] []) "old" [] "old" eq_refl eq_refl) as H.
  cbv zeta in H. destruct H as (_ & Hh & (template & rest & Ht & _) & _).
  split; [exact Hh|]. exists template, rest. exact Ht.
Defined.

(** ** The wrapping invariant is kept *)

Lemma forallb_Forall {A} (f : A -> bool) l :
  forallb f l = true <-> Forall (fun x => f x = true) l.
Proof.
  induction l as [|x l IH]; cbn.
  - split; [constructor | reflexivity].
  - rewrite andb_true_iff, IH, Forall_cons. reflexivity.
Qed.

Lemma wrapping_invariant_wrapped_store h : wrapping_invariant h = true <-> wrapped_store h.
Proof.
  unfold wrapping_invariant, wrapped_store. rewrite forallb_Forall.
  split; intros H; eapply Forall_impl; try exact H; intros o Ho; now apply forallb_Forall.
Qed.

Lemma stored_wrapped_mono h h' v :
  length h <= length h' -> stored_wrapped h v = true -> stored_wrapped h' v = true.
Proof.
  intros L. destruct v as [x|l|l|l|d|a]; cbn; try easy.
  intros H. apply bool_decide_eq_true in H. apply bool_decide_eq_true. lia.
Qed.

Lemma refs_below_mono : forall v n n',
  n <= n' -> refs_below n v = true -> refs_below n' v = true.
Proof.
  induction v as [x|l IH|l IH|l IH|d IH|a] using value_induction; intros n n' L; cbn [refs_below];
    try reflexivity;
    try (rewrite !forallb_Forall; intros H; rewrite Forall_forall in IH, H |- *;
         intros y Hy; eapply IH; eauto).
  intros H. apply bool_decide_eq_true in H. apply bool_decide_eq_true. lia.
Qed.

Lemma stored_wrapped_refs h v : stored_wrapped h v = true -> refs_below (length h) v = true.
Proof. destruct v; cbn; easy. Qed.

Lemma refs_below_stored h n v :
  refs_below n v = true -> n <= length h -> is_atom v = true \/ (exists a, v = VRef a) ->
  stored_wrapped h v = true.
Proof.
  intros Hv L [Ha|[a ->]]; [now destruct v|].
  cbn in Hv |- *. apply bool_decide_eq_true in Hv. apply bool_decide_eq_true. lia.
Qed.

Lemma Forall_stored_mono h h' (l : list value) :
  length h <= length h' ->
  Forall (fun x => stored_wrapped h x = true) l -> Forall (fun x => stored_wrapped h' x = true) l.
Proof. intros L H. eapply Forall_impl; [exact H|]. intros x. now apply stored_wrapped_mono. Qed.

Lemma wrapped_store_alloc h o :
  wrapped_store h -> Forall (fun x => stored_wrapped h x = true) (elements o) ->
  wrapped_store (h ++ [o]).
Proof.
  intros H Ho. unfold wrapped_store.
  assert (L : length h <= length (h ++ [o])) by (rewrite length_app; lia).
  apply Forall_app_2.
  - eapply Forall_impl; [exact H|]. intros o' Ho'. now apply (Forall_stored_mono h).
  - constructor; [|constructor]. now apply (Forall_stored_mono h).
Qed.

Lemma wrapped_store_insert h a o :
  wrapped_store h -> Forall (fun x => stored_wrapped h x = true) (elements o) ->
  wrapped_store (<[a:=o]> h).
Proof.
  intros H Ho. unfold wrapped_store.
  assert (L : length h <= length (<[a:=o]> h)) by (now rewrite length_insert).
  apply Forall_insert.
  - eapply Forall_impl; [exact H|]. intros o' Ho'. now apply (Forall_stored_mono h).
  - now apply (Forall_stored_mono h).
Qed.

Lemma wrapped_store_lookup h (a : addr) o :
  wrapped_store h -> h !! a = Some o -> Forall (fun x => stored_wrapped h x = true) (elements o).
Proof. intros H Ho. exact (Forall_lookup_1 _ _ _ _ H Ho). Qed.

Lemma store_ok_insert n h a o :
  store_ok n h -> Forall (fun x => stored_wrapped h x = true) (elements o) ->
  store_ok n (<[a:=o]> h).
Proof.
  intros [H L] Ho. split; [now apply wrapped_store_insert | now rewrite length_insert].
Qed.

Lemma store_ok_alloc n h o :
  store_ok n h -> Forall (fun x => stored_wrapped h x = true) (elements o) ->
  store_ok n (h ++ [o]) /\ stored_wrapped (h ++ [o]) (VRef (length h)) = true.
Proof.
  intros [H L] Ho. repeat split.
  - now apply wrapped_store_alloc.
  - rewrite length_app. lia.
  - cbn. apply bool_decide_eq_true. rewrite length_app. cbn. lia.
Qed.

Lemma store_ok_le n n' h : n <= n' -> store_ok n' h -> store_ok n h.
Proof. intros L [H L']. split; [exact H | lia]. Qed.

Section WrapLoop.
Context {A B : Type}.
Variable wrap : string -> value -> M value.
Variable N : nat.
Variables (name : A -> string) (val : A -> value).
Variable g : B -> A -> value -> outcome B.
Variable els : B -> list value.

Hypothesis wrap_keeps : forall n x, refs_below N x = true ->
  hoare (store_ok N) (wrap n x) (fun w h => store_ok N h /\ stored_wrapped h w = true) (store_ok N).
Hypothesis wrap_extends : forall n x, steps extends (wrap n x).
Hypothesis g_elements : forall acc x w r, g acc x w = Ok r ->
  Forall (fun y => y = w \/ In y (els acc)) (els r).

(** The loop of a constructor: what it has collected so far is wrapped,
    and so is the store, also when an element makes it fail. *)
Lemma wrap_loop_keeps l :
  Forall (fun x => refs_below N (val x) = true) l ->
  forall acc s,
    store_ok N (heap s) -> Forall (fun y => stored_wrapped (heap s) y = true) (els acc) ->
    match for_each (fun acc x => w <- wrap (name x) (val x) ;; lift (g acc x w)) acc l s with
    | (s', Ok r) =>
        store_ok N (heap s') /\ Forall (fun y => stored_wrapped (heap s') y = true) (els r)
    | (s', Raise _) => store_ok N (heap s')
    end.
Proof using wrap_keeps wrap_extends g_elements.
  induction 1 as [|x l Hx _ IH]; intros acc s Hs Hacc; cbn [for_each].
  - now split.
  - unfold bind at 1. unfold bind at 1.
    pose proof (wrap_keeps (name x) _ Hx s Hs) as Hw.
    pose proof (wrap_extends (name x) (val x) s) as He.
    destruct (wrap (name x) (val x) s) as [s1 [w|e]]; [|exact Hw].
    destruct Hw as [Hs1 Hw]. cbn [fst] in He. unfold lift.
    destruct (g acc x w) as [r|e] eqn:Eg; [|exact Hs1].
    apply IH; [exact Hs1|].
    pose proof (g_elements _ _ _ _ Eg) as Hr.
    rewrite Forall_forall in Hr |- *. intros y Hy.
    destruct (Hr y Hy) as [->|Hin]; [exact Hw|].
    apply (stored_wrapped_mono (heap s)); [now apply prefix_length|].
    rewrite Forall_forall in Hacc. apply Hacc. now apply list_elem_of_In.
Qed.
End WrapLoop.

Lemma dict_set_values (d : list (string * value)) k w :
  Forall (fun y => y = w \/ In y (map snd d)) (map snd (dict_set d k w)).
Proof.
  induction d as [|[k0 w0] d IH]; cbn [dict_set].
  - repeat constructor.
  - destruct (String.eqb k0 k); cbn [map snd].
    + constructor; [now left|]. apply Forall_forall. intros y Hy. right. right.
      now apply list_elem_of_In.
    + constructor; [right; now left|]. eapply Forall_impl; [exact IH|].
      intros y [->|Hy]; [now left | right; now right].
Qed.

Lemma set_add_values acc w r :
  set_add acc w = Ok r -> Forall (fun y => y = w \/ In y acc) r.
Proof.
  unfold set_add. destruct (hashable w); [|discriminate]. intros [= <-].
  apply Forall_forall. intros y Hy. apply list_elem_of_In in Hy.
  destruct (set_mem w acc); [now right|].
  apply in_app_or in Hy as [Hy|[->|[]]]; [now right | now left].
Qed.

Section ConstructorsKeep.
Variable wrap : string -> value -> M value.
Variable N : nat.
Hypothesis wrap_keeps : forall n x, refs_below N x = true ->
  hoare (store_ok N) (wrap n x) (fun w h => store_ok N h /\ stored_wrapped h w = true) (store_ok N).
Hypothesis wrap_extends : forall n x, steps extends (wrap n x).

Lemma LoggedList_new_keeps n l :
  Forall (fun x => refs_below N x = true) l ->
  hoare (store_ok N) (LoggedList_new wrap n l)
        (fun w h => store_ok N h /\ stored_wrapped h w = true) (store_ok N).
Proof using wrap_keeps wrap_extends.
  intros Hl s Hs. unfold LoggedList_new, bind.
  pose proof (wrap_loop_keeps wrap N (fun _ => n +:+ "[...]") (fun x => x)
                (fun acc _ w => Ok (acc ++ [w])) (fun acc => acc) wrap_keeps wrap_extends) as H.
  specialize (H ltac:(intros acc x w r [= <-]; apply Forall_forall; intros y Hy;
                      apply list_elem_of_In in Hy; apply in_app_or in Hy as [Hy|[->|[]]];
                      [now right | now left]) l Hl [] s Hs ltac:(constructor)).
  unfold lift in H. unfold ret. unfold bind in H.
  destruct (for_each _ [] l s) as [s1 [r|e]]; [|exact H].
  destruct H as [H1 H2]. cbn. now apply store_ok_alloc.
Qed.

Lemma LoggedSet_new_keeps n l :
  Forall (fun x => refs_below N x = true) l ->
  hoare (store_ok N) (LoggedSet_new wrap n l)
        (fun w h => store_ok N h /\ stored_wrapped h w = true) (store_ok N).
Proof using wrap_keeps wrap_extends.
  intros Hl s Hs. unfold LoggedSet_new, bind.
  pose proof (wrap_loop_keeps wrap N (fun _ => n +:+ "[...]") (fun x => x)
                (fun acc _ w => set_add acc w) (fun acc => acc) wrap_keeps wrap_extends) as H.
  specialize (H ltac:(intros acc x w r Hr; now apply set_add_values)
                l Hl [] s Hs ltac:(constructor)).
  unfold bind in H.
  destruct (for_each _ [] l s) as [s1 [r|e]]; [|exact H].
  destruct H as [H1 H2]. cbn. now apply store_ok_alloc.
Qed.

Lemma LoggedConfiguration_new_keeps n (d : list (string * value)) :
  Forall (fun kv : string * value => refs_below N kv.2 = true) d ->
  hoare (store_ok N) (LoggedConfiguration_new wrap n d)
        (fun w h => store_ok N h /\ stored_wrapped h w = true) (store_ok N).
Proof using wrap_keeps wrap_extends.
  intros Hl s Hs. unfold LoggedConfiguration_new, bind.
  pose proof (wrap_loop_keeps wrap N (fun kv : string * value => n +:+ "." +:+ kv.1)
                (fun kv : string * value => kv.2)
                (fun acc (kv : string * value) w => Ok (dict_set acc kv.1 w))
                (fun acc : list (string * value) => map snd acc) wrap_keeps wrap_extends) as H.
  specialize (H ltac:(intros acc x w r [= <-]; apply dict_set_values)
                d Hl [] s Hs ltac:(constructor)).
  unfold lift in H. unfold ret. unfold bind in H.
  destruct (for_each _ [] d s) as [s1 [r|e]]; [|exact H].
  destruct H as [H1 H2]. cbn. now apply store_ok_alloc.
Qed.
End ConstructorsKeep.

(** Wrapping keeps the store wrapped and returns a wrapped value, also
    when it fails part of the way. *)
Lemma wrap_keeps fuel : forall N n v,
  refs_below N v = true ->
  hoare (store_ok N) (wrap_logged_config_value fuel n v)
        (fun w h => store_ok N h /\ stored_wrapped h w = true) (store_ok N).
Proof.
  induction fuel as [|fuel IH]; intros N n v Hv s Hs; [exact Hs|].
  cbn [wrap_logged_config_value].
  set (N' := length (heap s)).
  assert (Hs' : store_ok N' (heap s)) by (split; [apply Hs | reflexivity]).
  assert (LN : N <= N') by apply Hs.
  assert (Hweak : forall (r : state * outcome value),
             match r with
             | (s', Ok w) => store_ok N' (heap s') /\ stored_wrapped (heap s') w = true
             | (s', Raise _) => store_ok N' (heap s')
             end ->
             match r with
             | (s', Ok w) => store_ok N (heap s') /\ stored_wrapped (heap s') w = true
             | (s', Raise _) => store_ok N (heap s')
             end).
  { intros [s' [w|e]]; [intros [H1 H2]; split; [|exact H2]|intros H1];
      now apply (store_ok_le N N'). }
  assert (Hobj : forall (a : addr) o, heap s !! a = Some o ->
             Forall (fun x => refs_below N' x = true) (elements o)).
  { intros a o Ho. eapply Forall_impl; [exact (wrapped_store_lookup _ _ _ (proj1 Hs) Ho)|].
    intros x. apply stored_wrapped_refs. }
  destruct (as_list_or_tuple (heap s) v) as [l|] eqn:El.
  { apply Hweak. apply (LoggedList_new_keeps _ N' (fun n x => IH N' n x)
                          (fun n x => extends_wrap fuel n x)); [|exact Hs'].
    destruct v as [x|l0|l0|l0|d|a]; try discriminate El.
    - injection El as <-. cbn in Hv. apply forallb_Forall in Hv.
      eapply Forall_impl; [exact Hv|]. intros x. now apply refs_below_mono.
    - injection El as <-. cbn in Hv. apply forallb_Forall in Hv.
      eapply Forall_impl; [exact Hv|]. intros x. now apply refs_below_mono.
    - cbn in El. destruct (heap s !! a) as [[| |]|] eqn:Ho; try discriminate El.
      injection El as <-. exact (Hobj _ _ Ho). }
  destruct (as_set (heap s) v) as [l|] eqn:Es.
  { apply Hweak. apply (LoggedSet_new_keeps _ N' (fun n x => IH N' n x)
                          (fun n x => extends_wrap fuel n x)); [|exact Hs'].
    destruct v as [x|l0|l0|l0|d|a]; try discriminate Es.
    - injection Es as <-. cbn in Hv. apply forallb_Forall in Hv.
      eapply Forall_impl; [exact Hv|]. intros x. now apply refs_below_mono.
    - cbn in Es. destruct (heap s !! a) as [[| |]|] eqn:Ho; try discriminate Es.
      injection Es as <-. exact (Hobj _ _ Ho). }
  destruct (as_dict v) as [d|] eqn:Ed.
  { apply Hweak. apply (LoggedConfiguration_new_keeps _ N' (fun n x => IH N' n x)
                          (fun n x => extends_wrap fuel n x)); [|exact Hs'].
    destruct v as [x|l0|l0|l0|d0|a]; try discriminate Ed.
    injection Ed as <-. cbn in Hv. apply forallb_Forall in Hv.
    eapply Forall_impl; [exact Hv|]. intros x. now apply refs_below_mono. }
  split; [exact Hs|].
  destruct v as [x|l0|l0|l0|d0|a]; try discriminate; [reflexivity|].
  cbn in Hv |- *. apply bool_decide_eq_true in Hv. apply bool_decide_eq_true. lia.
Qed.

Lemma dict_del_values (P : value -> Prop) (d : list (string * value)) k :
  Forall P (map snd d) -> Forall P (map snd (dict_del d k)).
Proof.
  induction d as [|[k0 w0] d IH]; [easy|]. cbn. intros H. apply Forall_cons in H as [H1 H2].
  destruct (String.eqb k0 k); [exact H2|]. cbn. constructor; [exact H1 | now apply IH].
Qed.

Lemma set_del_values (P : value -> Prop) l v : Forall P l -> Forall P (set_del l v).
Proof.
  induction l as [|x l IH]; [easy|]. cbn. intros H. apply Forall_cons in H as [H1 H2].
  destruct (key_eqb v x); [exact H2|]. constructor; [exact H1 | now apply IH].
Qed.

Lemma list_remove_values (P : value -> Prop) eq l v : forall r,
  list_remove eq l v = Ok r -> Forall P l -> Forall P r.
Proof.
  induction l as [|x l IH]; intros r; [discriminate|]. cbn.
  intros H HP. apply Forall_cons in HP as [H1 H2].
  destruct (eq x v) as [[|]|]; try discriminate H.
  - now injection H as <-.
  - destruct (list_remove eq l v) as [r'|e]; [|discriminate H]. cbn in H.
    injection H as <-. constructor; [exact H1 | now apply IH].
Qed.

Lemma list_pop_at_values (P : value -> Prop) l i x r :
  list_pop_at l i = Ok (x, r) -> Forall P l -> Forall P r.
Proof.
  unfold list_pop_at. destruct (_ || _); [discriminate|].
  destruct (l !! _); [|discriminate]. intros [= _ <-]. apply Forall_delete.
Qed.

Lemma list_insert_at_values (P : value -> Prop) l i w :
  Forall P l -> P w -> Forall P (list_insert_at l i w).
Proof.
  intros Hl Hw. unfold list_insert_at. apply Forall_app_2; [now apply Forall_take|].
  constructor; [exact Hw | now apply Forall_drop].
Qed.

(** What a loop over an iterable sees refers to objects of the store. *)
Lemma py_iter_refs h v xs N :
  wrapped_store h -> N <= length h -> refs_below N v = true -> py_iter h v = Ok xs ->
  Forall (fun x => refs_below (length h) x = true) xs.
Proof.
  intros Hh L Hv H.
  assert (Hmono : forall l, forallb (refs_below N) l = true ->
                            Forall (fun x => refs_below (length h) x = true) l).
  { intros l Hl. apply forallb_Forall in Hl. eapply Forall_impl; [exact Hl|].
    intros x. now apply refs_below_mono. }
  assert (Hkeys : forall d : list (string * value),
             Forall (fun x => refs_below (length h) x = true)
                    (map (fun kv : string * value => VAtom (AStr kv.1)) d)).
  { intros d. apply Forall_forall. intros x Hx. apply list_elem_of_In, in_map_iff in Hx.
    now destruct Hx as (kv & <- & _). }
  destruct v as [x|l|l|l|d|a]; cbn in H.
  - destruct x; try discriminate H. injection H as <-.
    clear Hv. unfold chars. apply Forall_forall. intros x Hx.
    apply list_elem_of_In, in_map_iff in Hx. now destruct Hx as (p & <- & _).
  - injection H as <-. now apply Hmono.
  - injection H as <-. now apply Hmono.
  - injection H as <-. now apply Hmono.
  - injection H as <-. apply Hkeys.
  - destruct (h !! a) as [[n d c|n l c|n l c]|] eqn:Ho; try discriminate H; injection H as <-.
    + apply Hkeys.
    + eapply Forall_impl; [exact (wrapped_store_lookup _ _ _ Hh Ho)|].
      intros x. apply stored_wrapped_refs.
    + eapply Forall_impl; [exact (wrapped_store_lookup _ _ _ Hh Ho)|].
      intros x. apply stored_wrapped_refs.
Qed.

Lemma extend_step_keeps fuel self nm N x s :
  refs_below N x = true -> store_ok N (heap s) ->
  store_ok N (heap ((w <- wrap_logged_config_value fuel nm x ;;
                     '(n', l', c') <- self_list self ;;
                     store self (OList n' (l' ++ [w]) c')) s).1).
Proof.
  intros Hx Hs. unfold bind at 1.
  pose proof (wrap_keeps fuel N nm x Hx s Hs) as Hw.
  destruct (wrap_logged_config_value fuel nm x s) as [s1 [w|e]]; [|exact Hw].
  destruct Hw as [H1 Hw]. unfold bind, self_list.
  destruct (heap s1 !! self) as [[n d c|n l c|n l c]|] eqn:Ho; try exact H1.
  cbn [store fst heap]. apply store_ok_insert; [exact H1|].
  cbn [elements]. apply Forall_app_2; [|now repeat constructor].
  exact (wrapped_store_lookup _ _ _ (proj1 H1) Ho).
Qed.

Lemma extend_loop_keeps fuel self nm N xs :
  Forall (fun x => refs_below N x = true) xs ->
  forall s, store_ok N (heap s) ->
    store_ok N (heap (for_each (fun _ x =>
                                  w <- wrap_logged_config_value fuel nm x ;;
                                  '(n', l', c') <- self_list self ;;
                                  store self (OList n' (l' ++ [w]) c')) tt xs s).1).
Proof.
  induction 1 as [|x xs Hx _ IH]; intros s Hs; [exact Hs|].
  cbn [for_each]. unfold bind at 1.
  pose proof (extend_step_keeps fuel self nm N x s Hx Hs) as Hstep.
  destruct ((w <- wrap_logged_config_value fuel nm x ;;
             '(n', l', c') <- self_list self ;;
             store self (OList n' (l' ++ [w]) c')) s) as [s1 [[]|e]]; [|exact Hstep].
  now apply IH.
Qed.

Lemma discard_key_keeps self N x s :
  store_ok N (heap s) -> store_ok N (heap (LoggedSet.discard_key self x s).1).
Proof.
  intros Hs. unfold LoggedSet.discard_key, bind, self_set.
  destruct (heap s !! self) as [[n d c|n l c|n l c]|] eqn:Ho; try exact Hs.
  destruct (hashable x); [|exact Hs]. cbn [store fst heap].
  apply store_ok_insert; [exact Hs|]. cbn [elements]. apply set_del_values.
  exact (wrapped_store_lookup _ _ _ (proj1 Hs) Ho).
Qed.

Lemma discard_loop_keeps self N xs :
  forall s, store_ok N (heap s) ->
    store_ok N (heap (for_each (fun _ x => LoggedSet.discard_key self x) tt xs s).1).
Proof.
  induction xs as [|x xs IH]; intros s Hs; [exact Hs|].
  cbn [for_each]. unfold bind at 1.
  pose proof (discard_key_keeps self N x s Hs) as Hstep.
  destruct (LoggedSet.discard_key self x s) as [s1 [[]|e]]; [|exact Hstep].
  now apply IH.
Qed.

(** A logging method that wraps what it inserts leaves a wrapped store
    wrapped, whether it returns or raises. *)
Lemma call_keeps fuel self call N :
  wraps_argument call = true ->
  Forall (fun v => refs_below N v = true) (call_arguments call) ->
  forall s, store_ok N (heap s) -> store_ok N (heap (call_method fuel self call s).1).
Proof.
  intros Hc Hargs s Hs.
  destruct call; try discriminate Hc; cbn [call_method call_arguments] in *;
    repeat match goal with
           | H : Forall _ (_ :: _) |- _ => apply Forall_cons in H as [? H]
           end.
  - (* __setitem__ *)
    unfold LoggedConfiguration.__setitem__, bind at 1. unfold self_config at 1.
    destruct (heap s !! self) as [[n d c|n l c|n l c]|] eqn:Ho; try exact Hs.
    unfold bind at 1. cbn [info]. unfold bind at 1.
    pose proof (wrap_keeps fuel N (n +:+ "." +:+ key) v H
                  (State (heap s) (trace s ++ [Logged (LogRecord c n (LogSetting key v))])) Hs)
      as Hw.
    destruct (wrap_logged_config_value _ _ _ _) as [s1 [w|e]]; [|exact Hw].
    destruct Hw as [H1 Hw]. unfold bind, self_config.
    destruct (heap s1 !! self) as [[n' d' c'|n' l' c'|n' l' c']|] eqn:Ho1; try exact H1.
    cbn [store fst heap]. apply store_ok_insert; [exact H1|]. cbn [elements].
    eapply Forall_impl; [apply dict_set_values|]. intros y [->|Hy]; [exact Hw|].
    pose proof (wrapped_store_lookup _ _ _ (proj1 H1) Ho1) as Hd. cbn [elements] in Hd.
    rewrite Forall_forall in Hd. apply Hd. now apply list_elem_of_In.
  - (* __delitem__ *)
    unfold LoggedConfiguration.__delitem__, bind, self_config.
    destruct (heap s !! self) as [[n d c|n l c|n l c]|] eqn:Ho; try exact Hs.
    cbn [info]. destruct (dict_get d key); [|exact Hs].
    cbn [store fst heap]. apply store_ok_insert; [exact Hs|]. cbn [elements].
    apply dict_del_values. exact (wrapped_store_lookup _ _ _ (proj1 Hs) Ho).
  - (* append *)
    unfold LoggedList.append, bind at 1. unfold self_list at 1.
    destruct (heap s !! self) as [[n d c|n l c|n l c]|] eqn:Ho; try exact Hs.
    unfold bind at 1. cbn [info]. unfold bind at 1.
    pose proof (wrap_keeps fuel N (n +:+ "[...]") v H
                  (State (heap s) (trace s ++ [Logged (LogRecord c n (LogAppending v))])) Hs)
      as Hw.
    destruct (wrap_logged_config_value _ _ _ _) as [s1 [w|e]]; [|exact Hw].
    destruct Hw as [H1 Hw]. unfold bind, self_list.
    destruct (heap s1 !! self) as [[n' d' c'|n' l' c'|n' l' c']|] eqn:Ho1; try exact H1.
    cbn [store fst heap]. apply store_ok_insert; [exact H1|]. cbn [elements].
    apply Forall_app_2; [|now repeat constructor].
    exact (wrapped_store_lookup _ _ _ (proj1 H1) Ho1).
  - (* insert *)
    unfold LoggedList.insert, bind at 1. unfold self_list at 1.
    destruct (heap s !! self) as [[n d c|n l c|n l c]|] eqn:Ho; try exact Hs.
    unfold bind at 1. cbn [info]. unfold bind at 1.
    pose proof (wrap_keeps fuel N (n +:+ "[...]") v H0
                  (State (heap s) (trace s ++ [Logged (LogRecord c n (LogInserting v index))])) Hs)
      as Hw.
    destruct (wrap_logged_config_value _ _ _ _) as [s1 [w|e]]; [|exact Hw].
    destruct Hw as [H1 Hw]. unfold bind, lift, self_list.
    destruct (as_index index) as [i|e]; [|exact H1].
    destruct (heap s1 !! self) as [[n' d' c'|n' l' c'|n' l' c']|] eqn:Ho1; try exact H1.
    cbn [store fst heap]. apply store_ok_insert; [exact H1|]. cbn [elements].
    apply list_insert_at_values; [|exact Hw].
    exact (wrapped_store_lookup _ _ _ (proj1 H1) Ho1).
  - (* remove *)
    unfold LoggedList.remove, bind, self_list.
    destruct (heap s !! self) as [[n d c|n l c|n l c]|] eqn:Ho; try exact Hs.
    cbn [info get_heap lift fst snd heap].
    destruct (list_remove _ l v) as [l'|e] eqn:Er; [|exact Hs].
    cbn [store fst heap]. apply store_ok_insert; [exact Hs|]. cbn [elements].
    eapply list_remove_values; [exact Er|].
    exact (wrapped_store_lookup _ _ _ (proj1 Hs) Ho).
  - (* pop *)
    rewrite ignore_state. unfold LoggedList.pop, bind, self_list.
    destruct (heap s !! self) as [[n d c|n l c|n l c]|] eqn:Ho; try exact Hs.
    cbn [info lift fst snd heap].
    destruct (as_index index) as [i|e]; [|exact Hs].
    destruct (list_pop_at l i) as [[x l']|e] eqn:Ep; [|exact Hs].
    cbn [store fst heap]. apply store_ok_insert; [exact Hs|]. cbn [elements].
    eapply list_pop_at_values; [exact Ep|].
    exact (wrapped_store_lookup _ _ _ (proj1 Hs) Ho).
  - (* clear *)
    unfold LoggedList.clear, bind, self_list.
    destruct (heap s !! self) as [[n d c|n l c|n l c]|] eqn:Ho; try exact Hs.
    cbn [info store fst heap]. apply store_ok_insert; [exact Hs | constructor].
  - (* extend *)
    unfold LoggedList.extend, bind at 1. unfold self_list at 1.
    destruct (heap s !! self) as [[n d c|n l c|n l c]|] eqn:Ho; try exact Hs.
    unfold bind at 1. cbn [info]. unfold bind at 1. cbn [get_heap heap].
    unfold bind at 1. unfold lift.
    destruct (py_iter (heap s) iterable) as [xs|e] eqn:Ei; [|exact Hs].
    destruct (same_object iterable (VRef self) && negb (bool_decide (l = []))); [exact Hs|].
    apply (store_ok_le N (length (heap s))); [apply Hs|].
    apply extend_loop_keeps.
    + exact (py_iter_refs _ _ _ N (proj1 Hs) (proj2 Hs) H Ei).
    + split; [apply Hs | reflexivity].
  - (* discard *)
    unfold LoggedSet.discard, bind, self_set.
    destruct (heap s !! self) as [[n d c|n l c|n l c]|] eqn:Ho; try exact Hs.
    cbn [info get_heap lift fst snd heap].
    destruct (set_lookup_key (heap s) v) as [[k|]|e]; try exact Hs.
    cbn [store fst heap]. apply store_ok_insert; [exact Hs|]. cbn [elements].
    apply set_del_values. exact (wrapped_store_lookup _ _ _ (proj1 Hs) Ho).
  - (* remove *)
    unfold LoggedSet.remove, bind, self_set.
    destruct (heap s !! self) as [[n d c|n l c|n l c]|] eqn:Ho; try exact Hs.
    cbn [info get_heap lift fst snd heap].
    destruct (set_lookup_key (heap s) v) as [[k|]|e]; try exact Hs.
    destruct (set_mem k l); [|exact Hs].
    cbn [store fst heap]. apply store_ok_insert; [exact Hs|]. cbn [elements].
    apply set_del_values. exact (wrapped_store_lookup _ _ _ (proj1 Hs) Ho).
  - (* pop *)
    rewrite ignore_state. unfold LoggedSet.pop, bind, self_set.
    destruct (heap s !! self) as [[n d c|n l c|n l c]|] eqn:Ho; exact Hs.
  - (* clear *)
    unfold LoggedSet.clear, bind, self_set.
    destruct (heap s !! self) as [[n d c|n l c|n l c]|] eqn:Ho; try exact Hs.
    cbn [info store fst heap]. apply store_ok_insert; [exact Hs | constructor].
  - (* difference_update *)
    unfold LoggedSet.difference_update, bind at 1. unfold self_set at 1.
    destruct (heap s !! self) as [[n d c|n l c|n l c]|] eqn:Ho; try exact Hs.
    unfold bind at 1. cbn [info].
    destruct (same_object v (VRef self)).
    + cbn [store fst heap]. apply store_ok_insert; [exact Hs | constructor].
    + unfold bind at 1. cbn [get_heap heap]. unfold bind at 1. unfold lift.
      destruct (py_iter (heap s) v) as [xs|e]; [|exact Hs].
      now apply discard_loop_keeps.
Qed.

(** X14. Wrapping keeps the recursive-wrapping invariant: in a store
    where every container holds only atoms and logged containers, wrapping
    a value whose references are to objects of the store leaves such a
    store, whether it returns or raises, and what it returns is an atom or
    a logged container of the store.  So does the construction of a
    [LoggedConfiguration]. *)
Theorem wrapping_keeps_invariant (fuel : nat) (n : string) (v : value) (s : state) :
  wrapping_invariant (heap s) = true ->
  refs_below (length (heap s)) v = true ->
  wrapping_invariant (heap (wrap_logged_config_value fuel n v s).1) = true /\
  (forall w, (wrap_logged_config_value fuel n v s).2 = Ok w ->
             stored_wrapped (heap (wrap_logged_config_value fuel n v s).1) w = true) /\
  (forall d, v = VDict d ->
             wrapping_invariant (heap (LoggedConfiguration.__init__ fuel n d s).1) = true).
Proof.
  intros Hs Hv. apply wrapping_invariant_wrapped_store in Hs.
  assert (Hok : store_ok (length (heap s)) (heap s)) by (now split).
  repeat apply conj.
  - pose proof (wrap_keeps fuel _ n v Hv s Hok) as H.
    destruct (wrap_logged_config_value fuel n v s) as [s' [w|e]];
      apply wrapping_invariant_wrapped_store; apply H.
  - intros w Hw. pose proof (wrap_keeps fuel _ n v Hv s Hok) as H.
    destruct (wrap_logged_config_value fuel n v s) as [s' [w'|e]]; [|discriminate Hw].
    cbn in Hw. injection Hw as ->. apply H.
  - intros d ->. pose proof (wrap_keeps (S fuel) _ n (VDict d) Hv s Hok) as H.
    cbn [wrap_logged_config_value as_list_or_tuple as_set as_dict] in H.
    unfold LoggedConfiguration.__init__.
    destruct (LoggedConfiguration_new _ n d s) as [s' [w|e]];
      apply wrapping_invariant_wrapped_store; apply H.
Qed.

Lemma wrapping_keeps_invariant_witness :
  let v := VDict [("a", VList [VTuple [VAtom (AInt 1)]; VRef 0])] in
  let s := State [OSet "s" [VAtom (AInt 2)] "s"] [] in
  wrapping_invariant (heap (wrap_logged_config_value 4 "n" v s).1) = true /\
  (forall w, (wrap_logged_config_value 4 "n" v s).2 = Ok w ->
             stored_wrapped (heap (wrap_logged_config_value 4 "n" v s).1) w = true).
Proof.
  destruct (wrapping_keeps_invariant 4 "n" (VDict [("a", VList [VTuple [VAtom (AInt 1)]; VRef 0])])
              (State [OSet "s" [VAtom (AInt 2)] "s"] []) eq_refl eq_refl) as (H1 & H2 & _).
  split; [exact H1 | exact H2].
Defined.

(** X15. Every logging method but [LoggedSet.add], [update] and
    [symmetric_difference_update] keeps the recursive-wrapping invariant:
    called on a store where every container holds only atoms and logged
    containers, with arguments whose references are to objects of the
    store, it leaves such a store, whether it returns or raises. *)
Theorem mutators_keep_wrapping_invariant
    (fuel : nat) (self : addr) (c : mutating_call) (s : state) :
  wraps_argument c = true ->
  forallb (refs_below (length (heap s))) (call_arguments c) = true ->
  wrapping_invariant (heap s) = true ->
  wrapping_invariant (heap (call_method fuel self c s).1) = true.
Proof.
  intros Hc Hargs Hs. apply wrapping_invariant_wrapped_store in Hs.
  apply forallb_Forall in Hargs.
  apply wrapping_invariant_wrapped_store.
  apply (call_keeps fuel self c (length (heap s)) Hc Hargs s). now split.
Qed.

Lemma mutators_keep_wrapping_invariant_witness :
  let s := State [OList "l" [] "l"] [] in
  let t := VTuple [VAtom (AInt 1); VSet [VAtom (AInt 2)]] in
  wrapping_invariant (heap (call_method 3 0 (ListAppend t) s).1) = true /\
  length (heap (call_method 3 0 (ListAppend t) s).1) = 3.
Proof.
  split; [|reflexivity].
  exact (mutators_keep_wrapping_invariant 3 0
           (ListAppend (VTuple [VAtom (AInt 1); VSet [VAtom (AInt 2)]]))
           (State [OList "l" [] "l"] []) eq_refl eq_refl eq_refl).
Defined.

(** ** A shallow copy holds the same data *)

(** A wrapped value flattens to some plain value, and wrapping it again
    gives a value that flattens to the same. *)
Lemma wrapped_flattens k : forall h0 w,
  wrapped_above 0 k h0 w = true ->
  exists p, flattens h0 w p /\ forall g, k < g -> wrap_ok flattens g h0 w p.
Proof.
  induction k as [|k IH]; intros h0 w H; [discriminate H|].
  cbn [wrapped_above] in H. destruct w as [x|l|l|l|d|a]; try discriminate H.
  - exists (VAtom x). split; [apply flattens_atom|].
    intros g Hg n s Hs. destruct g as [|g]; [lia|].
    exists s, (VAtom x). repeat split; [reflexivity | apply flattens_atom].
  - cbn [Nat.leb andb] in H.
    destruct (h0 !! a) as [[n d c|n l c|n l c]|] eqn:Ho; [| | |discriminate H].
    + apply andb_prop in H as [Hd Hl].
      assert (Hel : exists dp,
                 Forall2 (fun kv kp : string * value =>
                            kv.1 = kp.1 /\ flattens h0 kv.2 kp.2 /\
                            forall g, k < g -> wrap_ok flattens g h0 kv.2 kp.2) d dp).
      { clear Ho Hd. induction d as [|[k0 x] d IHd]; [exists []; constructor|].
        cbn in Hl. apply andb_prop in Hl as [Hx Hl].
        destruct (IH _ _ Hx) as (p & Hp & Hw). destruct (IHd Hl) as (dp & Hdp).
        exists ((k0, p) :: dp). constructor; [now repeat split | exact Hdp]. }
      destruct Hel as (dp & Hdp). exists (VDict dp). split.
      * eapply flattens_dict; [exact Ho | |].
        -- eapply Forall2_impl; [exact Hdp|]. intros kv kp (E & F1 & _). now split.
        -- rewrite <- (Forall2_keys (fun _ _ => True) d dp); [exact Hd|].
           eapply Forall2_impl; [exact Hdp|]. intros kv kp (E & _). now split.
      * intros g Hg nm s Hs. destruct g as [|g]; [lia|].
        assert (Ho' : heap s !! a = Some (OConfiguration n d c))
          by (eapply prefix_lookup_Some; eassumption).
        exists s, (VRef a). repeat split.
        -- now apply (wrap_config_ref g nm a s n d c).
        -- reflexivity.
        -- apply (flattens_prefix h0); [exact Hs|]. eapply flattens_dict; [exact Ho | |].
           ++ eapply Forall2_impl; [exact Hdp|]. intros kv kp (E & F1 & _). now split.
           ++ rewrite <- (Forall2_keys (fun _ _ => True) d dp); [exact Hd|].
              eapply Forall2_impl; [exact Hdp|]. intros kv kp (E & _). now split.
        -- discriminate.
    + assert (Hel : exists ps,
                 Forall2 (fun x p => flattens h0 x p /\
                                     forall g, k < g -> wrap_ok flattens g h0 x p) l ps).
      { clear Ho. induction l as [|x l IHl]; [exists []; constructor|].
        cbn in H. apply andb_prop in H as [Hx Hl].
        destruct (IH _ _ Hx) as (p & Hp & Hw). destruct (IHl Hl) as (ps & Hps).
        exists (p :: ps). constructor; [now split | exact Hps]. }
      destruct Hel as (ps & Hps). exists (VList ps). split.
      * eapply flattens_list; [exact Ho|].
        eapply Forall2_impl; [exact Hps|]. now intros x p [F1 _].
      * intros g Hg nm s Hs. destruct g as [|g]; [lia|].
        assert (Ho' : heap s !! a = Some (OList n l c))
          by (eapply prefix_lookup_Some; eassumption).
        destruct (LoggedList_new_ok flattens flattens_prefix flattens_list g h0 nm l ps)
          with (s := s) as (s' & a' & ws & E & G & _ & _ & _ & F1); [|exact Hs|].
        { eapply Forall2_impl; [exact Hps|]. intros x p [_ Hw]. apply Hw. lia. }
        exists s', (VRef a'). repeat split; try assumption; try apply G.
        -- now rewrite (wrap_list_ref g nm a s n l c Ho').
        -- discriminate.
    + apply andb_prop in H as [Hl Hd].
      assert (Hat : forallb is_atom l = true).
      { apply forallb_forall. intros x Hx. rewrite forallb_forall in Hl.
        specialize (Hl x Hx). now apply andb_prop in Hl as [Hl _]. }
      exists (VSet l). split; [now apply (flattens_set h0 a n l c)|].
      intros g Hg nm s Hs. destruct g as [|[|g]]; [lia | lia |].
      assert (Ho' : heap s !! a = Some (OSet n l c))
        by (eapply prefix_lookup_Some; eassumption).
      destruct (LoggedSet_new_atoms flattens flattens_set g nm l s Hat)
        as (s' & a' & E & G & _ & _ & F1).
      rewrite (set_extend_distinct l [] Hd) in F1. cbn [app] in F1.
      exists s', (VRef a'). repeat split; try assumption; try apply G.
      -- now rewrite (wrap_set_ref (S g) nm a s n l c Ho').
      -- discriminate.
Qed.

Lemma flattens_both h w w' p :
  flattens h w p -> flattens h w' p ->
  exists f, forall f', f <= f' ->
    _unwrap f' h false w = Ok p /\ _unwrap f' h false w' = Ok p.
Proof.
  intros [f1 H1] [f2 H2]. exists (Nat.max f1 f2). intros f' Hf. split.
  - eapply unwrap_stable; [|reflexivity|exact H1]. lia.
  - eapply unwrap_stable; [|reflexivity|exact H2]. lia.
Qed.

(** X16. A shallow copy holds the same data as the original: on a store
    that obeys the wrapping invariant, [copy.copy] of a logged container
    returns a container that flattens to the plain value the original
    flattens to, and the original still flattens to it afterwards. *)
Theorem shallow_copy_same_contents (fuel : nat) (self : addr) (s : state) :
  wrapped_above 0 fuel (heap s) (VRef self) = true ->
  exists s' cp p f,
    copy_copy fuel (VRef self) s = (s', Ok (VRef cp)) /\
    flattens (heap s) (VRef self) p /\
    forall f', f <= f' ->
      _unwrap f' (heap s') false (VRef self) = Ok p /\
      _unwrap f' (heap s') false (VRef cp) = Ok p.
Proof.
  intros H. destruct fuel as [|k]; [discriminate H|].
  pose proof H as Hself. cbn [wrapped_above Nat.leb andb] in H. cbn [copy_copy].
  destruct (heap s !! self) as [[n d c|n l c|n l c]|] eqn:Ho; [| | |discriminate H].
  - apply andb_prop in H as [Hd Hl].
    assert (Hel : exists dp,
               Forall2 (fun kv kp : string * value =>
                          kv.1 = kp.1 /\ flattens (heap s) kv.2 kp.2 /\
                          wrap_ok flattens (S k) (heap s) kv.2 kp.2) d dp).
    { clear Ho Hd Hself. induction d as [|[k0 x] d IHd]; [exists []; constructor|].
      cbn in Hl. apply andb_prop in Hl as [Hx Hl].
      destruct (wrapped_flattens _ _ _ Hx) as (p & Hp & Hw). destruct (IHd Hl) as (dp & Hdp).
      exists ((k0, p) :: dp). constructor; [|exact Hdp]. repeat split; [exact Hp|].
      apply Hw. lia. }
    destruct Hel as (dp & Hdp).
    assert (Hp : flattens (heap s) (VRef self) (VDict dp)).
    { eapply flattens_dict; [exact Ho | |].
      - eapply Forall2_impl; [exact Hdp|]. intros kv kp (E & F1 & _). now split.
      - rewrite <- (Forall2_keys (fun _ _ => True) d dp); [exact Hd|].
        eapply Forall2_impl; [exact Hdp|]. intros kv kp (E & _). now split. }
    destruct (LoggedConfiguration_new_ok flattens flattens_prefix flattens_dict
                (S k) (heap s) (n +:+ "(copy)") d dp)
      with (s := s) as (s' & a' & dw & E & G & _ & _ & _ & F1); [|exact Hd|reflexivity|].
    { eapply Forall2_impl; [exact Hdp|]. intros kv kp (E & _ & Hw). now split. }
    destruct (flattens_both (heap s') (VRef self) (VRef a') (VDict dp)) as (f & Hf);
      [eapply flattens_prefix; [apply G | exact Hp] | exact F1 |].
    exists s', a', (VDict dp), f. repeat split; [|exact Hp|apply Hf; assumption..].
    unfold LoggedConfiguration.__copy__, LoggedConfiguration.__init__.
    now rewrite (bind_ok _ _ s s (n, d, c)) by (now apply self_config_ok).
  - destruct (wrapped_flattens _ _ _ Hself) as (p & Hp & Hw).
    destruct (Hw (S (S k)) ltac:(lia) (n +:+ "(copy)") s ltac:(reflexivity))
      as (s' & w' & E & G & F1 & _).
    rewrite (wrap_list_ref _ _ _ _ _ _ _ Ho) in E.
    destruct (LoggedList_new_result _ _ _ _ _ _ E) as (a' & l' & -> & _).
    destruct (flattens_both (heap s') (VRef self) (VRef a') p) as (f & Hf);
      [eapply flattens_prefix; [apply G | exact Hp] | exact F1 |].
    exists s', a', p, f. repeat split; [|exact Hp|apply Hf; assumption..].
    unfold LoggedList.__copy__, LoggedList.__init__.
    now rewrite (bind_ok _ _ s s (n, l, c)) by (now apply self_list_ok).
  - destruct (wrapped_flattens _ _ _ Hself) as (p & Hp & Hw).
    destruct (Hw (S (S k)) ltac:(lia) (n +:+ "(copy)") s ltac:(reflexivity))
      as (s' & w' & E & G & F1 & _).
    rewrite (wrap_set_ref _ _ _ _ _ _ _ Ho) in E.
    destruct (LoggedSet_new_result _ _ _ _ _ _ E) as (a' & l' & -> & _).
    destruct (flattens_both (heap s') (VRef self) (VRef a') p) as (f & Hf);
      [eapply flattens_prefix; [apply G | exact Hp] | exact F1 |].
    exists s', a', p, f. repeat split; [|exact Hp|apply Hf; assumption..].
    unfold LoggedSet.__copy__, LoggedSet.__init__.
    now rewrite (bind_ok _ _ s s (n, l, c)) by (now apply self_set_ok).
Qed.

Lemma shallow_copy_same_contents_witness :
  let s := State [OList "m.a" [VAtom (AInt 1)] "m.a";
                  OSet "m.b" [VAtom (AInt 2)] "m.b";
                  OConfiguration "m" [("a", VRef 0); ("b", VRef 1)] "m"] [] in
  exists s' cp p f,
    copy_copy 3 (VRef 2) s = (s', Ok (VRef cp)) /\
    flattens (heap s) (VRef 2) p /\
    forall f', f <= f' ->
      _unwrap f' (heap s') false (VRef 2) = Ok p /\
      _unwrap f' (heap s') false (VRef cp) = Ok p.
Proof.
  exact (shallow_copy_same_contents 3 2
           (State [OList "m.a" [VAtom (AInt 1)] "m.a";
                   OSet "m.b" [VAtom (AInt 2)] "m.b";
                   OConfiguration "m" [("a", VRef 0); ("b", VRef 1)] "m"] []) eq_refl).
Defined.

(** ** LoggedSet.__init__ *)

Lemma set_mem_trans x y acc :
  key_eqb x y = true -> set_mem y acc = true -> set_mem x acc = true.
Proof.
  intros Hxy Hy. unfold set_mem in *. apply existsb_exists in Hy as (z & Hz & Hyz).
  apply existsb_exists. exists z. split; [exact Hz|]. eapply key_eqb_trans; eassumption.
Qed.

Lemma set_mem_app x l k : set_mem x (l ++ k) = set_mem x l || set_mem x k.
Proof. unfold set_mem. apply existsb_app. Qed.

(** Inserting one by one keeps exactly the values of the sequence, each
    once. *)
Lemma set_mem_extend x xs : forall acc,
  set_mem x (set_extend acc xs) = set_mem x acc || set_mem x xs.
Proof.
  induction xs as [|y xs IH]; intros acc.
  - cbn. now rewrite orb_false_r.
  - rewrite set_extend_cons, IH, set_mem_cons.
    destruct (set_mem y acc) eqn:Ey.
    + destruct (key_eqb x y) eqn:Exy; [|reflexivity].
      now rewrite (set_mem_trans _ _ _ Exy Ey).
    + rewrite set_mem_app. cbn [set_mem existsb]. rewrite orb_false_r.
      now rewrite orb_assoc.
Qed.

Lemma for_each_app {A B} (f : B -> A -> M B) l1 l2 : forall acc s,
  for_each f acc (l1 ++ l2) s = (acc' <- for_each f acc l1 ;; for_each f acc' l2) s.
Proof.
  induction l1 as [|x l1 IH]; intros acc s; [reflexivity|].
  cbn [app for_each]. unfold bind.
  destruct (f acc x s) as [s1 [acc1|e]]; [|reflexivity].
  rewrite IH. reflexivity.
Qed.

(** X17. A [LoggedSet] built from a sequence of values that are not
    containers holds each of them once (equal values such as [True] and
    [1] count as one) and nothing else; the construction creates this one
    object.  Nothing is said of the order of the elements.  When the
    sequence holds a list, tuple, set or dict, the construction raises
    the unhashable-type [TypeError]: the wrapping function turns the
    element into a logged container before [set.__init__] hashes it. *)
Theorem set_init_collects_atoms
    (fuel : nat) (name : string) (xs : list value) (s : state) :
  0 < fuel ->
  (forallb is_atom xs = true ->
   exists l,
     LoggedSet.__init__ fuel name xs s
     = (State (heap s ++ [OSet name l (getLogger name)]) (trace s),
        Ok (VRef (length (heap s)))) /\
     distinct_from [] l = true /\
     forall x, set_mem x l = set_mem x xs) /\
  (forall pre x post,
      xs = pre ++ x :: post -> forallb is_atom pre = true ->
      is_atom x = false -> python_value x = true -> depth x < fuel ->
      (LoggedSet.__init__ fuel name xs s).2 = Raise unhashable).
Proof.
  intros Hf. destruct fuel as [|g]; [lia|]. clear Hf.
  unfold LoggedSet.__init__, LoggedSet_new. split.
  - intros Hxs. exists (set_extend [] xs). repeat apply conj.
    + now rewrite (bind_ok _ _ s s (set_extend [] xs)) by (now apply wrap_set_loop).
    + now apply set_extend_is_distinct.
    + intros x. now rewrite set_mem_extend.
  - intros pre x post -> Hpre Hx Hp Hd.
    unfold bind at 1. rewrite for_each_app.
    rewrite (bind_ok _ _ s s (set_extend [] pre)) by (now apply wrap_set_loop).
    cbn [for_each]. unfold bind at 1. unfold bind at 1.
    destruct (wrap_logged_config_value (S g) (name +:+ "[...]") x s) as [s1 [w|e]] eqn:Ew.
    + apply wrap_result in Ew.
      assert (Hw : exists a, w = VRef a).
      { destruct x as [?|l|l|l|d|a]; try discriminate; cbn in Ew;
          destruct Ew as (a & ? & -> & _); eauto. }
      destruct Hw as [a ->]. reflexivity.
    + cbn. f_equal. eapply (wrap_plain_error x Hp (S g)); [exact Hd | exact Ew].
Qed.

Lemma set_init_collects_atoms_witness :
  exists l,
    LoggedSet.__init__ 1 "s" [VAtom (AInt 1); VAtom (ABool true); VAtom (AInt 2)] (State [] [])
    = (State [OSet "s" l "s"] [], Ok (VRef 0)) /\
    set_mem (VAtom (AInt 2)) l = true /\
    (LoggedSet.__init__ 2 "s" [VAtom (AInt 1); VTuple [VAtom (AInt 2)]] (State [] [])).2
    = Raise unhashable.
Proof.
  destruct (set_init_collects_atoms 1 "s" [VAtom (AInt 1); VAtom (ABool true); VAtom (AInt 2)]
              (State [] []) ltac:(lia)) as [Hok _].
  destruct (set_init_collects_atoms 2 "s" [VAtom (AInt 1); VTuple [VAtom (AInt 2)]]
              (State [] []) ltac:(lia)) as [_ Hbad].
  destruct (Hok eq_refl) as (l & E & _ & Hm).
  exists l. repeat apply conj.
  - exact E.
  - now rewrite Hm.
  - exact (Hbad [VAtom (AInt 1)] (VTuple [VAtom (AInt 2)]) [] eq_refl eq_refl eq_refl eq_refl
             ltac:(cbn; lia)).
Defined.

(** ** Flattening with sets as lists *)






(** ** extend and append *)

Lemma blind_ret {A} (a : A) : trace_blind (ret a).
Proof. intros s s' H. now split. Qed.

Lemma blind_raise {A} e : trace_blind (@raise A e).
Proof. intros s s' H. now split. Qed.

Lemma blind_lift {A} (o : outcome A) : trace_blind (lift o).
Proof. intros s s' H. now split. Qed.

Lemma blind_alloc o : trace_blind (alloc o).
Proof. intros s s' H. cbn. now rewrite H. Qed.

Lemma blind_bind {A B} (m : M A) (k : A -> M B) :
  trace_blind m -> (forall a, trace_blind (k a)) -> trace_blind (bind m k).
Proof.
  intros Hm Hk s s' H. unfold bind. destruct (Hm s s' H) as [Hh Hr].
  destruct (m s) as [s1 [a|e]], (m s') as [s1' [a'|e']]; cbn in Hh, Hr; try discriminate Hr.
  - injection Hr as <-. now apply Hk.
  - injection Hr as <-. now split.
Qed.

Lemma blind_for_each {A B} (f : B -> A -> M B) l :
  (forall acc x, trace_blind (f acc x)) -> forall acc, trace_blind (for_each f acc l).
Proof.
  intros Hf. induction l as [|x l IH]; intros acc; cbn [for_each].
  - apply blind_ret.
  - apply blind_bind; [apply Hf | intros; apply IH].
Qed.

Lemma blind_wrap fuel : forall n v, trace_blind (wrap_logged_config_value fuel n v).
Proof.
  induction fuel as [|fuel IH]; intros n v; cbn [wrap_logged_config_value];
    [apply blind_raise|].
  intros s s' H. rewrite <- H.
  destruct (as_list_or_tuple (heap s) v); [|destruct (as_set (heap s) v); [|destruct (as_dict v)]].
  - revert s s' H. change (trace_blind (LoggedList_new (wrap_logged_config_value fuel) n l)).
    unfold LoggedList_new. apply blind_bind; [|intros; apply blind_alloc].
    apply blind_for_each. intros acc x. apply blind_bind; [apply IH | intros; apply blind_ret].
  - revert s s' H. change (trace_blind (LoggedSet_new (wrap_logged_config_value fuel) n l)).
    unfold LoggedSet_new. apply blind_bind; [|intros; apply blind_alloc].
    apply blind_for_each. intros acc x. apply blind_bind; [apply IH | intros; apply blind_lift].
  - revert s s' H.
    change (trace_blind (LoggedConfiguration_new (wrap_logged_config_value fuel) n l)).
    unfold LoggedConfiguration_new. apply blind_bind; [|intros; apply blind_alloc].
    apply blind_for_each. intros acc x. apply blind_bind; [apply IH | intros; apply blind_ret].
  - now split.
Qed.

(** One round of the loop of [extend] against one [append]. *)
Lemma extend_step_append fuel self x s1 s2 n l c :
  heap s1 = heap s2 ->
  heap s1 !! self = Some (OList n l c) ->
  let e := (w <- wrap_logged_config_value fuel (n +:+ "[...]") x ;;
            '(n', l', c') <- self_list self ;;
            store self (OList n' (l' ++ [w]) c')) s1 in
  let a := LoggedList.append fuel self x s2 in
  heap e.1 = heap a.1 /\ e.2 = a.2 /\
  (e.2 = Ok tt -> exists l', heap e.1 !! self = Some (OList n l' c)).
Proof.
  intros Hh Ho e a. subst e a.
  assert (Ho2 : heap s2 !! self = Some (OList n l c)) by (now rewrite <- Hh).
  unfold LoggedList.append.
  rewrite (bind_ok _ _ s2 s2 (n, l, c)) by (now apply self_list_ok). cbv beta iota.
  rewrite (bind_ok _ _ s2 (info c n (LogAppending x) s2).1 tt) by reflexivity.
  destruct (blind_wrap fuel (n +:+ "[...]") x s1 (info c n (LogAppending x) s2).1 Hh)
    as [Hw Hr].
  assert (Hext : extends s1 (wrap_logged_config_value fuel (n +:+ "[...]") x s1).1)
    by apply extends_wrap.
  destruct (wrap_logged_config_value fuel (n +:+ "[...]") x s1) as [s1' [w|e]] eqn:E1,
           (wrap_logged_config_value fuel (n +:+ "[...]") x (info c n (LogAppending x) s2).1)
    as [s2' [w'|e']] eqn:E2; cbn [fst snd] in Hw, Hr, Hext; try discriminate Hr.
  - injection Hr as <-.
    assert (Ho1' : heap s1' !! self = Some (OList n l c))
      by exact (prefix_lookup_Some _ _ _ _ Ho Hext).
    assert (Ho2' : heap s2' !! self = Some (OList n l c)) by (now rewrite <- Hw).
    rewrite !(bind_ok _ _ _ _ _ E1), !(bind_ok _ _ _ _ _ E2).
    rewrite !(bind_ok _ _ s1' s1' (n, l, c)) by (now apply self_list_ok).
    rewrite !(bind_ok _ _ s2' s2' (n, l, c)) by (now apply self_list_ok).
    cbn [store fst snd heap]. rewrite Hw. repeat split.
    intros _. exists (l ++ [w]). apply list_lookup_insert_eq.
    rewrite <- Hw. eapply lookup_lt_Some; eassumption.
  - injection Hr as <-.
    rewrite !(bind_raise _ _ _ _ _ E1), !(bind_raise _ _ _ _ _ E2). cbn [fst snd].
    repeat split; [exact Hw | discriminate].
Qed.

Lemma extend_loop_appends fuel self n c xs : forall s1 s2 l,
  heap s1 = heap s2 ->
  heap s1 !! self = Some (OList n l c) ->
  heap (for_each (fun _ x =>
                    w <- wrap_logged_config_value fuel (n +:+ "[...]") x ;;
                    '(n', l', c') <- self_list self ;;
                    store self (OList n' (l' ++ [w]) c')) tt xs s1).1
  = heap (for_each (fun _ x => LoggedList.append fuel self x) tt xs s2).1 /\
  (for_each (fun _ x =>
               w <- wrap_logged_config_value fuel (n +:+ "[...]") x ;;
               '(n', l', c') <- self_list self ;;
               store self (OList n' (l' ++ [w]) c')) tt xs s1).2
  = (for_each (fun _ x => LoggedList.append fuel self x) tt xs s2).2.
Proof.
  induction xs as [|x xs IH]; intros s1 s2 l Hh Ho; [now split|].
  cbn [for_each].
  pose proof (extend_step_append fuel self x s1 s2 n l c Hh Ho) as Hstep. cbv zeta in Hstep.
  destruct ((w <- wrap_logged_config_value fuel (n +:+ "[...]") x ;;
             '(n', l', c') <- self_list self ;;
             store self (OList n' (l' ++ [w]) c')) s1) as [s1' [[]|e]] eqn:E1,
           (LoggedList.append fuel self x s2) as [s2' [[]|e']] eqn:E2;
    cbn [fst snd] in Hstep; destruct Hstep as (H1 & H2 & H3); try discriminate H2.
  - destruct (H3 eq_refl) as (l' & Ho').
    rewrite !(bind_ok _ _ _ _ _ E1), !(bind_ok _ _ _ _ _ E2). now apply (IH s1' s2' l').
  - injection H2 as <-.
    rewrite !(bind_raise _ _ _ _ _ E1), !(bind_raise _ _ _ _ _ E2). now split.
Qed.

(** X19. [extend] with a list does to the store what appending its
    elements one after the other does: the same objects are created, the
    list ends up with the same elements, and it fails on the same element
    with the same error, leaving the elements before it appended.  (It
    sends one record where the appends send one each.) *)
Theorem extend_is_repeated_append
    (fuel : nat) (self : addr) (xs : list value) (s : state)
    (n : string) (l : list value) (c : string) :
  heap s !! self = Some (OList n l c) ->
  heap (LoggedList.extend fuel self (VList xs) s).1
  = heap (for_each (fun _ x => LoggedList.append fuel self x) tt xs s).1 /\
  (LoggedList.extend fuel self (VList xs) s).2
  = (for_each (fun _ x => LoggedList.append fuel self x) tt xs s).2.
Proof.
  intros Ho. unfold LoggedList.extend.
  rewrite (bind_ok _ _ s s (n, l, c)) by (now apply self_list_ok). cbv beta iota.
  rewrite (bind_ok _ _ s (info c n (LogExtending (VList xs)) s).1 tt) by reflexivity.
  rewrite (bind_ok _ _ _ (info c n (LogExtending (VList xs)) s).1 (heap s)) by reflexivity.
  rewrite (bind_ok _ _ _ (info c n (LogExtending (VList xs)) s).1 xs) by reflexivity.
  cbn [same_object andb].
  apply (extend_loop_appends fuel self n c xs _ s l); [reflexivity | exact Ho].
Qed.

Lemma extend_is_repeated_append_witness :
  let s := State [OList "l" [VAtom (AInt 0)] "l"] [] in
  let xs := [VAtom (AInt 1); VList [VAtom (AInt 2)]] in
  heap (LoggedList.extend 3 0 (VList xs) s).1
  = heap (for_each (fun _ x => LoggedList.append 3 0 x) tt xs s).1 /\
  length (heap (LoggedList.extend 3 0 (VList xs) s).1) = 2.
Proof.
  split; [|reflexivity].
  exact (proj1 (extend_is_repeated_append 3 0 [VAtom (AInt 1); VList [VAtom (AInt 2)]]
                  (State [OList "l" [VAtom (AInt 0)] "l"] [])
                  "l" [VAtom (AInt 0)] "l" eq_refl)).
Defined.

(** ** LoggedSet.update and LoggedSet.difference_update *)

Lemma distinct_from_sub l : forall acc acc',
  (forall y, set_mem y acc = true -> set_mem y acc' = true) ->
  distinct_from acc' l = true -> distinct_from acc l = true.
Proof.
  induction l as [|x l IH]; intros acc acc' Hsub H; [reflexivity|].
  cbn [distinct_from] in H |- *. apply andb_prop in H as [H1 H2].
  apply negb_true_iff in H1. apply andb_true_intro. split.
  - apply negb_true_iff. destruct (set_mem x acc) eqn:E; [|reflexivity].
    rewrite (Hsub _ E) in H1. discriminate H1.
  - apply (IH _ (acc' ++ [x])); [|exact H2].
    intros y. rewrite !set_mem_app. intros Hy. apply orb_prop in Hy as [Hy|Hy].
    + now rewrite (Hsub _ Hy).
    + rewrite Hy. apply orb_true_r.
Qed.

Lemma set_del_distinct l v : forall acc,
  distinct_from acc l = true -> distinct_from acc (set_del l v) = true.
Proof.
  induction l as [|x l IH]; intros acc H; [reflexivity|].
  cbn [distinct_from] in H. apply andb_prop in H as [H1 H2]. cbn [set_del].
  destruct (key_eqb v x).
  - apply (distinct_from_sub l acc (acc ++ [x])); [|exact H2].
    intros y Hy. rewrite set_mem_app, Hy. reflexivity.
  - cbn [distinct_from]. rewrite H1. cbn [andb]. now apply IH.
Qed.

Lemma set_mem_del l v x :
  distinct_from [] l = true ->
  set_mem x (set_del l v) = set_mem x l && negb (key_eqb x v).
Proof.
  intros Hd. destruct (key_eqb x v) eqn:E.
  - rewrite andb_false_r. apply not_true_is_false. intros Hm.
    rewrite key_eqb_sym in E.
    pose proof (set_mem_trans _ _ _ E Hm) as Hv.
    rewrite (set_mem_del_same l v [] Hd) in Hv. discriminate Hv.
  - rewrite andb_true_r. apply set_mem_del_other. now rewrite key_eqb_sym.
Qed.

Lemma set_mem_del_all xs x : forall l,
  distinct_from [] l = true ->
  set_mem x (foldl set_del l xs) = set_mem x l && negb (set_mem x xs) /\
  distinct_from [] (foldl set_del l xs) = true.
Proof.
  induction xs as [|v xs IH]; intros l Hd.
  - cbn. now rewrite andb_true_r.
  - cbn [foldl]. destruct (IH (set_del l v) (set_del_distinct _ _ _ Hd)) as [IH1 IH2].
    split; [|exact IH2].
    rewrite IH1, (set_mem_del _ _ _ Hd), set_mem_cons, negb_orb. now rewrite andb_assoc.
Qed.

Lemma update_loop self n c xs : forall s l,
  heap s !! self = Some (OSet n l c) ->
  forallb hashable xs = true ->
  exists s',
    for_each (fun _ x => LoggedSet.add_key self x) tt xs s = (s', Ok tt) /\
    heap s' = <[self := OSet n (set_extend l xs) c]> (heap s).
Proof.
  induction xs as [|x xs IH]; intros s l Ho Hxs.
  - exists s. split; [reflexivity|]. cbn. symmetry. now apply list_insert_id.
  - cbn in Hxs. apply andb_prop in Hxs as [Hx Hxs].
    assert (Hlen : self < length (heap s)) by (eapply lookup_lt_Some; eassumption).
    set (l1 := if set_mem x l then l else l ++ [x]).
    set (s1 := State (<[self := OSet n l1 c]> (heap s)) (trace s ++ [Mutated self])).
    assert (E1 : LoggedSet.add_key self x s = (s1, Ok tt)).
    { unfold LoggedSet.add_key.
      rewrite (bind_ok _ _ s s (n, l, c)) by (now apply self_set_ok). cbv beta iota.
      unfold bind, lift, set_add. now rewrite Hx. }
    destruct (IH s1 l1) as (s' & E & Hh); [now apply list_lookup_insert_eq | exact Hxs |].
    exists s'. split.
    + cbn [for_each]. now rewrite (bind_ok _ _ _ _ _ E1).
    + rewrite Hh. subst s1. cbn [heap]. rewrite list_insert_insert_eq.
      now rewrite set_extend_cons.
Qed.

Lemma difference_loop self n c xs : forall s l,
  heap s !! self = Some (OSet n l c) ->
  forallb hashable xs = true ->
  exists s',
    for_each (fun _ x => LoggedSet.discard_key self x) tt xs s = (s', Ok tt) /\
    heap s' = <[self := OSet n (foldl set_del l xs) c]> (heap s).
Proof.
  induction xs as [|x xs IH]; intros s l Ho Hxs.
  - exists s. split; [reflexivity|]. cbn. symmetry. now apply list_insert_id.
  - cbn in Hxs. apply andb_prop in Hxs as [Hx Hxs].
    assert (Hlen : self < length (heap s)) by (eapply lookup_lt_Some; eassumption).
    set (s1 := State (<[self := OSet n (set_del l x) c]> (heap s)) (trace s ++ [Mutated self])).
    assert (E1 : LoggedSet.discard_key self x s = (s1, Ok tt)).
    { unfold LoggedSet.discard_key.
      rewrite (bind_ok _ _ s s (n, l, c)) by (now apply self_set_ok). cbv beta iota.
      now rewrite Hx. }
    destruct (IH s1 (set_del l x)) as (s' & E & Hh);
      [now apply list_lookup_insert_eq | exact Hxs |].
    exists s'. split.
    + cbn [for_each]. now rewrite (bind_ok _ _ _ _ _ E1).
    + rewrite Hh. subst s1. cbn [heap]. now rewrite list_insert_insert_eq.
Qed.

(** X20. On a [LoggedSet] and a list of hashable values: [update]
    returns and leaves a set that holds exactly the values that were in
    the set or are in the list, each once; [difference_update] returns and
    leaves exactly the values of the set that are not in the list.
    Neither changes another object. *)
Theorem set_update_and_difference_update
    (self : addr) (xs : list value) (s : state) (n : string) (l : list value) (c : string) :
  heap s !! self = Some (OSet n l c) ->
  forallb hashable xs = true ->
  distinct_from [] l = true ->
  (exists lu,
      (LoggedSet.update self (VList xs) s).2 = Ok tt /\
      heap (LoggedSet.update self (VList xs) s).1 = <[self := OSet n lu c]> (heap s) /\
      distinct_from [] lu = true /\
      forall x, set_mem x lu = set_mem x l || set_mem x xs) /\
  (exists ld,
      (LoggedSet.difference_update self (VList xs) s).2 = Ok tt /\
      heap (LoggedSet.difference_update self (VList xs) s).1
      = <[self := OSet n ld c]> (heap s) /\
      distinct_from [] ld = true /\
      forall x, set_mem x ld = set_mem x l && negb (set_mem x xs)).
Proof.
  intros Ho Hxs Hd. split.
  - exists (set_extend l xs).
    destruct (update_loop self n c xs (info c n (LogUpdating (VList xs)) s).1 l Ho Hxs)
      as (s' & E & Hh).
    unfold LoggedSet.update.
    rewrite (bind_ok _ _ s s (n, l, c)) by (now apply self_set_ok). cbv beta iota.
    rewrite (bind_ok _ _ s (info c n (LogUpdating (VList xs)) s).1 tt) by reflexivity.
    rewrite (bind_ok _ _ _ (info c n (LogUpdating (VList xs)) s).1 (heap s)) by reflexivity.
    rewrite (bind_ok _ _ _ (info c n (LogUpdating (VList xs)) s).1 xs) by reflexivity.
    rewrite E. repeat apply conj.
    + reflexivity.
    + exact Hh.
    + now apply set_extend_is_distinct.
    + intros x. apply set_mem_extend.
  - exists (foldl set_del l xs).
    destruct (difference_loop self n c xs (info c n (LogDifferenceUpdate (VList xs)) s).1 l Ho Hxs)
      as (s' & E & Hh).
    unfold LoggedSet.difference_update.
    rewrite (bind_ok _ _ s s (n, l, c)) by (now apply self_set_ok). cbv beta iota.
    rewrite (bind_ok _ _ s (info c n (LogDifferenceUpdate (VList xs)) s).1 tt) by reflexivity.
    cbn [same_object].
    rewrite (bind_ok _ _ _ (info c n (LogDifferenceUpdate (VList xs)) s).1 (heap s))
      by reflexivity.
    rewrite (bind_ok _ _ _ (info c n (LogDifferenceUpdate (VList xs)) s).1 xs) by reflexivity.
    rewrite E. repeat apply conj.
    + reflexivity.
    + exact Hh.
    + exact (proj2 (set_mem_del_all xs (VAtom ANone) l Hd)).
    + intros x. exact (proj1 (set_mem_del_all xs x l Hd)).
Qed.

Lemma set_update_and_difference_update_witness :
  let s := State [OSet "s" [VAtom (AInt 1); VAtom (AInt 2)] "s"] [] in
  let xs := [VAtom (AInt 2); VAtom (AInt 3)] in
  (exists lu,
      heap (LoggedSet.update 0 (VList xs) s).1 = [OSet "s" lu "s"] /\
      set_mem (VAtom (AInt 3)) lu = true) /\
  (exists ld,
      heap (LoggedSet.difference_update 0 (VList xs) s).1 = [OSet "s" ld "s"] /\
      set_mem (VAtom (AInt 2)) ld = false).
Proof.
  destruct (set_update_and_difference_update 0 [VAtom (AInt 2); VAtom (AInt 3)]
              (State [OSet "s" [VAtom (AInt 1); VAtom (AInt 2)] "s"] [])
              "s" [VAtom (AInt 1); VAtom (AInt 2)] "s" eq_refl eq_refl eq_refl)
    as [(lu & _ & Hu & _ & Mu) (ld & _ & Hd & _ & Md)].
  split.
  - exists lu. split; [exact Hu | now rewrite Mu].
  - exists ld. split; [exact Hd | now rewrite Md].
Defined.

(** ** Iterating a string *)

(** A loop over a string sees its code points: the two bytes of the
    UTF-8 encoding of U+00E9 are one character. *)
Example chars_are_code_points :
  let e := String (Ascii.ascii_of_nat 195) (String (Ascii.ascii_of_nat 169) EmptyString) in
  chars ("a" +:+ e +:+ "b") = [VAtom (AStr "a"); VAtom (AStr e); VAtom (AStr "b")] /\
  chars "ab" = [VAtom (AStr "a"); VAtom (AStr "b")].
Proof. split; reflexivity. Qed.
